(** * slice-reader: fetching and deleting project slices

    A shallow embedding of [src/slice-reader.ts] and a verification of its
    behaviour.  The module talks to four collaborators that are not part of
    the file itself: the OpenWhisk client, the HTTP client, the zip reader and
    the local file system.  The remote ones are taken as an oracle ([Remote]),
    as is what the sink of [memory-streams] makes of a response; the file
    system and Node's [path] module are modelled concretely.

    Conventions.
    - A [string] holds the UTF-8 encoding of the JavaScript string it stands
      for, as a string literal of this file does.
    - JavaScript numbers that occur here are integers; where their size is
      not bounded ([parseInt]) they are rounded as doubles are ([JS.number]),
      elsewhere they are modelled by [Z].
    - [path] is Node's [path.posix]; on a Windows host Node binds [path] to
      [path.win32], which is not modelled.
    - An [async] function yields an [Outcome]: the promise is resolved,
      rejected, or never settles. *)

From Stdlib Require Import ZArith Ascii String List Bool Lia.
From stdpp Require Import base tactics option list strings gmap fin_maps.

Local Open Scope string_scope.
Local Open Scope Z_scope.
Local Open Scope list_scope.
Set Warnings "-register-all".

(** ** JavaScript values *)

Module JS.

(** Values as they arrive from a JSON response, plus [undefined].  The
    fields of an object are listed in lookup order. *)
Inductive value : Type :=
| Undefined
| Null
| Bool (b : bool)
| Num (n : Z)
| Str (s : string)
| Arr (items : list value)
| Obj (fields : list (string * value)).

(** ToBoolean. *)
Definition truthy (v : value) : bool :=
  match v with
  | Undefined | Null => false
  | Bool b => b
  | Num n => negb (n =? 0)
  | Str s => negb (String.eqb s "")
  | Arr _ | Obj _ => true
  end.

Fixpoint assoc (k : string) (fields : list (string * value)) : value :=
  match fields with
  | [] => Undefined
  | (k', v) :: rest => if String.eqb k k' then v else assoc k rest
  end.

(** [v.k] for a [v] that is neither [null] nor [undefined]; none of the keys
    read by this program is a property of a primitive. *)
Definition get (v : value) (k : string) : value :=
  match v with
  | Obj fields => assoc k fields
  | _ => Undefined
  end.

(** [v?.k] *)
Definition get_opt (v : value) (k : string) : value :=
  match v with
  | Undefined | Null => Undefined
  | _ => get v k
  end.

(** [a >>> n]: ToUint32 of the left operand, zero-fill shift by [n mod 32]. *)
Definition ushr (a n : Z) : Z := Z.shiftr (a mod 2 ^ 32) (n mod 32).

(** *** Numbers *)

(** The numbers [parseInt] can give: an integer that a double holds, an
    infinity, or NaN.  Minus zero is [Int 0]; it is falsy as zero is. *)
Inductive number : Type :=
| NaN
| Infinity (negative : bool)
| Int (n : Z).

(** The double nearest to an integer, ties to even: 53 bits are kept, and a
    magnitude that rounds to 2^1024 or more gives an infinity. *)
Definition to_double (n : Z) : number :=
  let a := Z.abs n in
  if a <? 2 ^ 53 then Int n
  else
    let e := Z.log2 a - 52 in
    let q := Z.shiftr a e in
    let r := a mod 2 ^ e in
    let half := 2 ^ (e - 1) in
    let q' := if (half <? r) || ((r =? half) && Z.odd q) then q + 1 else q in
    let v := q' * 2 ^ e in
    if 2 ^ 1024 <=? v then Infinity (n <? 0) else Int (Z.sgn n * v).

(** *** parseInt *)

(** White space and line terminators of one byte: U+0009 to U+000D and
    U+0020. *)
Definition is_space (c : ascii) : bool :=
  let n := nat_of_ascii c in
  ((9 <=? n) && (n <=? 13))%nat || (n =? 32)%nat.

(** U+00A0, in UTF-8. *)
Definition is_space2 (c1 c2 : ascii) : bool :=
  ((nat_of_ascii c1 =? 194) && (nat_of_ascii c2 =? 160))%nat.

(** U+1680, U+2000 to U+200A, U+2028, U+2029, U+202F, U+205F, U+3000 and
    U+FEFF, in UTF-8. *)
Definition is_space3 (c1 c2 c3 : ascii) : bool :=
  let n1 := nat_of_ascii c1 in
  let n2 := nat_of_ascii c2 in
  let n3 := nat_of_ascii c3 in
  ((n1 =? 225) && (n2 =? 154) && (n3 =? 128)
   || (n1 =? 226) && (n2 =? 128)
      && ((128 <=? n3) && (n3 <=? 138) || (n3 =? 168) || (n3 =? 169) || (n3 =? 175))
   || (n1 =? 226) && (n2 =? 129) && (n3 =? 159)
   || (n1 =? 227) && (n2 =? 128) && (n3 =? 128)
   || (n1 =? 239) && (n2 =? 187) && (n3 =? 191))%nat.

(** The string without the white space (WhiteSpace and LineTerminator of
    ECMAScript) it starts with. *)
Fixpoint trim_start (s : string) : string :=
  match s with
  | String c1 s1 =>
      if is_space c1 then trim_start s1
      else
        match s1 with
        | String c2 s2 =>
            if is_space2 c1 c2 then trim_start s2
            else
              match s2 with
              | String c3 s3 => if is_space3 c1 c2 c3 then trim_start s3 else s
              | EmptyString => s
              end
        | EmptyString => s
        end
  | EmptyString => s
  end.

Definition digit_value (c : ascii) : option Z :=
  let n := Z.of_nat (nat_of_ascii c) in
  if (48 <=? n) && (n <=? 57) then Some (n - 48)
  else if (97 <=? n) && (n <=? 122) then Some (n - 97 + 10)
  else if (65 <=? n) && (n <=? 90) then Some (n - 65 + 10)
  else None.

(** Value of the longest prefix of digits below [radix]; [None] when that
    prefix is empty. *)
Fixpoint parse_digits (radix : Z) (acc : option Z) (s : string) : option Z :=
  match s with
  | EmptyString => acc
  | String c s' =>
      match digit_value c with
      | Some d =>
          if d <? radix
          then parse_digits radix (Some (radix * default 0 acc + d)) s'
          else acc
      | None => acc
      end
  end.

(** [parseInt(s)] with no radix argument: the digits give an integer, and
    the result is the double nearest to it. *)
Definition parseInt_string (s : string) : number :=
  let s := trim_start s in
  let '(sign, s) :=
    match s with
    | String "-" s' => (-1, s')
    | String "+" s' => (1, s')
    | _ => (1, s)
    end in
  let '(radix, s) :=
    match s with
    | String "0" (String "x" s') => (16, s')
    | String "0" (String "X" s') => (16, s')
    | _ => (10, s)
    end in
  match parse_digits radix None s with
  | Some m => to_double (sign * m)
  | None => NaN
  end.

(** The argument is an entry of [process.env]: a string or [undefined];
    [parseInt(undefined)] parses the text "undefined". *)
Definition parseInt (v : option string) : number :=
  match v with
  | Some s => parseInt_string s
  | None => parseInt_string "undefined"
  end.

(** [a || b] for a number [a]: zero and NaN are falsy. *)
Definition num_or (a : number) (b : Z) : number :=
  match a with
  | Int n => if n =? 0 then Int b else a
  | Infinity _ => a
  | NaN => Int b
  end.

End JS.

(** ** Node's [path.posix] *)

Module Path.

(** [s.split("/")] *)
Fixpoint split (s : string) : list string :=
  match s with
  | EmptyString => [""]
  | String c s' =>
      if Ascii.eqb c "/" then "" :: split s'
      else match split s' with
           | seg :: rest => String c seg :: rest
           | [] => [String c ""]
           end
  end.

(** [segs.join("/")] *)
Definition unsplit (segs : list string) : string := String.concat "/" segs.

Definition isAbsolute (p : string) : bool :=
  match p with
  | String "/" _ => true
  | _ => false
  end.

Fixpoint last_char (s : string) : option ascii :=
  match s with
  | EmptyString => None
  | String c EmptyString => Some c
  | String _ s' => last_char s'
  end.

Definition has_trailing_slash (p : string) : bool :=
  match last_char p with
  | Some c => Ascii.eqb c "/"
  | None => false
  end.

(** One segment of [normalizeString]; [res] is the result so far, last
    segment first.  Empty and "." segments are dropped, ".." removes the
    previous segment unless there is none or it is ".." itself. *)
Definition norm_step (allowAboveRoot : bool) (res : list string) (seg : string)
  : list string :=
  if String.eqb seg "" || String.eqb seg "." then res
  else if String.eqb seg ".." then
    match res with
    | prev :: res' =>
        if String.eqb prev ".." then (if allowAboveRoot then ".." :: res else res)
        else res'
    | [] => if allowAboveRoot then [".."] else []
    end
  else seg :: res.

(** [normalizeString(path, allowAboveRoot, "/", isPosixPathSeparator)], as the
    list of segments of its result. *)
Definition normalizeString (p : string) (allowAboveRoot : bool) : list string :=
  rev (fold_left (norm_step allowAboveRoot) (split p) []).

Definition normalize (p : string) : string :=
  if String.eqb p "" then "."
  else
    let abs := isAbsolute p in
    let trailing := has_trailing_slash p in
    let body := unsplit (normalizeString p (negb abs)) in
    if String.eqb body "" then
      (if abs then "/" else if trailing then "./" else ".")
    else
      let body := if trailing then body +:+ "/" else body in
      if abs then "/" +:+ body else body.

(** [path.join(...args)] *)
Definition join (args : list string) : string :=
  match filter (fun a => negb (String.eqb a "")) args with
  | [] => "."
  | parts => normalize (unsplit parts)
  end.

(** [path.resolve(p)], as the segments below the root; [cwd] is
    [process.cwd()], an absolute path. *)
Definition resolve_segs (cwd p : string) : list string :=
  if isAbsolute p then normalizeString p false
  else if String.eqb p "" then normalizeString cwd false
  else normalizeString (cwd +:+ "/" +:+ p) false.

Fixpoint strip_common (a b : list string) : list string * list string :=
  match a, b with
  | x :: a', y :: b' => if String.eqb x y then strip_common a' b' else (a, b)
  | _, _ => (a, b)
  end.

(** [path.relative(from, to)] *)
Definition relative (cwd from to : string) : string :=
  if String.eqb from to then ""
  else
    let f := resolve_segs cwd from in
    let t := resolve_segs cwd to in
    let '(up, down) := strip_common f t in
    unsplit (map (fun _ => "..") up ++ down).

(** The backwards scan of [dirname] over the characters at index 1 and
    above, last character first: trailing slashes are passed over, then the
    last segment; the result is what precedes the slash found. *)
Fixpoint dirname_scan (rev_tail : list ascii) (matchedSlash : bool)
  : option (list ascii) :=
  match rev_tail with
  | [] => None
  | c :: r =>
      if Ascii.eqb c "/" then
        (if matchedSlash then dirname_scan r true else Some r)
      else dirname_scan r false
  end.

(** [path.dirname(p)] *)
Definition dirname (p : string) : string :=
  match p with
  | EmptyString => "."
  | String c0 tail =>
      let hasRoot := Ascii.eqb c0 "/" in
      match dirname_scan (rev (list_ascii_of_string tail)) true with
      | None => if hasRoot then "/" else "."
      | Some r =>
          if hasRoot && bool_decide (r = []) then "//"
          else String c0 (string_of_list_ascii (rev r))
      end
  end.

End Path.

(** ** Outcomes, events and the effect monad *)

(** A JavaScript [Error]. *)
Record Error := mkError { message : string }.

(** What awaiting a promise gives. *)
Inductive Outcome (A : Type) : Type :=
| Resolved (a : A)
| Rejected (e : Error)
| Pending.
Arguments Resolved {A} a.
Arguments Rejected {A} e.
Arguments Pending {A}.

Definition Buffer := list Byte.byte.

(** A node of the local file system.  A file remembers the permission
    bits it was created with. *)
Inductive node : Type :=
| Dir
| File (data : Buffer) (mode : Z).

(** The file system: absolute, normalized paths (as lists of segments below
    the root) to nodes.  The root directory is implicit. *)
Abbreviation tree := (gmap (list string) node).

(** Calls made to the collaborators, in the order they are made. *)
Inductive Event : Type :=
| EInvoke (action : string) (name : string)
| EWait (activationId : string) (timeoutSeconds : Z)
| EGet (url : JS.value)
| EExists (p : string)
| ERimraf (p : string)
| EMkdir (p : string) (recursive : bool)
| ENewSink (highWaterMark : JS.number)
| EPipe
| ENewZip (data : Buffer)
| EWrite (p : string) (data : Buffer) (mode : Z).

(** A finished (or stuck) run: its outcome, the file system it leaves and
    the calls it made. *)
Record Run (A : Type) := mkRun {
  outcome : Outcome A;
  final : tree;
  trace : list Event
}.
Arguments mkRun {A} _ _ _.
Arguments outcome {A} _.
Arguments final {A} _.
Arguments trace {A} _.

Definition M (A : Type) : Type := tree -> Run A.

Definition ret {A} (a : A) : M A := fun fs => mkRun (Resolved a) fs [].

Definition throw {A} (e : Error) : M A := fun fs => mkRun (Rejected e) fs [].

Definition bind {A B} (m : M A) (k : A -> M B) : M B :=
  fun fs =>
    let r := m fs in
    match outcome r with
    | Resolved a =>
        let r' := k a (final r) in
        mkRun (outcome r') (final r') (trace r ++ trace r')
    | Rejected e => mkRun (Rejected e) (final r) (trace r)
    | Pending => mkRun Pending (final r) (trace r)
    end.

Declare Scope js_scope.
Delimit Scope js_scope with js.
Notation "x <- m ;; k" := (bind m (fun x => k))
  (at level 100, m at next level, right associativity) : js_scope.
Notation "m ;; k" := (bind m (fun _ => k))
  (at level 100, right associativity) : js_scope.

(** Record a call. *)
Definition emit (e : Event) : M unit := fun fs => mkRun (Resolved tt) fs [e].

(** Await a promise whose settlement is decided outside the program. *)
Definition await {A} (o : Outcome A) : M A := fun fs => mkRun o fs [].

(** [for (const x of xs) body(x)] *)
Fixpoint for_of {A} (xs : list A) (body : A -> M unit) : M unit :=
  match xs with
  | [] => ret tt
  | x :: xs' => (body x ;; for_of xs' body)%js
  end.

(** ** The local file system ([fs], [rimraf]) *)

Module Fs.

Section WithCwd.
Variable cwd : string.
(** [process.umask()] *)
Variable umask : Z.

Definition key (p : string) : list string := Path.resolve_segs cwd p.

(** The kind of node at a key; the root is a directory. *)
Definition lookup_key (t : tree) (k : list string) : option node :=
  match k with
  | [] => Some Dir
  | _ => t !! k
  end.

Definition is_dir (t : tree) (k : list string) : bool :=
  match lookup_key t k with
  | Some Dir => true
  | _ => false
  end.

Definition is_file (t : tree) (k : list string) : bool :=
  match lookup_key t k with
  | Some (File _ _) => true
  | _ => false
  end.

(** Whether [p] names a node; with a trailing slash only a directory
    will do. *)
Definition exists_path (t : tree) (p : string) : bool :=
  bool_decide (is_Some (lookup_key t (key p)))
  && (negb (Path.has_trailing_slash p) || is_dir t (key p)).

(** [fs.existsSync(p)] *)
Definition existsSync (p : string) : M bool :=
  fun t => mkRun (Resolved (exists_path t p)) t [EExists p].

(** [rimraf.sync(p)]: the node at [p] and everything below it goes. *)
Definition rimraf_sync (p : string) : M unit :=
  fun t =>
    mkRun (Resolved tt)
          (filter (fun kv => ¬ (key p `prefix_of` kv.1)) t)
          [ERimraf p].

(** All non-empty prefixes of a key, shortest first. *)
Fixpoint ancestors_from (base k : list string) : list (list string) :=
  match k with
  | [] => []
  | s :: k' => (base ++ [s]) :: ancestors_from (base ++ [s]) k'
  end.

Definition prefixes (k : list string) : list (list string) := ancestors_from [] k.

Definition mkdirp (ks : list (list string)) (t : tree) : tree :=
  foldr (fun k acc => <[k := Dir]> acc) t ks.

(** [fs.mkdirSync(p, { recursive: true })]: fails when a component of [p]
    is a file, and otherwise makes every missing component a directory. *)
Definition mkdirSync_recursive (p : string) : M unit :=
  fun t =>
    let ks := prefixes (key p) in
    if existsb (is_file t) ks
    then mkRun (Rejected (mkError ("ENOTDIR: not a directory, mkdir '" +:+ p +:+ "'")))
               t [EMkdir p true]
    else mkRun (Resolved tt) (mkdirp ks t) [EMkdir p true].

(** The permission bits of a file created with [mode]: the lower twelve
    bits, less those of the umask. *)
Definition created_mode (mode : Z) : Z :=
  Z.land (Z.land mode 4095) (Z.lnot umask).

(** [fs.writeFileSync(p, data, { mode })]: the parent must be a directory
    and [p] must not name one; an existing file keeps its permission bits,
    a new one gets those of [mode] that the umask leaves. *)
Definition writeFileSync (p : string) (data : Buffer) (mode : Z) : M unit :=
  fun t =>
    let k := key p in
    let fail msg := mkRun (Rejected (mkError (msg +:+ ", open '" +:+ p +:+ "'")))
                          t [EWrite p data mode] in
    if Path.has_trailing_slash p then fail "EISDIR: illegal operation on a directory"
    else if negb (is_dir t (removelast k)) then fail "ENOENT: no such file or directory"
    else
      match lookup_key t k with
      | Some Dir => fail "EISDIR: illegal operation on a directory"
      | Some (File _ m) => mkRun (Resolved tt) (<[k := File data m]> t) [EWrite p data mode]
      | None =>
          mkRun (Resolved tt) (<[k := File data (created_mode mode)]> t)
                [EWrite p data mode]
      end.

End WithCwd.

End Fs.

(** ** The collaborators *)

(** The Node process: platform, environment, working directory, umask, and
    the constant imported from [./finder-builder]. *)
Record Process := mkProcess {
  platform : string;
  env_TEMP : string;
  env_MAX_SLICE_UPLOAD_SIZE : option string;
  cwd : string;
  umask : Z;
  BUILDER_NAMESPACE : string
}.

Record Credentials := mkCredentials {
  ow_apihost : string;
  ow_api_key : string;
  namespace : string
}.

(** The options handed to [openwhisk(...)]. *)
Record OwClient := mkOwClient {
  apihost : string;
  api_key : string;
  client_namespace : string
}.

Definition openwhisk (c : Credentials) : OwClient :=
  mkOwClient (ow_apihost c) (ow_api_key c) (namespace c).

Record Invoked := mkInvoked { activationId : string }.

(** A response stream: it delivers its data, chunk by chunk, and ends, or
    it emits an error after a part of the data. *)
Inductive Readable : Type :=
| StreamEnds (chunks : list Buffer)
| StreamErrors (received : list Buffer) (e : Error).

(** An entry of the archive, as [adm-zip] presents it.  [entry.getData()]
    decompresses the content and checks it: it throws [getData_error] when
    there is one, and returns [getData] otherwise. *)
Record ZipEntry := mkZipEntry {
  entryName : string;
  isDirectory : bool;
  attr : Z;
  getData : Buffer;
  getData_error : option Error
}.

(** What lies outside this file answers: the remote services, and the
    libraries on whose behaviour the file relies. *)
Record Remote := mkRemote {
  getCredentialsFromEnvironment : Outcome Credentials;
  actions_invoke : OwClient -> string -> string -> Outcome Invoked;
  waitForActivation : string -> OwClient -> Z -> Outcome JS.value;
  axios_get : JS.value -> Outcome Readable;
  (** [input.pipe(output)] for an input that delivers the chunks and ends,
      and a fresh sink of [memory-streams] with the high-water mark given:
      whether the sink takes them all and emits [finish] or [close]. *)
  sink_finishes : JS.number -> list Buffer -> bool;
  (** [new Zip(data).getEntries()] *)
  Zip_getEntries : Buffer -> Outcome (list ZipEntry)
}.

(** The in-memory sink of [memory-streams]. *)
Record WritableStream := mkWritableStream {
  highWaterMark : JS.number;
  toBuffer : Buffer
}.

(** Only [filePath] of the project structure is read. *)
Record DeployStructure := mkDeployStructure { filePath : string }.

(** ** slice-reader.ts *)

Section SliceReader.

Variable proc : Process.
Variable remote : Remote.

(** [process.env.TEMP] is taken to be set where it is read. *)
Definition TEMP : string :=
  if String.eqb (platform proc) "win32" then env_TEMP proc else "/tmp".

Definition MAX_SLICE_UPLOAD_SIZE : JS.number :=
  JS.num_or (JS.parseInt (env_MAX_SLICE_UPLOAD_SIZE proc)) (64 * 1024 * 1024).

Definition cacheArea : string := Path.join [TEMP; "slices"].

(** The promise resolves on the sink's [finish] or [close], and on nothing
    else: an error of the input neither ends nor closes the sink, and a
    sink that does not take the whole input does not finish, so in both
    cases nothing settles the promise. *)
Definition pipe (input : Readable) (output : WritableStream) : M WritableStream :=
  (emit EPipe ;;
   match input with
   | StreamEnds chunks =>
       if sink_finishes remote (highWaterMark output) chunks
       then ret (mkWritableStream (highWaterMark output)
                                  (toBuffer output ++ concat chunks))
       else await Pending
   | StreamErrors _ _ => await Pending
   end)%js.

(** [new WritableStream({ highWaterMark })]: the sink is made with the mark
    it is given. *)
Definition new_WritableStream (hwm : JS.number) : M WritableStream :=
  (emit (ENewSink hwm) ;; ret (mkWritableStream hwm []))%js.

Definition invoke (owClient : OwClient) (name sliceName : string) : M Invoked :=
  (emit (EInvoke name sliceName) ;; await (actions_invoke remote owClient name sliceName))%js.

Definition wait (id : string) (owClient : OwClient) (timeout : Z) : M JS.value :=
  (emit (EWait id timeout) ;; await (waitForActivation remote id owClient timeout))%js.

Definition get (url : JS.value) : M Readable :=
  (emit (EGet url) ;; await (axios_get remote url))%js.

Definition new_Zip (data : Buffer) : M (list ZipEntry) :=
  (emit (ENewZip data) ;; await (Zip_getEntries remote data))%js.

(** [entry.getData()] *)
Definition entry_getData (entry : ZipEntry) : M Buffer :=
  match getData_error entry with
  | Some e => throw e
  | None => ret (getData entry)
  end.

(** The body of the extraction loop. *)
Definition store (cache : string) (entry : ZipEntry) : M unit :=
  (let target := Path.join [cache; entryName entry] in
   let parent := Path.dirname target in
   parent_exists <- Fs.existsSync (cwd proc) parent ;;
   (if negb parent_exists then Fs.mkdirSync_recursive (cwd proc) parent else ret tt) ;;
   let mode := JS.ushr (attr entry) 16 in
   data <- entry_getData entry ;;
   Fs.writeFileSync (cwd proc) (umask proc) target data mode)%js.

Definition fetchSlice (sliceName : string) : M string :=
  (let GET_DOWNLOAD_URL := "/" +:+ BUILDER_NAMESPACE proc +:+ "/builder/getDownloadUrl" in
   credentials <- await (getCredentialsFromEnvironment remote) ;;
   let owClient := openwhisk credentials in
   invoked <- invoke owClient GET_DOWNLOAD_URL sliceName ;;
   activation <- wait (activationId invoked) owClient 60 ;;
   if negb (JS.truthy activation) then
     throw (mkError ("Timed out fetching assets url for '" +:+ sliceName +:+ "'"))
   else
   let activationResponse := JS.get activation "response" in
   let downloadUrl :=
     JS.get_opt (JS.get_opt (JS.get activation "response") "result") "url" in
   if negb (JS.truthy activationResponse)
      || negb (JS.truthy (JS.get_opt activationResponse "success"))
      || negb (JS.truthy downloadUrl) then
     throw (mkError ("Failed to fetch assets url for '" +:+ sliceName +:+ "'"))
   else
   response <- get downloadUrl ;;
   let cache := Path.join [cacheArea; sliceName] in
   cache_exists <- Fs.existsSync (cwd proc) cache ;;
   (if cache_exists then Fs.rimraf_sync (cwd proc) cache else ret tt) ;;
   Fs.mkdirSync_recursive (cwd proc) cache ;;
   destination <- new_WritableStream MAX_SLICE_UPLOAD_SIZE ;;
   destination <- pipe response destination ;;
   let data := toBuffer destination in
   zip <- new_Zip data ;;
   for_of (filter (fun entry => negb (isDirectory entry)) zip) (store cache) ;;
   ret cache)%js.

Definition deleteSlice (project : DeployStructure) : M unit :=
  (let DELETE_ASSETS_URL := "/" +:+ BUILDER_NAMESPACE proc +:+ "/builder/deleteBuildAssets" in
   let sliceName := Path.relative (cwd proc) cacheArea (filePath project) in
   credentials <- await (getCredentialsFromEnvironment remote) ;;
   let owClient := openwhisk credentials in
   invoked <- invoke owClient DELETE_ASSETS_URL sliceName ;;
   wait (activationId invoked) owClient 60 ;;
   ret tt)%js.

End SliceReader.

(** ** Vocabulary of the statements *)

(** The [writeFileSync] calls of a trace: path, data, mode. *)
Fixpoint writes_of (tr : list Event) : list (string * Buffer * Z) :=
  match tr with
  | [] => []
  | EWrite p d m :: tr' => (p, d, m) :: writes_of tr'
  | _ :: tr' => writes_of tr'
  end.

(** The [mkdirSync] calls of a trace: path, recursive flag. *)
Fixpoint mkdirs_of (tr : list Event) : list (string * bool) :=
  match tr with
  | [] => []
  | EMkdir p r :: tr' => (p, r) :: mkdirs_of tr'
  | _ :: tr' => mkdirs_of tr'
  end.


(** [needle] occurs in [hay]. *)
Fixpoint mentions (needle hay : string) : bool :=
  String.prefix needle hay
  || match hay with
     | EmptyString => false
     | String _ hay' => mentions needle hay'
     end.

Fixpoint no_slash (s : string) : bool :=
  match s with
  | EmptyString => true
  | String c s' => negb (Ascii.eqb c "/") && no_slash s'
  end.

(** A path segment that [Path.normalize] keeps as it is. *)
Definition plain (s : string) : bool :=
  no_slash s && negb (String.eqb s "") && negb (String.eqb s ".")
  && negb (String.eqb s "..").

(** Decimal numerals: the digits, most significant first, as text and as
    a number. *)
Definition digit_char (d : Z) : ascii := ascii_of_nat (Z.to_nat (48 + d)).

Definition numeral (ds : list Z) : string :=
  string_of_list_ascii (map digit_char ds).

Definition numeral_value (ds : list Z) : Z :=
  fold_left (fun acc d => 10 * acc + d) ds 0.

(** [e >> n] on the same operand, for comparison with [JS.ushr]: ToInt32,
    then a sign-propagating shift. *)
Definition sshr (a n : Z) : Z :=
  Z.shiftr ((a + 2 ^ 31) mod 2 ^ 32 - 2 ^ 31) (n mod 32).

(** What every call of [fetchSlice] to the sink constructor and to
    [writeFileSync] satisfies. *)
Definition call_in_bounds (maxSize : JS.number) (ev : Event) : Prop :=
  match ev with
  | ENewSink h => h = maxSize
  | EWrite _ _ m => 0 <= m <= 65535
  | _ => True
  end.

(** Where the loop body stores an entry. *)
Definition target (cache : string) (e : ZipEntry) : string :=
  Path.join [cache; entryName e].

Definition write_of (cache : string) (e : ZipEntry) : string * Buffer * Z :=
  (target cache e, getData e, JS.ushr (attr e) 16).

(** The calls the loop body can make for an entry. *)
Definition entry_call (cache : string) (e : ZipEntry) (ev : Event) : Prop :=
  ev = EExists (Path.dirname (target cache e))
  ∨ ev = EMkdir (Path.dirname (target cache e)) true
  ∨ ev = EWrite (target cache e) (getData e) (JS.ushr (attr e) 16).

(** In the words of the design: the response is there, reports success and
    carries a non-empty download URL. *)
Definition usable (act : JS.value) : bool :=
  let response := JS.get act "response" in
  JS.truthy response
  && JS.truthy (JS.get response "success")
  && JS.truthy (JS.get (JS.get response "result") "url").

Definition download_url (act : JS.value) : JS.value :=
  JS.get (JS.get (JS.get act "response") "result") "url".

Section Vocabulary.

Variable proc : Process.
Variable remote : Remote.

Definition GET_DOWNLOAD_URL : string :=
  "/" +:+ BUILDER_NAMESPACE proc +:+ "/builder/getDownloadUrl".

Definition DELETE_ASSETS_URL : string :=
  "/" +:+ BUILDER_NAMESPACE proc +:+ "/builder/deleteBuildAssets".

(** The cache entry of a slice. *)
Definition cache_of (sliceName : string) : string :=
  Path.join [cacheArea proc; sliceName].

(** The remote side accepts the invocation of [action] for [sliceName]
    under activation [id], and the wait of 60 yields [act] ([undefined]
    when the activation did not complete in time). *)
Definition answers (action sliceName id : string) (act : JS.value) : Prop :=
  ∃ c inv,
    getCredentialsFromEnvironment remote = Resolved c ∧
    actions_invoke remote (openwhisk c) action sliceName = Resolved inv ∧
    activationId inv = id ∧
    waitForActivation remote id (openwhisk c) 60 = Resolved act.

Definition exists_in (t : tree) (p : string) : bool :=
  Fs.exists_path (cwd proc) t p.

(** The "resetAndCreate" of the design, in its words: delete the path when
    it exists, then create it with its missing parents. *)
Definition resetAndCreate (p : string) : M unit :=
  (e <- Fs.existsSync (cwd proc) p ;;
   (if e then Fs.rimraf_sync (cwd proc) p else ret tt) ;;
   Fs.mkdirSync_recursive (cwd proc) p)%js.

(** The extraction loop over the entries of an archive. *)
Definition extract (es : list ZipEntry) (cache : string) : M unit :=
  for_of (filter (fun e => negb (isDirectory e)) es) (store proc cache).

(** [fetchSlice] from the point where the response stream is at hand and
    the cache entry is fresh. *)
Definition unpack (response : Readable) (cache : string) : M string :=
  (destination <- new_WritableStream (MAX_SLICE_UPLOAD_SIZE proc) ;;
   destination <- pipe remote response destination ;;
   zip <- new_Zip remote (toBuffer destination) ;;
   extract zip cache ;;
   ret cache)%js.

(** [fetchSlice] from the point where the download URL is known. *)
Definition download_and_unpack (url : JS.value) (cache : string) : M string :=
  (response <- get remote url ;;
   resetAndCreate cache ;;
   unpack response cache)%js.

End Vocabulary.

(** ** Sample worlds *)

Module Sample.

(** A Linux host with the usual umask, 022. *)
Definition posix : Process := mkProcess "linux" "" None "/" 18 "nimbella".

Definition creds : Credentials := mkCredentials "https://api.example" "key" "ns".

Definition url : JS.value := JS.Str "https://bucket.example/myslice.zip".

Definition good_activation : JS.value :=
  JS.Obj [("response",
           JS.Obj [("success", JS.Bool true); ("result", JS.Obj [("url", url)])])].

Definition bad_activation : JS.value :=
  JS.Obj [("response", JS.Obj [("success", JS.Bool false)])].

(** index.js (0644), lib/ (directory), lib/util.js (0755); the attributes
    are those a Unix zip writes: the [st_mode] in the upper half. *)
Definition archive1 : list ZipEntry :=
  [ mkZipEntry "index.js" false 2175008768 [Byte.x01] None;
    mkZipEntry "lib/" true 1106051088 [] None;
    mkZipEntry "lib/util.js" false 2179792896 [Byte.x02] None ].

Definition archive2 : list ZipEntry :=
  [ mkZipEntry "main.js" false 2175008768 [Byte.x03] None ].

Definition world (act : JS.value) (download : Outcome Readable)
    (entries : list ZipEntry) : Remote :=
  mkRemote (Resolved creds)
           (fun _ _ _ => Resolved (mkInvoked "activation-1"))
           (fun _ _ _ => Resolved act)
           (fun _ => download)
           (fun _ _ => true)
           (fun _ => Resolved entries).

Definition first : Remote :=
  world good_activation (Resolved (StreamEnds [[Byte.x50]])) archive1.

Definition second : Remote :=
  world good_activation (Resolved (StreamEnds [[Byte.x51]])) archive2.

Definition timeout : Remote := world JS.Undefined Pending [].

Definition failure : Remote := world bad_activation Pending [].

Definition not_found : Remote :=
  world good_activation (Rejected (mkError "Request failed with status code 404")) [].

Definition broken_stream : Remote :=
  world good_activation (Resolved (StreamErrors [[Byte.x50]] (mkError "aborted"))) [].

End Sample.


(** ** Vocabulary of the further properties *)

(** How many calls of a kind a trace holds. *)
Fixpoint count_calls (which : Event -> bool) (tr : list Event) : nat :=
  match tr with
  | [] => 0%nat
  | ev :: tr' => ((if which ev then 1 else 0) + count_calls which tr')%nat
  end.

Definition is_invoke (ev : Event) : bool :=
  match ev with EInvoke _ _ => true | _ => false end.

Definition is_wait (ev : Event) : bool :=
  match ev with EWait _ _ => true | _ => false end.

Definition is_get (ev : Event) : bool :=
  match ev with EGet _ => true | _ => false end.

Definition is_rimraf (ev : Event) : bool :=
  match ev with ERimraf _ => true | _ => false end.

Definition is_new_zip (ev : Event) : bool :=
  match ev with ENewZip _ => true | _ => false end.

(** A tree in the proper sense: the ancestors of every node, below the
    root, are directories. *)
Definition well_formed (t : tree) : Prop :=
  ∀ k n, t !! k = Some n ->
  ∀ k', k' `prefix_of` k -> k' ≠ k -> k' ≠ [] -> t !! k' = Some Dir.

Definition keeps_well_formed (t t' : tree) : Prop :=
  well_formed t -> well_formed t'.

(** [t'] agrees with [t] at every path outside [S]. *)
Definition same_outside (S : list string -> Prop) (t t' : tree) : Prop :=
  ∀ k, ¬ S k -> t' !! k = t !! k.

(** Outside [S], what is a directory in [t] is one in [t'], and what is a
    file in [t] is one in [t']. *)
Definition survives_outside (S : list string -> Prop) (t t' : tree) : Prop :=
  ∀ k, ¬ S k ->
    (Fs.is_dir t k = true -> Fs.is_dir t' k = true) ∧
    (Fs.is_file t k = true -> Fs.is_file t' k = true).

(** The non-directory entries of the archive that a run has read: those
    the zip reader returned for the buffer of a [new Zip] call of the
    trace. *)
Definition read_entry (remote : Remote) (tr : list Event) (e : ZipEntry) : Prop :=
  ∃ data es,
    ENewZip data ∈ tr ∧ Zip_getEntries remote data = Resolved es ∧
    e ∈ es ∧ isDirectory e = false.

(** The buffers of the [new Zip] calls of a trace. *)
Fixpoint zips_of (tr : list Event) : list Buffer :=
  match tr with
  | [] => []
  | ENewZip data :: tr' => data :: zips_of tr'
  | _ :: tr' => zips_of tr'
  end.

(** Of a call: if it is a write, then it writes an entry of the archive
    read in [tr], at the entry's target, with the entry's data and with the
    mode [attr >>> 16]. *)
Definition writes_read_entry (remote : Remote) (cache : string) (tr : list Event)
    (ev : Event) : Prop :=
  ∀ p d m, ev = EWrite p d m ->
    ∃ e, read_entry remote tr e ∧ (p, d, m) = write_of cache e.

(** Calls that change the file system. *)
Definition changes_fs (ev : Event) : bool :=
  match ev with
  | ERimraf _ | EMkdir _ _ | EWrite _ _ _ => true
  | _ => false
  end.

(** The paths that the extraction of the archive read in [tr] can make:
    the target of a non-directory entry, or one that leads to the target's
    parent. *)
Definition stems_from (proc : Process) (remote : Remote) (cache : string)
    (tr : list Event) (k : list string) : Prop :=
  ∃ e, read_entry remote tr e ∧
       (k `prefix_of` Fs.key (cwd proc) (Path.dirname (target cache e))
        ∨ k = Fs.key (cwd proc) (target cache e)).

(** The paths a fetch of [sliceName] with the calls [tr] may change: the
    cache entry and what is below it, the ancestors of the cache entry,
    and what stems from the archive read. *)
Definition region (proc : Process) (remote : Remote) (sliceName : string)
    (tr : list Event) (k : list string) : Prop :=
  let cache := cache_of proc sliceName in
  Fs.key (cwd proc) cache `prefix_of` k
  ∨ k `prefix_of` Fs.key (cwd proc) cache
  ∨ stems_from proc remote cache tr k.

(** A relative path in normal form: one or more plain segments joined by
    single slashes. *)
Definition normal_form (s : string) : Prop :=
  ∃ segs, segs ≠ [] ∧ Forall (fun x => plain x = true) segs ∧ s = Path.unsplit segs.

(** A character that [parseInt] reads as a decimal digit. *)
Definition decimal_digit (c : ascii) : bool :=
  match JS.digit_value c with
  | Some d => d <? 10
  | None => false
  end.

(** What is in [t'] was in [t] or is at a path in [S]. *)
Definition adds_only (S : list string -> Prop) (t t' : tree) : Prop :=
  ∀ k n, t' !! k = Some n -> is_Some (t !! k) ∨ S k.

(** More sample worlds. *)
Module Sample2.

Definition refused : Error := mkError "401 Unauthorized".

Definition no_credentials : Remote :=
  mkRemote (Rejected (mkError "no credentials in the environment"))
           (fun _ _ _ => Pending) (fun _ _ _ => Pending)
           (fun _ => Pending) (fun _ _ => false) (fun _ => Pending).

Definition invoke_refused : Remote :=
  mkRemote (Resolved Sample.creds)
           (fun _ _ _ => Rejected refused) (fun _ _ _ => Pending)
           (fun _ => Pending) (fun _ _ => false) (fun _ => Pending).

Definition wait_refused : Remote :=
  mkRemote (Resolved Sample.creds)
           (fun _ _ _ => Resolved (mkInvoked "activation-1"))
           (fun _ _ _ => Rejected refused)
           (fun _ => Pending) (fun _ _ => false) (fun _ => Pending).

(** A sink that takes a body shorter than its mark, and no other. *)
Definition below_mark (hwm : JS.number) (chunks : list Buffer) : bool :=
  match hwm with
  | JS.Int n => Z.of_nat (length (concat chunks)) <? n
  | JS.Infinity negative => negb negative
  | JS.NaN => false
  end.

(** index.js, then an entry whose content fails its check, then last.js. *)
Definition damaged : list ZipEntry :=
  [ mkZipEntry "index.js" false 2175008768 [Byte.x01] None;
    mkZipEntry "broken.js" false 2175008768 [] (Some (mkError "CRC32 checksum failed"));
    mkZipEntry "last.js" false 2175008768 [Byte.x06] None ].

(** A zip reader that looks at the buffer. *)
Definition reader (data : Buffer) : Outcome (list ZipEntry) :=
  match data with
  | [Byte.x50] => Resolved Sample.archive1
  | [Byte.x51] => Resolved Sample.archive2
  | [Byte.x52] => Resolved [ mkZipEntry "../other" false 2175008768 [Byte.x04] None ]
  | [Byte.x53] => Resolved damaged
  | [Byte.x54] => Resolved [ mkZipEntry "../../../home" false 2175008768 [Byte.x07] None ]
  | [Byte.x55] => Resolved [ mkZipEntry "old.js" false 2175008768 [Byte.x08] None ]
  | _ => Rejected (mkError "Invalid or unsupported zip format")
  end.

(** The world that answers every download with [body]. *)
Definition serving (body : list Buffer) : Remote :=
  mkRemote (Resolved Sample.creds)
           (fun _ _ _ => Resolved (mkInvoked "activation-1"))
           (fun _ _ _ => Resolved Sample.good_activation)
           (fun _ => Resolved (StreamEnds body))
           below_mark
           reader.

Definition bad_archive : Remote := serving [[Byte.x50]; [Byte.x4b]].

(** An archive whose entry points out of the cache entry. *)
Definition slipping : Remote := serving [[Byte.x52]].

(** The cache entry of "myslice" with a file from before. *)
Definition cached : tree :=
  <[ ["tmp"; "slices"; "myslice"; "old.js"] := File [Byte.x00] 420 ]>
    (Fs.mkdirp (Fs.prefixes ["tmp"; "slices"; "myslice"]) ∅).

(** The same, beside the cache entry of "other" and a file "/home". *)
Definition populated : tree :=
  <[ ["home"] := File [Byte.x05] 420 ]>
    (<[ ["tmp"; "slices"; "other"; "main.js"] := File [Byte.x03] 420 ]>
       (Fs.mkdirp (Fs.prefixes ["tmp"; "slices"; "other"]) cached)).

(** A file where the directory "/tmp" should be. *)
Definition blocked : tree := <[ ["tmp"] := File [] 420 ]> ∅.

(** A process that sets the limit to one byte. *)
Definition tight : Process := mkProcess "linux" "" (Some "1") "/" 18 "nimbella".

End Sample2.

(** * Properties *)

(** ** Sanity checks of the models *)

Example parseInt_plain : JS.parseInt (Some "1048576") = JS.Int 1048576.
Proof. reflexivity. Qed.
Example parseInt_suffix : JS.parseInt (Some " 12abc") = JS.Int 12.
Proof. reflexivity. Qed.
Example parseInt_hex : JS.parseInt (Some "0x10") = JS.Int 16.
Proof. reflexivity. Qed.
Example parseInt_neg : JS.parseInt (Some "-5") = JS.Int (-5).
Proof. reflexivity. Qed.
Example parseInt_nan : JS.parseInt (Some "abc") = JS.NaN.
Proof. reflexivity. Qed.
Example parseInt_unset : JS.parseInt None = JS.NaN.
Proof. reflexivity. Qed.
Example parseInt_nbsp :
  JS.parseInt (Some (String "194" (String "160" "12"))) = JS.Int 12.
Proof. reflexivity. Qed.
Example parseInt_line_separator :
  JS.parseInt (Some (String "226" (String "128" (String "168" "7")))) = JS.Int 7.
Proof. reflexivity. Qed.
Example parseInt_rounds :
  JS.parseInt (Some "9007199254740993") = JS.Int 9007199254740992.
Proof. by vm_compute. Qed.
Example parseInt_rounds_up :
  JS.parseInt (Some "9007199254740995") = JS.Int 9007199254740996.
Proof. by vm_compute. Qed.
Example to_double_largest :
  JS.to_double (2 ^ 1024 - 2 ^ 970 - 1) = JS.Int ((2 ^ 53 - 1) * 2 ^ 971)
  ∧ JS.to_double (2 ^ 1024 - 2 ^ 970) = JS.Infinity false
  ∧ JS.to_double (- 2 ^ 1024) = JS.Infinity true.
Proof. by vm_compute. Qed.
Example ushr_unix : JS.ushr 2175008768 16 = 33188.
Proof. reflexivity. Qed.
Example join_ex1 : Path.join ["/tmp"; "slices"] = "/tmp/slices".
Proof. reflexivity. Qed.
Example join_ex2 : Path.join ["/tmp/slices"; "a/../b//c/"] = "/tmp/slices/b/c/".
Proof. reflexivity. Qed.
Example join_ex3 : Path.join ["/tmp/slices"; "../../../x"] = "/x".
Proof. reflexivity. Qed.
Example join_ex4 : Path.join ["a"; "../../b"] = "../b".
Proof. reflexivity. Qed.
Example dirname_ex1 : Path.dirname "/tmp/slices/s/lib/util.js" = "/tmp/slices/s/lib".
Proof. reflexivity. Qed.
Example dirname_ex2 : Path.dirname "/a" = "/".
Proof. reflexivity. Qed.
Example dirname_ex3 : Path.dirname "/a/b/" = "/a".
Proof. reflexivity. Qed.
Example dirname_ex4 : Path.dirname "//a" = "//".
Proof. reflexivity. Qed.
Example relative_ex1 : Path.relative "/" "/tmp/slices" "/tmp/slices/foo" = "foo".
Proof. reflexivity. Qed.
Example relative_ex2 : Path.relative "/" "/tmp/slices" "/tmp/x/y" = "../x/y".
Proof. reflexivity. Qed.
Example relative_ex3 : Path.relative "/" "/tmp/slices" "/tmp/slices" = "".
Proof. reflexivity. Qed.
Example fetch_first :
  let r := fetchSlice Sample.posix Sample.first "myslice" ∅ in
  outcome r = Resolved "/tmp/slices/myslice" ∧
  writes_of (trace r) =
    [("/tmp/slices/myslice/index.js", [Byte.x01], 33188);
     ("/tmp/slices/myslice/lib/util.js", [Byte.x02], 33261)] ∧
  mkdirs_of (trace r) =
    [("/tmp/slices/myslice", true); ("/tmp/slices/myslice/lib", true)].
Proof. vm_compute. done. Qed.

Example fetch_broken_stream :
  let r := fetchSlice Sample.posix Sample.broken_stream "myslice" ∅ in
  outcome r = Pending ∧ writes_of (trace r) = [] ∧
  mkdirs_of (trace r) = [("/tmp/slices/myslice", true)].
Proof. vm_compute. done. Qed.

Example fetch_not_found :
  outcome (fetchSlice Sample.posix Sample.not_found "myslice" ∅) =
    Rejected (mkError "Request failed with status code 404").
Proof. reflexivity. Qed.

Example delete_after_timeout :
  let r := deleteSlice Sample.posix Sample.timeout
             (mkDeployStructure "/tmp/slices/myslice") ∅ in
  outcome r = Resolved tt ∧
  trace r = [EInvoke "/nimbella/builder/deleteBuildAssets" "myslice";
             EWait "activation-1" 60].
Proof. vm_compute. done. Qed.

Example numeral_ex : numeral [6; 4] = "64" ∧ numeral_value [6; 4] = 64.
Proof. by vm_compute. Qed.

(** ** The effect monad *)

#[local] Arguments Path.join : simpl never.
#[local] Arguments Path.dirname : simpl never.
#[local] Arguments Path.relative : simpl never.
#[local] Arguments Fs.existsSync : simpl never.
#[local] Arguments Fs.rimraf_sync : simpl never.
#[local] Arguments Fs.mkdirSync_recursive : simpl never.
#[local] Arguments Fs.writeFileSync : simpl never.
#[local] Arguments resetAndCreate : simpl never.
#[local] Arguments extract : simpl never.
#[local] Arguments unpack : simpl never.
#[local] Arguments download_and_unpack : simpl never.
#[local] Arguments store : simpl never.
#[local] Arguments for_of : simpl never.
#[local] Arguments MAX_SLICE_UPLOAD_SIZE : simpl never.
#[local] Arguments cacheArea : simpl never.
#[local] Arguments JS.truthy : simpl never.
#[local] Arguments JS.get : simpl never.
#[local] Arguments JS.get_opt : simpl never.

Lemma bind_resolved {A B} (m : M A) (k : A -> M B) fs a :
  outcome (m fs) = Resolved a ->
  bind m k fs =
    mkRun (outcome (k a (final (m fs)))) (final (k a (final (m fs))))
          (trace (m fs) ++ trace (k a (final (m fs)))).
Proof. intros H. unfold bind. rewrite H. reflexivity. Qed.

Lemma bind_rejected {A B} (m : M A) (k : A -> M B) fs e :
  outcome (m fs) = Rejected e ->
  bind m k fs = mkRun (Rejected e) (final (m fs)) (trace (m fs)).
Proof. intros H. unfold bind. rewrite H. reflexivity. Qed.

Lemma bind_pending {A B} (m : M A) (k : A -> M B) fs :
  outcome (m fs) = Pending ->
  bind m k fs = mkRun Pending (final (m fs)) (trace (m fs)).
Proof. intros H. unfold bind. rewrite H. reflexivity. Qed.

Lemma bind_outcome_inv {A B} (m : M A) (k : A -> M B) fs b :
  outcome (bind m k fs) = Resolved b ->
  ∃ a, outcome (m fs) = Resolved a ∧ outcome (k a (final (m fs))) = Resolved b.
Proof.
  unfold bind. destruct (outcome (m fs)) eqn:E; simpl; try discriminate.
  intros H. eauto.
Qed.

Lemma final_bind {A B} (m : M A) (k : A -> M B) fs a :
  outcome (m fs) = Resolved a ->
  final (bind m k fs) = final (k a (final (m fs))).
Proof. intros H. unfold bind. rewrite H. reflexivity. Qed.

Lemma trace_bind {A B} (m : M A) (k : A -> M B) fs a :
  outcome (m fs) = Resolved a ->
  trace (bind m k fs) = trace (m fs) ++ trace (k a (final (m fs))).
Proof. intros H. unfold bind. rewrite H. reflexivity. Qed.

Lemma trace_bind_prefix {A B} (m : M A) (k : A -> M B) fs :
  ∃ tr, trace (bind m k fs) = trace (m fs) ++ tr.
Proof.
  unfold bind. destruct (outcome (m fs)); simpl; eauto.
  all: exists []; by rewrite app_nil_r.
Qed.

Lemma bind_not_resolved {A B} (m : M A) (k : A -> M B) fs :
  (∀ a, outcome (m fs) ≠ Resolved a) ->
  bind m k fs =
    mkRun (match outcome (m fs) with Rejected e => Rejected e | _ => Pending end)
          (final (m fs)) (trace (m fs)).
Proof. intros H. unfold bind. destruct (outcome (m fs)); [by destruct (H a)|done..]. Qed.

Lemma bind_assoc {A B C} (m : M A) (k : A -> M B) (h : B -> M C) fs :
  bind (bind m k) h fs = bind m (fun a => bind (k a) h) fs.
Proof.
  unfold bind. destruct (outcome (m fs)); simpl; [|done..].
  destruct (outcome (k a (final (m fs)))); simpl; [|done..].
  by rewrite app_assoc.
Qed.

Lemma bind_ext {A B} (m : M A) (k k' : A -> M B) fs :
  (∀ a fs', k a fs' = k' a fs') -> bind m k fs = bind m k' fs.
Proof. intros H. unfold bind. destruct (outcome (m fs)); [|done..]. by rewrite H. Qed.

(** A property of all calls of a computation is a property of all calls of
    its parts. *)
Lemma trace_bind_Forall {A B} (P : Event -> Prop) (m : M A) (k : A -> M B) fs :
  Forall P (trace (m fs)) ->
  (∀ a fs', Forall P (trace (k a fs'))) ->
  Forall P (trace (bind m k fs)).
Proof.
  intros Hm Hk. unfold bind. destruct (outcome (m fs)); simpl; [|done..].
  apply Forall_app. split; [done|apply Hk].
Qed.

(** A computation whose parts leave the file system alone leaves it alone. *)
Lemma final_bind_same {A B} (m : M A) (k : A -> M B) fs :
  (∀ fs', final (m fs') = fs') ->
  (∀ a fs', final (k a fs') = fs') ->
  final (bind m k fs) = fs.
Proof.
  intros Hm Hk. unfold bind. destruct (outcome (m fs)); simpl; [|done..].
  by rewrite Hk.
Qed.

Lemma trace_for_of_Forall {A} (P : Event -> Prop) (xs : list A) body fs :
  (∀ x fs', Forall P (trace (body x fs'))) ->
  Forall P (trace (for_of xs body fs)).
Proof.
  intros Hb. revert fs. induction xs as [|x xs IH]; intros fs.
  - by apply Forall_nil.
  - apply trace_bind_Forall; [apply Hb|]. intros _ fs'. apply IH.
Qed.

Lemma for_of_cons {A} (x : A) xs body t :
  for_of (x :: xs) body t = bind (body x) (fun _ => for_of xs body) t.
Proof. reflexivity. Qed.

(** A property of a part of a run that may look at the calls made before
    the part: [P ctx tr t t'] speaks of a part that made the calls [tr] and
    took the file system from [t] to [t'], after the calls [ctx].  When
    the property of two parts in a row gives that of the whole, it holds of
    a computation as soon as it holds of its parts. *)
Section Traced.
Variable P : list Event -> list Event -> tree -> tree -> Prop.
Hypothesis P_comp : ∀ ctx tr1 tr2 t1 t2 t3,
  P ctx tr1 t1 t2 -> P (ctx ++ tr1) tr2 t2 t3 -> P ctx (tr1 ++ tr2) t1 t3.

Lemma traced_bind {A B} ctx (m : M A) (k : A -> M B) fs :
  P ctx (trace (m fs)) fs (final (m fs)) ->
  (∀ a, outcome (m fs) = Resolved a ->
        P (ctx ++ trace (m fs)) (trace (k a (final (m fs))))
          (final (m fs)) (final (k a (final (m fs))))) ->
  P ctx (trace (bind m k fs)) fs (final (bind m k fs)).
Proof.
  intros Hm Hk. unfold bind. destruct (outcome (m fs)) eqn:E; simpl; [|done..].
  eapply P_comp; [exact Hm|by apply Hk].
Qed.

Hypothesis P_refl : ∀ ctx t, P ctx [] t t.

Lemma traced_for_of {A} ctx (xs : list A) body fs :
  (∀ x ctx' t, x ∈ xs -> ctx `prefix_of` ctx' ->
               P ctx' (trace (body x t)) t (final (body x t))) ->
  P ctx (trace (for_of xs body fs)) fs (final (for_of xs body fs)).
Proof.
  revert ctx fs. induction xs as [|x xs IH]; intros ctx fs Hb; [apply P_refl|].
  rewrite for_of_cons. apply traced_bind.
  - apply Hb; [by left|done].
  - intros _ _. apply IH. intros y ctx' t Hy Hp. apply Hb; [by right|].
    etrans; [|exact Hp]. by apply prefix_app_r.
Qed.

End Traced.

Lemma writes_of_app tr1 tr2 : writes_of (tr1 ++ tr2) = writes_of tr1 ++ writes_of tr2.
Proof. induction tr1 as [|[] tr1 IH]; simpl; by rewrite ?IH. Qed.

Lemma mkdirs_of_app tr1 tr2 : mkdirs_of (tr1 ++ tr2) = mkdirs_of tr1 ++ mkdirs_of tr2.
Proof. induction tr1 as [|[] tr1 IH]; simpl; by rewrite ?IH. Qed.

(** ** The calls to the collaborators *)

Section Ops.
Variable remote : Remote.

Lemma invoke_run cl n s fs :
  invoke remote cl n s fs = mkRun (actions_invoke remote cl n s) fs [EInvoke n s].
Proof. unfold invoke, bind, emit, await; simpl. by destruct (actions_invoke _ _ _ _). Qed.

Lemma wait_run id cl t fs :
  wait remote id cl t fs = mkRun (waitForActivation remote id cl t) fs [EWait id t].
Proof. unfold wait, bind, emit, await; simpl. by destruct (waitForActivation _ _ _ _). Qed.

Lemma get_run url fs :
  get remote url fs = mkRun (axios_get remote url) fs [EGet url].
Proof. unfold get, bind, emit, await; simpl. by destruct (axios_get _ _). Qed.

Lemma new_Zip_run data fs :
  new_Zip remote data fs = mkRun (Zip_getEntries remote data) fs [ENewZip data].
Proof. unfold new_Zip, bind, emit, await; simpl. by destruct (Zip_getEntries _ _). Qed.

Lemma new_WritableStream_run hwm fs :
  new_WritableStream hwm fs = mkRun (Resolved (mkWritableStream hwm [])) fs [ENewSink hwm].
Proof. reflexivity. Qed.

Lemma pipe_run input out fs :
  pipe remote input out fs =
    mkRun (match input with
           | StreamEnds chunks =>
               if sink_finishes remote (highWaterMark out) chunks
               then Resolved (mkWritableStream (highWaterMark out)
                                               (toBuffer out ++ concat chunks))
               else Pending
           | StreamErrors _ _ => Pending
           end) fs [EPipe].
Proof.
  destruct input as [chunks|rcv e]; [|done].
  unfold pipe, bind, emit. simpl. by destruct (sink_finishes _ _ _).
Qed.

Lemma entry_getData_run e fs :
  entry_getData e fs =
    mkRun (match getData_error e with
           | Some err => Rejected err
           | None => Resolved (getData e)
           end) fs [].
Proof. unfold entry_getData. by destruct (getData_error e). Qed.

Lemma bind_entry_getData {B} e (k : Buffer -> M B) fs :
  bind (entry_getData e) k fs =
    match getData_error e with
    | Some err => mkRun (Rejected err) fs []
    | None => k (getData e) fs
    end.
Proof.
  unfold entry_getData, bind. destruct (getData_error e); [done|].
  simpl. by destruct (k (getData e) fs).
Qed.

End Ops.

(** ** The file system *)

Section FsFacts.

Lemma elem_of_ancestors_from base k x :
  x ∈ Fs.ancestors_from base k ↔ ∃ l, l ≠ [] ∧ l `prefix_of` k ∧ x = base ++ l.
Proof.
  revert base. induction k as [|s k IH]; intros base; simpl.
  - split.
    + intros H. by apply elem_of_nil in H.
    + intros (l & Hne & Hp & _). apply prefix_nil_inv in Hp. done.
  - rewrite elem_of_cons, IH. split.
    + intros [->|(l & Hne & Hp & ->)].
      * exists [s]. split; [done|]. split; [|done]. by apply prefix_cons, prefix_nil.
      * exists (s :: l). split; [done|]. split; [by apply prefix_cons|].
        by rewrite <- app_assoc.
    + intros (l & Hne & Hp & ->). destruct l as [|s' l]; [done|].
      apply prefix_cons_inv_1 in Hp as Hs. subst s'.
      apply prefix_cons_inv_2 in Hp.
      destruct l as [|s2 l].
      * by left.
      * right. exists (s2 :: l). split; [done|]. split; [done|].
        by rewrite <- app_assoc.
Qed.

Lemma elem_of_prefixes k x :
  x ∈ Fs.prefixes k ↔ x ≠ [] ∧ x `prefix_of` k.
Proof.
  unfold Fs.prefixes. rewrite elem_of_ancestors_from. split.
  - intros (l & Hne & Hp & ->). done.
  - intros [Hne Hp]. by exists x.
Qed.

Lemma lookup_mkdirp (ks : list (list string)) (t : tree) (k : list string) :
  Fs.mkdirp ks t !! k = if decide (k ∈ ks) then Some Dir else t !! k.
Proof.
  induction ks as [|k0 ks IH]; simpl.
  - destruct (decide (k ∈ [])) as [H|H]; [by apply elem_of_nil in H|done].
  - rewrite lookup_insert. destruct (decide (k0 = k)) as [E|E].
    + subst. rewrite decide_True; [done|by left].
    + rewrite IH. destruct (decide (k ∈ ks)) as [H1|H1];
        destruct (decide (k ∈ k0 :: ks)) as [H2|H2]; try done.
      * exfalso. apply H2. by right.
      * apply elem_of_cons in H2 as [?|?]; done.
Qed.
End FsFacts.

(** ** One iteration of the extraction loop *)

Section StoreFacts.
Variable proc : Process.

Abbreviation key := (Fs.key (cwd proc)).

Lemma lookup_key_insert (t : tree) (k k0 : list string) (n : node) :
  k ≠ [] ->
  Fs.lookup_key (<[k := n]> t) k0 = if decide (k = k0) then Some n else Fs.lookup_key t k0.
Proof.
  intros Hk. destruct k0 as [|s k0]; simpl.
  - by rewrite decide_False.
  - by rewrite lookup_insert.
Qed.

Lemma lookup_key_mkdirp (t : tree) (K k0 : list string) :
  Fs.lookup_key (Fs.mkdirp (Fs.prefixes K) t) k0 =
    if decide (k0 ∈ Fs.prefixes K) then Some Dir else Fs.lookup_key t k0.
Proof.
  destruct k0 as [|s k0]; simpl.
  - destruct (decide _) as [H|H]; [|done]. apply elem_of_prefixes in H as [? _]. done.
  - apply lookup_mkdirp.
Qed.

Lemma is_dir_exists_path (t : tree) (p : string) :
  Fs.is_dir t (key p) = true -> Fs.exists_path (cwd proc) t p = true.
Proof.
  unfold Fs.exists_path, Fs.is_dir. intros H.
  destruct (Fs.lookup_key t (key p)) as [[|]|] eqn:E; try done.
  rewrite orb_true_r, andb_true_r. apply bool_decide_eq_true. by eauto.
Qed.

Lemma existsb_is_file_false (t : tree) (ks : list (list string)) (k : list string) :
  existsb (Fs.is_file t) ks = false -> k ∈ ks -> Fs.is_file t k = false.
Proof.
  intros H Hk. destruct (Fs.is_file t k) eqn:E; [|done].
  assert (existsb (Fs.is_file t) ks = true); [|congruence].
  apply existsb_exists. exists k. split; [|done]. by apply list_elem_of_In.
Qed.

Lemma store_resolved cache e t :
  outcome (store proc cache e t) = Resolved tt ->
  let tgt := target cache e in
  let parent := Path.dirname tgt in
  ∃ t1 mk m,
    getData_error e = None ∧
    (t1 = t ∧ mk = []
     ∨ t1 = Fs.mkdirp (Fs.prefixes (key parent)) t ∧ mk = [EMkdir parent true]
       ∧ existsb (Fs.is_file t) (Fs.prefixes (key parent)) = false) ∧
    Fs.is_dir t1 (removelast (key tgt)) = true ∧
    (Fs.lookup_key t1 (key tgt) = None
     ∧ m = Fs.created_mode (umask proc) (JS.ushr (attr e) 16)
     ∨ ∃ d, Fs.lookup_key t1 (key tgt) = Some (File d m)) ∧
    final (store proc cache e t) = <[key tgt := File (getData e) m]> t1 ∧
    trace (store proc cache e t) =
      [EExists parent] ++ mk ++ [EWrite tgt (getData e) (JS.ushr (attr e) 16)].
Proof.
  unfold store. fold (target cache e). intros H; simpl.
  set (tgt := target cache e) in *.
  set (parent := Path.dirname tgt) in *.
  unfold bind, Fs.existsSync, Fs.mkdirSync_recursive, Fs.writeFileSync,
    entry_getData, ret, throw in *.
  simpl in *.
  destruct (Fs.exists_path (cwd proc) t parent) eqn:Hex; simpl in *.
  - destruct (getData_error e) eqn:Hge; [done|]. simpl in *.
    destruct (Path.has_trailing_slash tgt); [done|].
    destruct (Fs.is_dir t (removelast (key tgt))) eqn:Hd; [|done]. simpl in *.
    destruct (Fs.lookup_key t (key tgt)) as [[|d m]|] eqn:Hl; [done| |].
    + exists t, [], m. split_and!; eauto.
    + exists t, [], (Fs.created_mode (umask proc) (JS.ushr (attr e) 16)).
      split_and!; eauto.
  - destruct (existsb (Fs.is_file t) (Fs.prefixes (key parent))) eqn:Hf; [done|].
    simpl in *.
    destruct (getData_error e) eqn:Hge; [done|]. simpl in *.
    destruct (Path.has_trailing_slash tgt); [done|].
    destruct (Fs.is_dir _ (removelast (key tgt))) eqn:Hd; [|done]. simpl in *.
    destruct (Fs.lookup_key _ (key tgt)) as [[|d m]|] eqn:Hl; [done| |].
    + exists (Fs.mkdirp (Fs.prefixes (key parent)) t), [EMkdir parent true], m.
      split_and!; eauto.
    + exists (Fs.mkdirp (Fs.prefixes (key parent)) t), [EMkdir parent true],
        (Fs.created_mode (umask proc) (JS.ushr (attr e) 16)).
      split_and!; eauto.
Qed.

(** What one iteration leaves behind, in terms of what it found. *)
Lemma store_effect cache e t :
  outcome (store proc cache e t) = Resolved tt ->
  let tgt := target cache e in
  let t' := final (store proc cache e t) in
  (∀ k0, Fs.is_file t k0 = true -> Fs.is_file t' k0 = true) ∧
  (∀ k0, Fs.is_dir t k0 = true -> Fs.is_dir t' k0 = true) ∧
  Fs.is_file t' (key tgt) = true ∧
  Fs.is_dir t' (removelast (key tgt)) = true ∧
  (∀ k0 n, t' !! k0 = Some n ->
     is_Some (t !! k0) ∨ k0 `prefix_of` key (Path.dirname tgt) ∨ k0 = key tgt).
Proof.
  intros H tgt t'. subst t'.
  destruct (store_resolved _ _ _ H) as (t1 & mk & m & _ & Ht1 & Hd & Hl & Hfin & _).
  fold tgt in Ht1, Hd, Hl, Hfin. rewrite Hfin. clear Hfin H.
  assert (Hk : key tgt ≠ []).
  { intros E. rewrite E in Hl. simpl in Hl. destruct Hl as [[? _]|[? ?]]; done. }
  assert (Hmono : ∀ k0, (Fs.is_file t k0 = true -> Fs.is_file t1 k0 = true)
                      ∧ (Fs.is_dir t k0 = true -> Fs.is_dir t1 k0 = true)).
  { intros k0. destruct Ht1 as [[-> _]|(-> & _ & Hf)]; [done|].
    unfold Fs.is_file, Fs.is_dir. rewrite lookup_key_mkdirp.
    destruct (decide (k0 ∈ _)) as [Hin|Hin]; [|done].
    pose proof (existsb_is_file_false _ _ _ Hf Hin) as Hnf.
    unfold Fs.is_file in Hnf. by rewrite Hnf. }
  split_and!.
  - intros k0 Hf. apply Hmono in Hf. unfold Fs.is_file in *.
    rewrite lookup_key_insert by done. by destruct (decide _).
  - intros k0 Hf. apply Hmono in Hf. unfold Fs.is_dir in *.
    rewrite lookup_key_insert by done. destruct (decide _) as [<-|]; [|done].
    destruct Hl as [[Hl _]|[d Hl]]; rewrite Hl in Hf; done.
  - unfold Fs.is_file. rewrite lookup_key_insert by done. by rewrite decide_True.
  - unfold Fs.is_dir in *. rewrite lookup_key_insert by done.
    destruct (decide _) as [E|]; [|done].
    rewrite <- E in Hd. destruct Hl as [[Hl _]|[d Hl]]; rewrite Hl in Hd; done.
  - intros k0 n. rewrite lookup_insert. destruct (decide _) as [<-|Hne]; [by auto|].
    intros Hn. destruct Ht1 as [[-> _]|(-> & _ & _)]; [by left; eauto|].
    rewrite lookup_mkdirp in Hn. destruct (decide _) as [Hin|Hin]; [|by left; eauto].
    apply elem_of_prefixes in Hin as [_ Hin]. auto.
Qed.
End StoreFacts.

(** ** The extraction loop *)

Section LoopFacts.
Variable proc : Process.

Abbreviation key := (Fs.key (cwd proc)).

Lemma store_entry_calls cache e t :
  Forall (entry_call cache e) (trace (store proc cache e t)).
Proof.
  unfold store. fold (target cache e).
  apply trace_bind_Forall.
  { apply Forall_cons. split; [by left|done]. }
  intros b t1. apply trace_bind_Forall.
  { destruct b; simpl; [by apply Forall_nil|].
    unfold Fs.mkdirSync_recursive.
    destruct (existsb _ _); (apply Forall_cons; split; [by right; left|done]). }
  intros _ t2. rewrite bind_entry_getData.
  destruct (getData_error e); [by apply Forall_nil|].
  unfold Fs.writeFileSync.
  repeat match goal with |- context [if ?b then _ else _] => destruct b end;
    try destruct (Fs.lookup_key _ _) as [[|? ?]|];
    (apply Forall_cons; split; [by right; right|done]).
Qed.

Lemma loop_entry_calls cache es t :
  Forall (fun ev => ∃ e, e ∈ es ∧ entry_call cache e ev)
         (trace (for_of es (store proc cache) t)).
Proof.
  revert t. induction es as [|e es IH]; intros t.
  - by apply Forall_nil.
  - rewrite for_of_cons. apply trace_bind_Forall.
    + eapply Forall_impl; [apply store_entry_calls|].
      intros ev Hev. exists e. split; [by left|done].
    + intros _ t'. eapply Forall_impl; [apply IH|].
      intros ev (e' & Hin & Hev). exists e'. split; [by right|done].
Qed.

Lemma loop_resolved cache es t :
  outcome (for_of es (store proc cache) t) = Resolved tt ->
  let r := for_of es (store proc cache) t in
  writes_of (trace r) = map (write_of cache) es ∧
  (∀ p rec, (p, rec) ∈ mkdirs_of (trace r) ->
     rec = true ∧ ∃ e, e ∈ es ∧ p = Path.dirname (target cache e)) ∧
  (∀ k0, Fs.is_file t k0 = true -> Fs.is_file (final r) k0 = true) ∧
  (∀ k0, Fs.is_dir t k0 = true -> Fs.is_dir (final r) k0 = true) ∧
  (∀ e, e ∈ es ->
     Fs.is_file (final r) (key (target cache e)) = true ∧
     Fs.is_dir (final r) (removelast (key (target cache e))) = true) ∧
  (∀ k0 n, final r !! k0 = Some n ->
     is_Some (t !! k0) ∨
     ∃ e, e ∈ es ∧ (k0 `prefix_of` key (Path.dirname (target cache e))
                    ∨ k0 = key (target cache e))).
Proof.
  revert t. induction es as [|e es IH]; intros t H r; subst r.
  - simpl. split_and!; try done.
    + intros p rec Hin. by apply elem_of_nil in Hin.
    + intros e Hin. by apply elem_of_nil in Hin.
    + intros k0 n Hn. left. eauto.
  - rewrite for_of_cons in *.
    destruct (bind_outcome_inv _ _ _ _ H) as ([] & He & Hrest).
    rewrite (final_bind _ _ _ _ He), (trace_bind _ _ _ _ He).
    destruct (IH _ Hrest) as (IHw & IHm & IHf & IHd & IHe & IHk).
    destruct (store_effect _ _ _ _ He) as (Sf & Sd & Stf & Std & Sk).
    destruct (store_resolved _ _ _ _ He) as (t1 & mk & m & _ & Ht1 & _ & _ & _ & Htr).
    rewrite Htr. split_and!.
    + rewrite !writes_of_app, IHw. simpl.
      assert (writes_of mk = []) as ->; [|done].
      by destruct Ht1 as [[_ ->]|(_ & -> & _)].
    + intros p rec. rewrite !mkdirs_of_app. simpl. rewrite elem_of_app.
      intros [Hin|Hin].
      * destruct Ht1 as [[_ ->]|(_ & -> & _)]; simpl in Hin.
        { by apply elem_of_nil in Hin. }
        apply list_elem_of_singleton in Hin. injection Hin as -> ->.
        split; [done|]. exists e. split; [by left|done].
      * destruct (IHm _ _ Hin) as [-> (e' & He' & ->)].
        split; [done|]. exists e'. split; [by right|done].
    + auto.
    + auto.
    + intros e' Hin. apply elem_of_cons in Hin as [->|Hin]; [|by auto].
      split; [apply IHf|apply IHd]; done.
    + intros k0 n Hn. destruct (IHk _ _ Hn) as [[n' Hn']|(e' & He' & Hor)].
      * destruct (Sk _ _ Hn') as [?|Hor]; [by left|].
        right. exists e. split; [by left|done].
      * right. exists e'. split; [by right|done].
Qed.
End LoopFacts.

(** ** Resetting the cache entry *)

Section ResetFacts.
Variable proc : Process.

Abbreviation key := (Fs.key (cwd proc)).

Lemma prefix_antisym (k1 k2 : list string) :
  k1 `prefix_of` k2 -> k2 `prefix_of` k1 -> k1 = k2.
Proof.
  intros H1 H2. apply prefix_length_eq; [done|]. by apply prefix_length.
Qed.

Lemma resetAndCreate_resolved p t :
  outcome (resetAndCreate proc p t) = Resolved tt ->
  let t' := final (resetAndCreate proc p t) in
  trace (resetAndCreate proc p t) =
    [EExists p] ++ (if exists_in proc t p then [ERimraf p] else []) ++ [EMkdir p true] ∧
  Fs.is_dir t' (key p) = true ∧
  (exists_in proc t p = true ->
   ∀ k0, key p `prefix_of` k0 -> k0 ≠ key p -> t' !! k0 = None).
Proof.
  unfold resetAndCreate, exists_in, bind, Fs.existsSync, Fs.rimraf_sync,
    Fs.mkdirSync_recursive, ret.
  simpl. destruct (Fs.exists_path (cwd proc) t p) eqn:Hex; simpl.
  - destruct (existsb _ _) eqn:Hf; simpl; [done|]. intros _. split_and!; [done| |].
    + unfold Fs.is_dir. rewrite lookup_key_mkdirp.
      destruct (decide _) as [|Hn]; [done|].
      destruct (key p) as [|s k] eqn:E; [done|]. exfalso. apply Hn.
      by apply elem_of_prefixes.
    + intros _ k0 Hp Hne. rewrite lookup_mkdirp.
      destruct (decide _) as [Hin|Hin].
      * apply elem_of_prefixes in Hin as [_ Hin]. destruct Hne. by apply prefix_antisym.
      * apply map_lookup_filter_None. right. intros x _ Hn. by apply Hn.
  - destruct (existsb _ _) eqn:Hf; simpl; [done|]. intros _. split_and!; [done| |done].
    unfold Fs.is_dir. rewrite lookup_key_mkdirp.
    destruct (decide _) as [|Hn]; [done|].
    destruct (key p) as [|s k] eqn:E; [done|]. exfalso. apply Hn.
    by apply elem_of_prefixes.
Qed.

(** In every outcome: the calls made, and that the promise settles. *)
Lemma resetAndCreate_trace p t :
  (∃ mk, trace (resetAndCreate proc p t) = [EExists p] ++ mk ++ [EMkdir p true]
         ∧ (mk = [] ∨ mk = [ERimraf p]))
  ∧ outcome (resetAndCreate proc p t) ≠ Pending.
Proof.
  unfold resetAndCreate, bind, Fs.existsSync, Fs.rimraf_sync,
    Fs.mkdirSync_recursive, ret.
  simpl. destruct (Fs.exists_path _ _ _); simpl; destruct (existsb _ _); simpl.
  all: split; [|done].
  1,2: exists [ERimraf p]; by auto.
  all: exists []; by auto.
Qed.

End ResetFacts.

(** ** The phases of [fetchSlice] *)

Section Phases.
Variable proc : Process.
Variable remote : Remote.

Abbreviation key := (Fs.key (cwd proc)).

Lemma get_opt_get v k : JS.get_opt v k = JS.get v k.
Proof. by destruct v. Qed.

(** [fetchSlice] is its URL resolution followed by [download_and_unpack]. *)
Lemma fetchSlice_usable sliceName fs id act :
  answers remote (GET_DOWNLOAD_URL proc) sliceName id act ->
  JS.truthy act = true -> usable act = true ->
  let r := download_and_unpack proc remote (download_url act) (cache_of proc sliceName) fs in
  fetchSlice proc remote sliceName fs =
    mkRun (outcome r) (final r)
      ([EInvoke (GET_DOWNLOAD_URL proc) sliceName; EWait id 60] ++ trace r).
Proof.
  intros (c & inv & Hc & Hi & <- & Hw) Ht Hu r. unfold fetchSlice.
  fold (GET_DOWNLOAD_URL proc).
  rewrite (bind_resolved _ _ _ c) by done. simpl.
  rewrite (bind_resolved _ _ _ inv) by (by rewrite invoke_run).
  rewrite invoke_run. simpl.
  rewrite (bind_resolved _ _ _ act) by (by rewrite wait_run).
  rewrite wait_run. simpl. rewrite Ht. simpl.
  unfold usable in Hu. rewrite !get_opt_get.
  apply andb_prop in Hu as [Hu Hu3]. apply andb_prop in Hu as [Hu1 Hu2].
  simpl in *. rewrite Hu1, Hu2, Hu3. simpl.
  assert (E : ∀ m m' : M string, (∀ x, m x = m' x) -> ∀ x,
    mkRun (outcome (m x)) (final (m x))
      (EInvoke (GET_DOWNLOAD_URL proc) sliceName
       :: EWait (activationId inv) 60 :: trace (m x)) =
    mkRun (outcome (m' x)) (final (m' x))
      (EInvoke (GET_DOWNLOAD_URL proc) sliceName
       :: EWait (activationId inv) 60 :: trace (m' x))).
  { intros m m' E x. by rewrite E. }
  apply E. clear. intros fs.
  unfold download_and_unpack, unpack, extract, cache_of.
  apply bind_ext; intros response fs1.
  unfold resetAndCreate. rewrite bind_assoc. apply bind_ext; intros e fs2.
  rewrite bind_assoc. reflexivity.
Qed.

Lemma fetchSlice_timed_out sliceName fs id act :
  answers remote (GET_DOWNLOAD_URL proc) sliceName id act ->
  JS.truthy act = false ->
  fetchSlice proc remote sliceName fs =
    mkRun (Rejected (mkError ("Timed out fetching assets url for '" +:+ sliceName +:+ "'")))
      fs [EInvoke (GET_DOWNLOAD_URL proc) sliceName; EWait id 60].
Proof.
  intros (c & inv & Hc & Hi & <- & Hw) Ht. unfold fetchSlice.
  fold (GET_DOWNLOAD_URL proc).
  rewrite (bind_resolved _ _ _ c) by done. simpl.
  rewrite (bind_resolved _ _ _ inv) by (by rewrite invoke_run).
  rewrite invoke_run. simpl.
  rewrite (bind_resolved _ _ _ act) by (by rewrite wait_run).
  rewrite wait_run. simpl. rewrite Ht. reflexivity.
Qed.

Lemma fetchSlice_unusable sliceName fs id act :
  answers remote (GET_DOWNLOAD_URL proc) sliceName id act ->
  JS.truthy act = true -> usable act = false ->
  fetchSlice proc remote sliceName fs =
    mkRun (Rejected (mkError ("Failed to fetch assets url for '" +:+ sliceName +:+ "'")))
      fs [EInvoke (GET_DOWNLOAD_URL proc) sliceName; EWait id 60].
Proof.
  intros (c & inv & Hc & Hi & <- & Hw) Ht Hu. unfold fetchSlice.
  fold (GET_DOWNLOAD_URL proc).
  rewrite (bind_resolved _ _ _ c) by done. simpl.
  rewrite (bind_resolved _ _ _ inv) by (by rewrite invoke_run).
  rewrite invoke_run. simpl.
  rewrite (bind_resolved _ _ _ act) by (by rewrite wait_run).
  rewrite wait_run. simpl. rewrite Ht. simpl.
  unfold usable in Hu. rewrite !get_opt_get. simpl in Hu.
  rewrite <- !negb_andb, Hu. reflexivity.
Qed.

(** A fetch that returns went through a usable activation. *)
Lemma fetchSlice_resolved_answers sliceName fs p :
  outcome (fetchSlice proc remote sliceName fs) = Resolved p ->
  ∃ id act, answers remote (GET_DOWNLOAD_URL proc) sliceName id act ∧
            JS.truthy act = true ∧ usable act = true.
Proof.
  intros H.
  destruct (getCredentialsFromEnvironment remote) as [c|e|] eqn:Hc.
  2: { unfold fetchSlice in H. rewrite (bind_rejected _ _ _ e) in H; [done|].
       by simpl. }
  2: { unfold fetchSlice in H. rewrite bind_pending in H; [done|]. by simpl. }
  destruct (actions_invoke remote (openwhisk c) (GET_DOWNLOAD_URL proc) sliceName)
    as [inv|e|] eqn:Hi.
  2: { unfold fetchSlice in H. fold (GET_DOWNLOAD_URL proc) in H.
       rewrite (bind_resolved _ _ _ c) in H by done. simpl in H.
       rewrite (bind_rejected _ _ _ e) in H; [done|]. by rewrite invoke_run. }
  2: { unfold fetchSlice in H. fold (GET_DOWNLOAD_URL proc) in H.
       rewrite (bind_resolved _ _ _ c) in H by done. simpl in H.
       rewrite bind_pending in H; [done|]. by rewrite invoke_run. }
  destruct (waitForActivation remote (activationId inv) (openwhisk c) 60)
    as [act|e|] eqn:Hw.
  2: { unfold fetchSlice in H. fold (GET_DOWNLOAD_URL proc) in H.
       rewrite (bind_resolved _ _ _ c) in H by done. simpl in H.
       rewrite (bind_resolved _ _ _ inv) in H by (by rewrite invoke_run).
       rewrite invoke_run in H. simpl in H.
       rewrite (bind_rejected _ _ _ e) in H; [done|]. by rewrite wait_run. }
  2: { unfold fetchSlice in H. fold (GET_DOWNLOAD_URL proc) in H.
       rewrite (bind_resolved _ _ _ c) in H by done. simpl in H.
       rewrite (bind_resolved _ _ _ inv) in H by (by rewrite invoke_run).
       rewrite invoke_run in H. simpl in H.
       rewrite bind_pending in H; [done|]. by rewrite wait_run. }
  assert (Ha : answers remote (GET_DOWNLOAD_URL proc) sliceName (activationId inv) act).
  { exists c, inv. done. }
  exists (activationId inv), act. split; [done|].
  destruct (JS.truthy act) eqn:Ht.
  2: { by rewrite (fetchSlice_timed_out _ _ _ _ Ha Ht) in H. }
  destruct (usable act) eqn:Hu; [done|].
  by rewrite (fetchSlice_unusable _ _ _ _ Ha Ht Hu) in H.
Qed.

Lemma download_and_unpack_resolved url cache fs p :
  outcome (download_and_unpack proc remote url cache fs) = Resolved p ->
  ∃ data es,
    (∃ chunks, axios_get remote url = Resolved (StreamEnds chunks) ∧
               sink_finishes remote (MAX_SLICE_UPLOAD_SIZE proc) chunks = true ∧
               data = concat chunks) ∧
    Zip_getEntries remote data = Resolved es ∧
    p = cache ∧
    let r1 := resetAndCreate proc cache fs in
    let r2 := extract proc es cache (final r1) in
    outcome r1 = Resolved tt ∧ outcome r2 = Resolved tt ∧
    final (download_and_unpack proc remote url cache fs) = final r2 ∧
    trace (download_and_unpack proc remote url cache fs) =
      [EGet url] ++ trace r1
      ++ [ENewSink (MAX_SLICE_UPLOAD_SIZE proc); EPipe; ENewZip data] ++ trace r2.
Proof.
  unfold download_and_unpack. intros H.
  destruct (bind_outcome_inv _ _ _ _ H) as (response & Hg & H1).
  rewrite (final_bind _ _ _ _ Hg), (trace_bind _ _ _ _ Hg). clear H.
  rewrite get_run in *. simpl in *.
  destruct (bind_outcome_inv _ _ _ _ H1) as ([] & Hr & H2).
  rewrite (final_bind _ _ _ _ Hr), (trace_bind _ _ _ _ Hr). clear H1.
  set (t1 := final (resetAndCreate proc cache fs)) in *.
  unfold unpack in *.
  destruct (bind_outcome_inv _ _ _ _ H2) as (d0 & Hn & H3).
  rewrite (final_bind _ _ _ _ Hn), (trace_bind _ _ _ _ Hn). clear H2.
  rewrite new_WritableStream_run in *. simpl in *. injection Hn as <-.
  destruct (bind_outcome_inv _ _ _ _ H3) as (d1 & Hp & H4).
  rewrite (final_bind _ _ _ _ Hp), (trace_bind _ _ _ _ Hp). clear H3.
  rewrite pipe_run in *. simpl in *.
  destruct response as [chunks|rcv e]; [|done].
  destruct (sink_finishes remote (MAX_SLICE_UPLOAD_SIZE proc) chunks) eqn:Hs; [|done].
  injection Hp as <-. simpl in *.
  destruct (bind_outcome_inv _ _ _ _ H4) as (es & Hz & H5).
  rewrite (final_bind _ _ _ _ Hz), (trace_bind _ _ _ _ Hz). clear H4.
  rewrite new_Zip_run in *. simpl in *.
  destruct (bind_outcome_inv _ _ _ _ H5) as ([] & He & H6).
  rewrite (final_bind _ _ _ _ He), (trace_bind _ _ _ _ He). clear H5.
  simpl in *. injection H6 as <-.
  exists (concat chunks), es. split_and!; try done.
  - by exists chunks.
  - by rewrite app_nil_r.
Qed.

Lemma download_and_unpack_get_rejected url cache fs e :
  axios_get remote url = Rejected e ->
  download_and_unpack proc remote url cache fs = mkRun (Rejected e) fs [EGet url].
Proof.
  intros H. unfold download_and_unpack. rewrite (bind_rejected _ _ _ e).
  - by rewrite get_run.
  - by rewrite get_run.
Qed.

Lemma download_and_unpack_stream_error url cache fs rcv e :
  axios_get remote url = Resolved (StreamErrors rcv e) ->
  let r := download_and_unpack proc remote url cache fs in
  (∀ p, outcome r ≠ Resolved p) ∧ writes_of (trace r) = [] ∧
  (∀ d, ENewZip d ∉ trace r).
Proof.
  intros Hg r. subst r. unfold download_and_unpack.
  rewrite (bind_resolved _ _ _ (StreamErrors rcv e)) by (by rewrite get_run).
  rewrite get_run. cbn [outcome final trace].
  destruct (resetAndCreate_trace proc cache fs) as ((mk & Htr & Hmk) & Hnp).
  assert (Hw : writes_of (trace (resetAndCreate proc cache fs)) = []).
  { rewrite Htr. by destruct Hmk as [-> | ->]. }
  assert (Hz : ∀ d, ENewZip d ∉ trace (resetAndCreate proc cache fs)).
  { intros d Hin. rewrite Htr in Hin.
    destruct Hmk as [-> | ->]; cbn [app] in Hin;
      repeat (apply elem_of_cons in Hin as [Hin|Hin]; [done|]);
      by apply elem_of_nil in Hin. }
  destruct (outcome (resetAndCreate proc cache fs)) as [[]|e0|] eqn:Hr; [| |done].
  - rewrite (bind_resolved _ _ _ tt Hr). cbn [outcome final trace].
    unfold unpack.
    rewrite (bind_resolved _ _ _ (mkWritableStream (MAX_SLICE_UPLOAD_SIZE proc) [])) by done.
    rewrite new_WritableStream_run. cbn [outcome final trace].
    rewrite bind_pending by (by rewrite pipe_run).
    rewrite pipe_run. cbn [outcome final trace].
    split_and!; [done| |].
    + rewrite !writes_of_app, Hw. done.
    + intros d Hin. change (ENewZip d ∈ [EGet url] ++ trace (resetAndCreate proc cache fs)
                              ++ [ENewSink (MAX_SLICE_UPLOAD_SIZE proc)] ++ [EPipe]) in Hin.
      rewrite !elem_of_app in Hin. destruct Hin as [Hin|[Hin|[Hin|Hin]]].
      * apply list_elem_of_singleton in Hin. done.
      * by apply (Hz d).
      * apply list_elem_of_singleton in Hin. done.
      * apply list_elem_of_singleton in Hin. done.
  - rewrite (bind_rejected _ _ _ e0 Hr). cbn [outcome final trace].
    split_and!; [done| |].
    + rewrite !writes_of_app, Hw. done.
    + intros d Hin. change (ENewZip d ∈ [EGet url] ++ trace (resetAndCreate proc cache fs)) in Hin.
      rewrite !elem_of_app in Hin. destruct Hin as [Hin|Hin].
      * apply list_elem_of_singleton in Hin. done.
      * by apply (Hz d).
Qed.

(** The whole of a fetch that returns. *)
Lemma fetchSlice_resolved sliceName fs p :
  outcome (fetchSlice proc remote sliceName fs) = Resolved p ->
  ∃ id act data es,
    answers remote (GET_DOWNLOAD_URL proc) sliceName id act ∧
    (∃ chunks, axios_get remote (download_url act) = Resolved (StreamEnds chunks) ∧
               sink_finishes remote (MAX_SLICE_UPLOAD_SIZE proc) chunks = true ∧
               data = concat chunks) ∧
    Zip_getEntries remote data = Resolved es ∧
    p = cache_of proc sliceName ∧
    let r1 := resetAndCreate proc p fs in
    let r2 := extract proc es p (final r1) in
    outcome r1 = Resolved tt ∧ outcome r2 = Resolved tt ∧
    final (fetchSlice proc remote sliceName fs) = final r2 ∧
    trace (fetchSlice proc remote sliceName fs) =
      [EInvoke (GET_DOWNLOAD_URL proc) sliceName; EWait id 60; EGet (download_url act)]
      ++ trace r1
      ++ [ENewSink (MAX_SLICE_UPLOAD_SIZE proc); EPipe; ENewZip data] ++ trace r2.
Proof.
  intros H.
  destruct (fetchSlice_resolved_answers _ _ _ H) as (id & act & Ha & Ht & Hu).
  rewrite (fetchSlice_usable _ _ _ _ Ha Ht Hu) in *. simpl in H.
  destruct (download_and_unpack_resolved _ _ _ _ H)
    as (data & es & Hg & Hz & -> & Hr1 & Hr2 & Hfin & Htr).
  exists id, act, data, es. simpl. rewrite Hfin, Htr. split_and!; done.
Qed.

End Phases.

(** ** The archive read, and properties along the run *)

Section ReadEntries.
Variable remote : Remote.

Lemma read_entry_app_l tr tr' e :
  read_entry remote tr e -> read_entry remote (tr ++ tr') e.
Proof.
  intros (data & es & Hin & H). exists data, es. split; [|done].
  apply elem_of_app. by left.
Qed.

Lemma read_entry_app_r tr tr' e :
  read_entry remote tr' e -> read_entry remote (tr ++ tr') e.
Proof.
  intros (data & es & Hin & H). exists data, es. split; [|done].
  apply elem_of_app. by right.
Qed.

Lemma read_entry_prefix tr tr' e :
  tr `prefix_of` tr' -> read_entry remote tr e -> read_entry remote tr' e.
Proof. intros [more ->]. apply read_entry_app_l. Qed.

End ReadEntries.

(** A property that composes along the run holds of [fetchSlice] when it
    holds of the calls that leave the file system alone, of the deletion
    and the making of the cache entry, and of the storing of each entry of
    the archive read. *)
Section TracedRun.
Variable proc : Process.
Variable remote : Remote.
Variable sliceName : string.
Variable P : list Event -> list Event -> tree -> tree -> Prop.

Hypothesis P_comp : ∀ ctx tr1 tr2 t1 t2 t3,
  P ctx tr1 t1 t2 -> P (ctx ++ tr1) tr2 t2 t3 -> P ctx (tr1 ++ tr2) t1 t3.
Hypothesis P_quiet : ∀ ctx tr t,
  Forall (fun ev => changes_fs ev = false) tr -> P ctx tr t t.
Hypothesis P_store : ∀ ctx e t,
  read_entry remote ctx e ->
  P ctx (trace (store proc (cache_of proc sliceName) e t)) t
    (final (store proc (cache_of proc sliceName) e t)).

Lemma unpack_traced ctx response t :
  P ctx (trace (unpack proc remote response (cache_of proc sliceName) t)) t
    (final (unpack proc remote response (cache_of proc sliceName) t)).
Proof.
  assert (P_refl : ∀ ctx t, P ctx [] t t).
  { intros ctx' t'. by apply P_quiet. }
  unfold unpack.
  apply (traced_bind P P_comp); [apply P_quiet; by repeat constructor|].
  intros d _. rewrite new_WritableStream_run. cbn [final trace].
  apply (traced_bind P P_comp); [rewrite pipe_run; apply P_quiet; by repeat constructor|].
  intros d' _. rewrite pipe_run. cbn [final trace].
  apply (traced_bind P P_comp); [rewrite new_Zip_run; apply P_quiet; by repeat constructor|].
  intros zip Hz. rewrite new_Zip_run in Hz |- *. cbn [outcome final trace] in Hz |- *.
  apply (traced_bind P P_comp); [|intros; by apply P_refl].
  unfold extract. apply (traced_for_of P P_comp P_refl).
  intros e ctx' t' Hin Hp. apply list_elem_of_filter in Hin as [Hd Hin].
  apply P_store. apply (read_entry_prefix _ _ _ _ Hp).
  exists (toBuffer d'), zip. split_and!; [|done..|by destruct (isDirectory e)].
  apply elem_of_app. right. by left.
Qed.

Hypothesis P_rimraf : ∀ ctx t,
  P ctx (trace (Fs.rimraf_sync (cwd proc) (cache_of proc sliceName) t)) t
    (final (Fs.rimraf_sync (cwd proc) (cache_of proc sliceName) t)).
Hypothesis P_mkdir : ∀ ctx t,
  P ctx (trace (Fs.mkdirSync_recursive (cwd proc) (cache_of proc sliceName) t)) t
    (final (Fs.mkdirSync_recursive (cwd proc) (cache_of proc sliceName) t)).

Lemma fetchSlice_traced fs :
  P [] (trace (fetchSlice proc remote sliceName fs)) fs
    (final (fetchSlice proc remote sliceName fs)).
Proof.
  assert (P_refl : ∀ ctx t, P ctx [] t t).
  { intros ctx' t'. by apply P_quiet. }
  unfold fetchSlice. fold (cache_of proc sliceName).
  apply (traced_bind P P_comp); [by apply P_refl|]. intros c _. cbn [await final trace].
  apply (traced_bind P P_comp); [rewrite invoke_run; apply P_quiet; by repeat constructor|].
  intros inv _. rewrite invoke_run. cbn [final trace].
  apply (traced_bind P P_comp); [rewrite wait_run; apply P_quiet; by repeat constructor|].
  intros act _. rewrite wait_run. cbn [final trace].
  destruct (negb (JS.truthy act)); [by apply P_refl|].
  destruct (_ || _); [by apply P_refl|].
  apply (traced_bind P P_comp); [rewrite get_run; apply P_quiet; by repeat constructor|].
  intros response _. rewrite get_run. cbn [final trace].
  apply (traced_bind P P_comp); [apply P_quiet; by repeat constructor|].
  intros b _. unfold Fs.existsSync at 1 2 3. cbn [final trace].
  apply (traced_bind P P_comp).
  { destruct b; [apply P_rimraf|by apply P_refl]. }
  intros _ _. apply (traced_bind P P_comp); [apply P_mkdir|].
  intros _ _. apply unpack_traced.
Qed.

End TracedRun.

(** ** Paths in normal form *)

Section PathFacts.

Lemma split_nonempty s : Path.split s ≠ [].
Proof.
  destruct s as [|c s]; simpl; [done|].
  destruct (Ascii.eqb c "/"); [done|]. by destruct (Path.split s).
Qed.

Lemma split_app_slash a b :
  Path.split (a +:+ "/" +:+ b) = Path.split a ++ Path.split b.
Proof.
  induction a as [|c a IH]; simpl; [done|].
  destruct (Ascii.eqb c "/"); [by rewrite IH|].
  rewrite IH. pose proof (split_nonempty a). by destruct (Path.split a).
Qed.

Lemma split_no_slash s : no_slash s = true -> Path.split s = [s].
Proof.
  induction s as [|c s IH]; simpl; [done|].
  intros [Hc Hs]%andb_prop. apply negb_true_iff in Hc. rewrite Hc.
  by rewrite IH.
Qed.

Lemma unsplit_cons s s' segs :
  Path.unsplit (s :: s' :: segs) = s +:+ "/" +:+ Path.unsplit (s' :: segs).
Proof. reflexivity. Qed.

Lemma split_unsplit segs :
  segs ≠ [] -> Forall (fun s => plain s = true) segs ->
  Path.split (Path.unsplit segs) = segs.
Proof.
  intros Hne H. induction H as [|s segs Hs H IH]; [done|].
  assert (Hns : no_slash s = true).
  { unfold plain in Hs. by repeat (apply andb_prop in Hs as [Hs _]). }
  destruct segs as [|s' segs]; [by apply split_no_slash|].
  rewrite unsplit_cons, split_app_slash, IH by done.
  by rewrite split_no_slash.
Qed.

Lemma norm_step_plain allow res s :
  plain s = true -> Path.norm_step allow res s = s :: res.
Proof.
  unfold plain, Path.norm_step. intros H.
  apply andb_prop in H as [H H3]. apply andb_prop in H as [H H2].
  apply andb_prop in H as [_ H1].
  apply negb_true_iff in H1, H2, H3. by rewrite H1, H2, H3.
Qed.

Lemma fold_norm_plain allow segs res :
  Forall (fun s => plain s = true) segs ->
  fold_left (Path.norm_step allow) segs res = rev segs ++ res.
Proof.
  intros H. revert res. induction H as [|s segs Hs H IH]; intros res; simpl; [done|].
  rewrite norm_step_plain by done. rewrite IH. by rewrite <- app_assoc.
Qed.

Lemma last_char_app a b :
  b ≠ "" -> Path.last_char (a +:+ b) = Path.last_char b.
Proof.
  intros Hb. induction a as [|c a IH]; simpl; [done|].
  rewrite IH. destruct (a +:+ b) eqn:E; [|done].
  destruct a; simpl in E; [done|discriminate].
Qed.

Lemma last_char_no_slash s :
  no_slash s = true -> s ≠ "" ->
  ∃ c, Path.last_char s = Some c ∧ Ascii.eqb c "/" = false.
Proof.
  induction s as [|c s IH]; [done|]. simpl.
  intros [Hc Hs]%andb_prop _. apply negb_true_iff in Hc.
  destruct s as [|c' s]; [by eauto|]. apply IH; done.
Qed.

Lemma plain_nonempty s : plain s = true -> s ≠ "".
Proof.
  unfold plain. intros H ->. simpl in H. done.
Qed.

Lemma plain_no_slash s : plain s = true -> no_slash s = true.
Proof. unfold plain. intros H. by repeat (apply andb_prop in H as [H _]). Qed.

Lemma unsplit_nonempty segs :
  segs ≠ [] -> Forall (fun s => plain s = true) segs -> Path.unsplit segs ≠ "".
Proof.
  intros Hne H. destruct H as [|s segs Hs H]; [done|].
  apply plain_nonempty in Hs. destruct segs; simpl; [done|].
  destruct s; [done|]. done.
Qed.

Lemma trailing_unsplit a segs :
  segs ≠ [] -> Forall (fun s => plain s = true) segs ->
  Path.has_trailing_slash (a +:+ Path.unsplit segs) = false.
Proof.
  intros Hne H. unfold Path.has_trailing_slash.
  rewrite last_char_app by (by apply unsplit_nonempty).
  clear a. induction H as [|s segs Hs H IH]; [done|].
  destruct segs as [|s' segs].
  - change (Path.unsplit [s]) with s.
    destruct (last_char_no_slash s) as (c & -> & ->);
      [by apply plain_no_slash|by apply plain_nonempty|done].
  - rewrite unsplit_cons.
    change (s +:+ "/" +:+ Path.unsplit (s' :: segs))
      with (s +:+ ("/" +:+ Path.unsplit (s' :: segs))).
    rewrite last_char_app by done.
    change ("/" +:+ Path.unsplit (s' :: segs)) with (String "/" (Path.unsplit (s' :: segs))).
    assert (Hn : Path.unsplit (s' :: segs) ≠ "") by (by apply unsplit_nonempty).
    specialize (IH ltac:(done)).
    simpl. destruct (Path.unsplit (s' :: segs)) eqn:E; [done|]. exact IH.
Qed.

Lemma normalizeString_abs_plain segs :
  Forall (fun s => plain s = true) segs -> segs ≠ [] ->
  Path.normalizeString ("/" +:+ Path.unsplit segs) false = segs.
Proof.
  intros H Hne. unfold Path.normalizeString.
  change ("/" +:+ Path.unsplit segs) with ("" +:+ "/" +:+ Path.unsplit segs).
  rewrite split_app_slash, split_unsplit by done.
  change (Path.split "") with [""]. simpl.
  change (Path.norm_step false [] "") with (@nil string).
  rewrite fold_norm_plain by done. rewrite app_nil_r. apply rev_involutive.
Qed.

Lemma normalize_abs_plain segs :
  Forall (fun s => plain s = true) segs -> segs ≠ [] ->
  Path.normalize ("/" +:+ Path.unsplit segs) = "/" +:+ Path.unsplit segs.
Proof.
  intros H Hne. unfold Path.normalize.
  rewrite trailing_unsplit by done.
  change (Path.isAbsolute ("/" +:+ Path.unsplit segs)) with true.
  change (String.eqb ("/" +:+ Path.unsplit segs) "") with false.
  cbv iota. change (negb true) with false.
  rewrite normalizeString_abs_plain by done.
  destruct (String.eqb (Path.unsplit segs) "") eqn:E; [|done].
  apply String.eqb_eq in E. by apply unsplit_nonempty in E.
Qed.

Lemma resolve_abs_plain cwd segs :
  Forall (fun s => plain s = true) segs -> segs ≠ [] ->
  Path.resolve_segs cwd ("/" +:+ Path.unsplit segs) = segs.
Proof.
  intros H Hne. unfold Path.resolve_segs.
  change (Path.isAbsolute ("/" +:+ Path.unsplit segs)) with true.
  by apply normalizeString_abs_plain.
Qed.

Lemma strip_common_app a b : Path.strip_common a (a ++ b) = ([], b).
Proof.
  induction a as [|x a IH]; simpl; [by destruct b|].
  by rewrite String.eqb_refl.
Qed.

Lemma string_app_assoc (a b c : string) : (a +:+ b) +:+ c = a +:+ (b +:+ c).
Proof.
  induction a as [|x a IH]; [done|].
  change (String x ((a +:+ b) +:+ c) = String x (a +:+ b +:+ c)). by rewrite IH.
Qed.

Lemma unsplit_app pre segs :
  pre ≠ [] -> segs ≠ [] ->
  Path.unsplit (pre ++ segs) = Path.unsplit pre +:+ "/" +:+ Path.unsplit segs.
Proof.
  intros Hp Hs. induction pre as [|p pre IH]; [done|].
  destruct pre as [|p' pre].
  - destruct segs as [|s segs]; [done|]. reflexivity.
  - change ((p :: p' :: pre) ++ segs) with (p :: (p' :: pre) ++ segs).
    change ((p' :: pre) ++ segs) with (p' :: pre ++ segs) at 1.
    rewrite !unsplit_cons.
    change (p' :: pre ++ segs) with ((p' :: pre) ++ segs).
    rewrite IH by done.
    by rewrite !string_app_assoc.
Qed.

Lemma join_two_plain pre segs :
  Forall (fun s => plain s = true) pre -> pre ≠ [] ->
  Forall (fun s => plain s = true) segs -> segs ≠ [] ->
  Path.join ["/" +:+ Path.unsplit pre; Path.unsplit segs] =
    "/" +:+ Path.unsplit (pre ++ segs).
Proof.
  intros Hp Hpne Hs Hsne. unfold Path.join.
  assert (E : filter (fun a => negb (String.eqb a "")) ["/" +:+ Path.unsplit pre; Path.unsplit segs]
              = ["/" +:+ Path.unsplit pre; Path.unsplit segs]).
  { rewrite filter_cons_True by done. f_equal.
    rewrite filter_cons_True; [done|].
    destruct (String.eqb (Path.unsplit segs) "") eqn:E; [|done].
    apply String.eqb_eq in E. by apply unsplit_nonempty in E. }
  rewrite E.
  assert (E2 : Path.unsplit ["/" +:+ Path.unsplit pre; Path.unsplit segs]
               = "/" +:+ Path.unsplit (pre ++ segs)).
  { rewrite unsplit_app by done. reflexivity. }
  rewrite E2. apply normalize_abs_plain.
  - by apply Forall_app.
  - by destruct pre.
Qed.

Lemma relative_below cwd pre segs :
  Forall (fun s => plain s = true) pre -> pre ≠ [] ->
  Forall (fun s => plain s = true) segs -> segs ≠ [] ->
  Path.relative cwd ("/" +:+ Path.unsplit pre) ("/" +:+ Path.unsplit (pre ++ segs)) =
    Path.unsplit segs.
Proof.
  intros Hp Hpne Hs Hsne. unfold Path.relative.
  assert (Hall : Forall (fun s => plain s = true) (pre ++ segs)) by (by apply Forall_app).
  assert (Hne : pre ++ segs ≠ []) by (by destruct pre).
  rewrite !resolve_abs_plain by done.
  rewrite strip_common_app.
  destruct (String.eqb _ _) eqn:E; [|done].
  apply String.eqb_eq in E.
  assert (Path.split ("/" +:+ Path.unsplit pre) = Path.split ("/" +:+ Path.unsplit (pre ++ segs))) as E2
    by (by rewrite E).
  change ("/" +:+ Path.unsplit pre) with ("" +:+ "/" +:+ Path.unsplit pre) in E2.
  change ("/" +:+ Path.unsplit (pre ++ segs)) with ("" +:+ "/" +:+ Path.unsplit (pre ++ segs)) in E2.
  rewrite !split_app_slash, !split_unsplit in E2 by done.
  apply app_inv_head in E2.
  rewrite <- (app_nil_r pre) in E2 at 1. apply app_inv_head in E2. by subst.
Qed.
Lemma cacheArea_posix proc :
  platform proc ≠ "win32" -> cacheArea proc = "/tmp/slices".
Proof.
  intros H. unfold cacheArea, TEMP. apply String.eqb_neq in H. rewrite H.
  by vm_compute.
Qed.

End PathFacts.

(** ** parseInt on decimal numerals *)

Lemma digit_cases d :
  0 <= d <= 9 ->
  d = 0 ∨ d = 1 ∨ d = 2 ∨ d = 3 ∨ d = 4 ∨ d = 5 ∨ d = 6 ∨ d = 7 ∨ d = 8 ∨ d = 9.
Proof. lia. Qed.

Lemma digit_value_char d : 0 <= d <= 9 -> JS.digit_value (digit_char d) = Some d.
Proof.
  intros H. destruct (digit_cases d H) as [->|[->|[->|[->|[->|[->|[->|[->|[->| ->]]]]]]]]];
    reflexivity.
Qed.

Lemma parse_digits_numeral ds acc :
  Forall (fun d => 0 <= d <= 9) ds ->
  JS.parse_digits 10 (Some acc) (numeral ds) =
    Some (fold_left (fun acc d => 10 * acc + d) ds acc).
Proof.
  intros H. revert acc. induction H as [|d ds Hd H IH]; intros acc; [done|].
  change (numeral (d :: ds)) with (String (digit_char d) (numeral ds)).
  cbn [JS.parse_digits]. rewrite digit_value_char by done.
  assert ((d <? 10) = true) as -> by (apply Z.ltb_lt; lia).
  apply IH.
Qed.

(** What starts with a character of the ASCII range that is no white
    space is not trimmed. *)
Lemma trim_start_ascii c s :
  JS.is_space c = false -> (nat_of_ascii c < 128)%nat ->
  JS.trim_start (String c s) = String c s.
Proof.
  intros Hs Hc.
  assert (Hk : ∀ k, (128 <= k)%nat -> (nat_of_ascii c =? k)%nat = false).
  { intros k Hk. apply Nat.eqb_neq. lia. }
  cbn [JS.trim_start]. rewrite Hs. destruct s as [|c2 s2]; [done|].
  assert (JS.is_space2 c c2 = false) as ->.
  { unfold JS.is_space2. by rewrite Hk by lia. }
  destruct s2 as [|c3 s3]; [done|].
  assert (JS.is_space3 c c2 c3 = false) as ->; [|done].
  unfold JS.is_space3. by rewrite !Hk by lia.
Qed.

Lemma nonzero_digit_cases d :
  1 <= d <= 9 ->
  d = 1 ∨ d = 2 ∨ d = 3 ∨ d = 4 ∨ d = 5 ∨ d = 6 ∨ d = 7 ∨ d = 8 ∨ d = 9.
Proof. lia. Qed.

(** A text that starts with a digit other than zero is read in radix 10,
    with no sign. *)
Lemma parseInt_string_digit d rest :
  1 <= d <= 9 ->
  JS.parseInt_string (String (digit_char d) rest) =
    match JS.parse_digits 10 None (String (digit_char d) rest) with
    | Some m => JS.to_double (1 * m)
    | None => JS.NaN
    end.
Proof.
  intros Hd. unfold JS.parseInt_string.
  destruct (nonzero_digit_cases d Hd) as [->|[->|[->|[->|[->|[->|[->|[->| ->]]]]]]]];
    (rewrite trim_start_ascii; [reflexivity|reflexivity|vm_compute; lia]).
Qed.

(** So is one that starts with a zero that a digit follows, or nothing. *)
Lemma parseInt_string_zero ds :
  Forall (fun d => 0 <= d <= 9) ds ->
  JS.parseInt_string (String (digit_char 0) (numeral ds)) =
    match JS.parse_digits 10 None (String (digit_char 0) (numeral ds)) with
    | Some m => JS.to_double (1 * m)
    | None => JS.NaN
    end.
Proof.
  intros H. unfold JS.parseInt_string.
  rewrite trim_start_ascii; [|reflexivity|vm_compute; lia].
  destruct H as [|d2 ds Hd2 H]; [reflexivity|].
  destruct (digit_cases d2 Hd2) as [->|[->|[->|[->|[->|[->|[->|[->|[->| ->]]]]]]]]];
    reflexivity.
Qed.

Lemma parse_digits_first d rest :
  0 <= d <= 9 ->
  JS.parse_digits 10 None (String (digit_char d) rest) =
    JS.parse_digits 10 (Some d) rest.
Proof.
  intros Hd. cbn [JS.parse_digits]. rewrite digit_value_char by done.
  assert ((d <? 10) = true) as -> by (apply Z.ltb_lt; lia).
  simpl. by rewrite Z.add_0_l.
Qed.

Lemma parseInt_numeral d ds :
  Forall (fun d => 0 <= d <= 9) (d :: ds) ->
  JS.parseInt_string (numeral (d :: ds)) = JS.to_double (numeral_value (d :: ds)).
Proof.
  intros H. apply Forall_cons in H as [Hd H].
  change (numeral (d :: ds)) with (String (digit_char d) (numeral ds)).
  assert (Hval : JS.parse_digits 10 None (String (digit_char d) (numeral ds))
                 = Some (numeral_value (d :: ds))).
  { rewrite parse_digits_first, parse_digits_numeral by done.
    unfold numeral_value. cbn [fold_left]. by rewrite Z.mul_0_r, Z.add_0_l. }
  destruct (decide (d = 0)) as [->|Hnz].
  - rewrite parseInt_string_zero, Hval by done. by rewrite Z.mul_1_l.
  - rewrite parseInt_string_digit, Hval by lia. by rewrite Z.mul_1_l.
Qed.

Lemma numeral_value_from ds acc :
  Forall (fun d => 0 <= d <= 9) ds -> 0 <= acc ->
  acc <= fold_left (fun acc d => 10 * acc + d) ds acc.
Proof.
  intros H. revert acc. induction H as [|d ds Hd H IH]; intros acc Hacc; [done|].
  cbn [fold_left]. etrans; [|apply IH]; lia.
Qed.

Lemma numeral_value_nonneg ds :
  Forall (fun d => 0 <= d <= 9) ds -> 0 <= numeral_value ds.
Proof. intros H. by apply numeral_value_from. Qed.

(** ** Rounding to a double *)

Lemma to_double_small n : Z.abs n < 2 ^ 53 -> JS.to_double n = JS.Int n.
Proof.
  intros H. unfold JS.to_double. apply Z.ltb_lt in H. by rewrite H.
Qed.

Lemma to_double_not_NaN n : JS.to_double n ≠ JS.NaN.
Proof.
  unfold JS.to_double. destruct (_ <? _); [done|]. cbv zeta.
  by destruct (_ <=? _).
Qed.

(** Only zero is rounded to zero. *)
Lemma to_double_zero n : JS.to_double n = JS.Int 0 -> n = 0.
Proof.
  unfold JS.to_double. destruct (Z.abs n <? 2 ^ 53) eqn:Hs; [by intros [= ->]|].
  apply Z.ltb_ge in Hs. cbv zeta.
  destruct (_ <=? _); [done|]. intros [= H]. exfalso.
  set (a := Z.abs n) in *. set (e := Z.log2 a - 52) in *.
  assert (Ha : 0 < a) by lia.
  pose proof (Z.log2_spec a Ha) as [Hlo _].
  assert (He : 1 <= e).
  { subst e. assert (53 <= Z.log2 a); [|lia]. apply Z.log2_le_pow2; lia. }
  assert (Hq : 2 ^ 52 <= Z.shiftr a e).
  { rewrite Z.shiftr_div_pow2 by lia. apply Z.div_le_lower_bound; [lia|].
    rewrite <- Z.pow_add_r by lia. by replace (e + 52) with (Z.log2 a) by lia. }
  assert (Hpow : 0 < 2 ^ e) by (apply Z.pow_pos_nonneg; lia).
  assert (Hv : 0 < (if (2 ^ (e - 1) <? a mod 2 ^ e)
                       || (a mod 2 ^ e =? 2 ^ (e - 1)) && Z.odd (Z.shiftr a e)
                    then Z.shiftr a e + 1 else Z.shiftr a e) * 2 ^ e).
  { apply Z.mul_pos_pos; [|done]. destruct (_ || _); lia. }
  assert (Hn : Z.sgn n ≠ 0) by (subst a; lia).
  apply Z.mul_eq_0 in H as [?|?]; lia.
Qed.

(** A number that is neither zero nor NaN is kept by [||]. *)
Lemma num_or_to_double n b : n ≠ 0 -> JS.num_or (JS.to_double n) b = JS.to_double n.
Proof.
  intros Hn. destruct (JS.to_double n) as [|neg|m] eqn:E; [|done|].
  - by apply to_double_not_NaN in E.
  - simpl. destruct (m =? 0) eqn:Hm; [|done].
    apply Z.eqb_eq in Hm. subst m. by apply to_double_zero in E.
Qed.

(** ** The unsigned shift *)

Lemma ushr_upper_half a : 0 <= a < 2 ^ 32 -> JS.ushr a 16 = a / 2 ^ 16.
Proof.
  intros H. unfold JS.ushr. change (16 mod 32) with 16.
  rewrite Z.shiftr_div_pow2 by lia. by rewrite Z.mod_small.
Qed.

Lemma ushr_range a : 0 <= JS.ushr a 16 <= 65535.
Proof.
  unfold JS.ushr. change (16 mod 32) with 16. rewrite Z.shiftr_div_pow2 by lia.
  pose proof (Z.mod_pos_bound a (2 ^ 32) ltac:(lia)) as H.
  split.
  - apply Z.div_pos; lia.
  - assert (a mod 2 ^ 32 / 2 ^ 16 < 2 ^ 16); [|lia].
    apply Z.div_lt_upper_bound; lia.
Qed.

Lemma ushr_sign_bit a :
  2 ^ 31 <= a < 2 ^ 32 ->
  32768 <= JS.ushr a 16 ∧ sshr a 16 < 0 ∧ JS.ushr a 16 = sshr a 16 + 65536.
Proof.
  intros H. rewrite ushr_upper_half by lia. unfold sshr.
  change (16 mod 32) with 16. rewrite Z.shiftr_div_pow2 by lia.
  assert (E : (a + 2 ^ 31) mod 2 ^ 32 = a - 2 ^ 31).
  { rewrite <- (Z.mod_small (a - 2 ^ 31) (2 ^ 32)) by lia.
    replace (a + 2 ^ 31) with (a - 2 ^ 31 + 1 * 2 ^ 32) by lia.
    by rewrite Z.mod_add. }
  rewrite E. replace (a - 2 ^ 31 - 2 ^ 31) with (a + (-65536) * 2 ^ 16) by lia.
  rewrite Z.div_add by lia.
  assert (32768 <= a / 2 ^ 16) by (apply Z.div_le_lower_bound; lia).
  assert (a / 2 ^ 16 < 65536) by (apply Z.div_lt_upper_bound; lia).
  lia.
Qed.


(** * The behaviour of [fetchSlice] and [deleteSlice] *)

Section Claims.
Variable proc : Process.
Variable remote : Remote.

Abbreviation key := (Fs.key (cwd proc)).

(** ** Extraction *)

(** C1. A fetch that returns has parsed one archive buffer.  Every call it
    makes after that belongs to an entry that is not directory-flagged: a
    check for, or the recursive making of, the parent of the entry's
    target, or the write of the target; the target is the join of the cache
    directory and the entry's name.  The writes of the whole fetch are
    these entries in order, each with the entry's data and with mode
    [attr >>> 16], and afterwards every target is a file inside a
    directory. *)
Theorem fetchSlice_stores_file_entries sliceName fs p :
  outcome (fetchSlice proc remote sliceName fs) = Resolved p ->
  let r := fetchSlice proc remote sliceName fs in
  ∃ data es before calls,
    Zip_getEntries remote data = Resolved es ∧
    p = Path.join [cacheArea proc; sliceName] ∧
    trace r = before ++ [ENewZip data] ++ calls ∧
    let files := filter (fun e => negb (isDirectory e)) es in
    Forall (fun ev => ∃ e, e ∈ files ∧ entry_call p e ev) calls ∧
    writes_of (trace r) =
      map (fun e => (Path.join [p; entryName e], getData e, JS.ushr (attr e) 16)) files ∧
    (∀ e, e ∈ files ->
       Fs.is_file (final r) (key (Path.join [p; entryName e])) = true ∧
       Fs.is_dir (final r) (removelast (key (Path.join [p; entryName e]))) = true).
Proof.
  intros H r. subst r.
  destruct (fetchSlice_resolved _ _ _ _ _ H)
    as (id & act & data & es & Ha & Hg & Hz & Hp & Hr1 & Hr2 & Hfin & Htr).
  destruct (resetAndCreate_resolved _ _ _ Hr1) as (Htr1 & _).
  destruct (loop_resolved _ _ _ _ Hr2) as (Hw & _ & _ & _ & He & _).
  fold (extract proc es p (final (resetAndCreate proc p fs))) in Hw, He.
  exists data, es,
    ([EInvoke (GET_DOWNLOAD_URL proc) sliceName; EWait id 60; EGet (download_url act)]
     ++ trace (resetAndCreate proc p fs)
     ++ [ENewSink (MAX_SLICE_UPLOAD_SIZE proc); EPipe]),
    (trace (extract proc es p (final (resetAndCreate proc p fs)))).
  rewrite Hfin. split; [done|]. split; [done|]. split.
  { rewrite Htr. rewrite <- !app_assoc. reflexivity. }
  intros files. subst files. split_and!; [| |done].
  - apply loop_entry_calls.
  - rewrite Htr, !writes_of_app, Hw, Htr1. simpl.
    by destruct (exists_in _ _ _).
Qed.

(** C3. Before it writes anything a fetch asks whether the cache directory
    exists, deletes it recursively if it does, and makes it with its
    missing parents.  The second of two successive fetches of a name finds
    the directory and deletes it, and what is below the cache directory
    afterwards stems from non-directory entries of the second archive
    alone: each path there is the target of such an entry or leads to the
    target or its parent. *)
Theorem refetch_replaces_cache_entry (remote2 : Remote) sliceName fs p1 p2 :
  outcome (fetchSlice proc remote sliceName fs) = Resolved p1 ->
  outcome (fetchSlice proc remote2 sliceName
             (final (fetchSlice proc remote sliceName fs))) = Resolved p2 ->
  let r1 := fetchSlice proc remote sliceName fs in
  let r2 := fetchSlice proc remote2 sliceName (final r1) in
  let cache := Path.join [cacheArea proc; sliceName] in
  (∃ pre post,
     trace r1 = pre ++ [EExists cache]
                ++ (if Fs.exists_path (cwd proc) fs cache then [ERimraf cache] else [])
                ++ [EMkdir cache true] ++ post ∧
     writes_of pre = []) ∧
  ∃ data es pre post,
    ENewZip data ∈ trace r2 ∧ Zip_getEntries remote2 data = Resolved es ∧
    trace r2 = pre ++ [EExists cache; ERimraf cache; EMkdir cache true] ++ post ∧
    writes_of pre = [] ∧
    ∀ k n, final r2 !! k = Some n -> key cache `prefix_of` k -> k ≠ key cache ->
      ∃ e, e ∈ es ∧ isDirectory e = false ∧
           (k `prefix_of` key (Path.dirname (Path.join [cache; entryName e]))
            ∨ k = key (Path.join [cache; entryName e])).
Proof.
  intros H1 H2 r1 r2 cache. subst r1 r2.
  destruct (fetchSlice_resolved _ _ _ _ _ H1)
    as (id1 & act1 & data1 & es1 & _ & _ & _ & Hp1 & Hr1 & Hx1 & Hfin1 & Htr0).
  fold (cache_of proc sliceName) in cache. subst p1.
  fold cache in Hr1, Hx1, Hfin1, Htr0.
  split.
  { destruct (resetAndCreate_resolved _ _ _ Hr1) as (Htr1 & _).
    exists [EInvoke (GET_DOWNLOAD_URL proc) sliceName; EWait id1 60;
            EGet (download_url act1)],
      ([ENewSink (MAX_SLICE_UPLOAD_SIZE proc); EPipe; ENewZip data1]
       ++ trace (extract proc es1 cache (final (resetAndCreate proc cache fs)))).
    rewrite Htr0, Htr1. split; [|done]. by rewrite <- !app_assoc. }
  (* the cache directory is there after the first fetch *)
  assert (Hex : exists_in proc (final (fetchSlice proc remote sliceName fs)) cache = true).
  { destruct (resetAndCreate_resolved _ _ _ Hr1) as (_ & Hd & _).
    destruct (loop_resolved _ _ _ _ Hx1) as (_ & _ & _ & Hmono & _).
    apply Hmono in Hd. rewrite Hfin1. by apply is_dir_exists_path. }
  destruct (fetchSlice_resolved _ _ _ _ _ H2)
    as (id & act & data & es & _ & _ & Hz & Hp & Hr & Hx & Hfin & Htr).
  subst p2. fold cache in Hr, Hx, Hfin, Htr.
  destruct (resetAndCreate_resolved _ _ _ Hr) as (Htr1 & _ & Hclean).
  rewrite Hex in Htr1. specialize (Hclean Hex).
  destruct (loop_resolved _ _ _ _ Hx) as (_ & _ & _ & _ & _ & Hk).
  exists data, es,
    [EInvoke (GET_DOWNLOAD_URL proc) sliceName; EWait id 60; EGet (download_url act)],
    ([ENewSink (MAX_SLICE_UPLOAD_SIZE proc); EPipe; ENewZip data]
     ++ trace (extract proc es cache (final (resetAndCreate proc cache
          (final (fetchSlice proc remote sliceName fs)))))).
  rewrite Hfin, Htr, Htr1. split_and!; try done.
  - rewrite !elem_of_app. right. right. left.
    apply elem_of_cons. right. apply elem_of_cons. right. by left.
  - intros k n Hn Hpre Hne. destruct (Hk _ _ Hn) as [Hsome|(e & Hin & Hor)].
    + rewrite (Hclean _ Hpre Hne) in Hsome. by destruct Hsome.
    + apply list_elem_of_filter in Hin as [Hd Hin].
      exists e. split; [done|]. split; [|done].
      by destruct (isDirectory e).
Qed.

(** ** Failures of the URL resolution *)

(** C2. Once the activation has completed, it is usable exactly when its
    response is there, reports success and carries a non-empty URL.  An
    activation that is not usable makes [fetchSlice] fail with the "Failed
    to fetch" error after the two remote calls and nothing else; a usable
    one makes it go on to the download of that URL. *)
Theorem fetchSlice_requires_usable_activation sliceName fs id act :
  answers remote (GET_DOWNLOAD_URL proc) sliceName id act ->
  JS.truthy act = true ->
  let r := fetchSlice proc remote sliceName fs in
  (usable act = false ->
   r = mkRun (Rejected (mkError ("Failed to fetch assets url for '" +:+ sliceName +:+ "'")))
         fs [EInvoke (GET_DOWNLOAD_URL proc) sliceName; EWait id 60]) ∧
  (usable act = true ->
   ∃ tr, trace r = [EInvoke (GET_DOWNLOAD_URL proc) sliceName; EWait id 60;
                    EGet (download_url act)] ++ tr) ∧
  (JS.get act "response" = JS.Undefined
   ∨ JS.get (JS.get act "response") "success" = JS.Undefined
   ∨ JS.get (JS.get act "response") "success" = JS.Bool false
   ∨ download_url act = JS.Undefined
   ∨ download_url act = JS.Str "" ->
   usable act = false).
Proof.
  intros Ha Ht r. subst r. split_and!.
  - intros Hu. exact (fetchSlice_unusable _ _ _ _ _ _ Ha Ht Hu).
  - intros Hu. rewrite (fetchSlice_usable _ _ _ _ _ _ Ha Ht Hu). simpl.
    unfold download_and_unpack.
    destruct (trace_bind_prefix (get remote (download_url act))
                (fun response => bind (resetAndCreate proc (cache_of proc sliceName))
                                   (fun _ => unpack proc remote response (cache_of proc sliceName)))
                fs) as (tr & ->).
    rewrite get_run. simpl. by exists tr.
  - unfold usable, download_url.
    intros [E|[E|[E|[E|E]]]]; rewrite E; simpl;
      rewrite ?andb_false_r; done.
Qed.

(** C4. When the wait for the activation yields nothing, [fetchSlice]
    fails with exactly "Timed out fetching assets url for '<sliceName>'". *)
Theorem fetchSlice_times_out sliceName fs id act :
  answers remote (GET_DOWNLOAD_URL proc) sliceName id act ->
  JS.truthy act = false ->
  outcome (fetchSlice proc remote sliceName fs) =
    Rejected (mkError ("Timed out fetching assets url for '" +:+ sliceName +:+ "'")).
Proof. intros Ha Ht. by rewrite (fetchSlice_timed_out _ _ _ _ _ _ Ha Ht). Qed.

(** C6. When the activation timed out or is not usable, [fetchSlice] fails
    having made the two remote calls only: no download, no call to the
    file system, no archive, and the file system is as it was. *)
Theorem fetchSlice_failure_leaves_cache sliceName fs id act :
  answers remote (GET_DOWNLOAD_URL proc) sliceName id act ->
  JS.truthy act = false ∨ usable act = false ->
  let r := fetchSlice proc remote sliceName fs in
  (∃ e, outcome r = Rejected e) ∧
  final r = fs ∧
  trace r = [EInvoke (GET_DOWNLOAD_URL proc) sliceName; EWait id 60] ∧
  writes_of (trace r) = [] ∧ mkdirs_of (trace r) = [] ∧
  (∀ d, ENewZip d ∉ trace r).
Proof.
  intros Ha Hor r. subst r.
  assert (Hrun : ∃ e, fetchSlice proc remote sliceName fs =
            mkRun (Rejected e) fs [EInvoke (GET_DOWNLOAD_URL proc) sliceName; EWait id 60]).
  { destruct (JS.truthy act) eqn:Ht.
    - destruct Hor as [?|Hu]; [done|]. eexists. exact (fetchSlice_unusable _ _ _ _ _ _ Ha Ht Hu).
    - eexists. exact (fetchSlice_timed_out _ _ _ _ _ _ Ha Ht). }
  destruct Hrun as (e & ->). simpl. split_and!; eauto.
  intros d Hin. repeat (apply elem_of_cons in Hin as [Hin|Hin]; [done|]).
  by apply elem_of_nil in Hin.
Qed.

(** ** Failures of the download *)

(** C5, as the code has it. With a usable activation: when the GET request
    itself fails, [fetchSlice] fails with the error of the transport as it
    is (nothing is added to it), before any call to the file system; when
    the response stream errors on the way, [fetchSlice] does not return, no
    archive is read and no file is written. *)
Theorem fetchSlice_transport_error sliceName fs id act :
  answers remote (GET_DOWNLOAD_URL proc) sliceName id act ->
  JS.truthy act = true -> usable act = true ->
  let r := fetchSlice proc remote sliceName fs in
  (∀ e, axios_get remote (download_url act) = Rejected e ->
     r = mkRun (Rejected e) fs
           [EInvoke (GET_DOWNLOAD_URL proc) sliceName; EWait id 60;
            EGet (download_url act)]) ∧
  (∀ rcv e, axios_get remote (download_url act) = Resolved (StreamErrors rcv e) ->
     (∀ p, outcome r ≠ Resolved p) ∧ writes_of (trace r) = [] ∧
     (∀ d, ENewZip d ∉ trace r)).
Proof.
  intros Ha Ht Hu r. subst r. rewrite (fetchSlice_usable _ _ _ _ _ _ Ha Ht Hu).
  split.
  - intros e He. by rewrite (download_and_unpack_get_rejected _ _ _ _ _ _ He).
  - intros rcv e He.
    destruct (download_and_unpack_stream_error proc remote _ (cache_of proc sliceName) fs _ _ He)
      as (Hn & Hw & Hz).
    simpl. split_and!; [done..|].
    intros d Hin. repeat (apply elem_of_cons in Hin as [Hin|Hin]; [done|]).
    by apply (Hz d).
Qed.

(** ** Deletion *)


Lemma deleteSlice_final project fs :
  final (deleteSlice proc remote project fs) = fs.
Proof.
  unfold deleteSlice.
  apply final_bind_same; [done|]. intros c fs1.
  apply final_bind_same; [intros; by rewrite invoke_run|]. intros inv fs2.
  apply final_bind_same; [intros; by rewrite wait_run|]. done.
Qed.


(** C7, as the code has it. On a POSIX host, for a name in normal form
    (segments that are not empty, "." or "..", joined by single slashes)
    the path of the cache entry relative to the cache root is the name
    again, and [deleteSlice] invokes the delete action with it. *)
Theorem deleteSlice_invokes_with_slice_name (segs : list string) fs c :
  platform proc ≠ "win32" ->
  Forall (fun s => plain s = true) segs ->
  getCredentialsFromEnvironment remote = Resolved c ->
  let sliceName := Path.unsplit segs in
  let project := mkDeployStructure (Path.join [cacheArea proc; sliceName]) in
  Path.relative (cwd proc) (cacheArea proc) (filePath project) = sliceName ∧
  ∃ tr, trace (deleteSlice proc remote project fs) =
          EInvoke (DELETE_ASSETS_URL proc) sliceName :: tr.
Proof.
  intros Hplat Hsegs Hc sliceName project.
  assert (Hrel : Path.relative (cwd proc) (cacheArea proc) (filePath project) = sliceName).
  { subst project sliceName. rewrite (cacheArea_posix _ Hplat). simpl.
    destruct segs as [|s segs'] eqn:E.
    - by vm_compute.
    - rewrite <- E in *.
      change "/tmp/slices" with ("/" +:+ Path.unsplit ["tmp"; "slices"]).
      rewrite join_two_plain; [|by repeat constructor|done|done|by subst].
      apply relative_below; [by repeat constructor|done|done|by subst]. }
  split; [done|].
  unfold deleteSlice. fold (DELETE_ASSETS_URL proc). rewrite Hrel.
  rewrite (bind_resolved _ _ _ c) by done. simpl.
  destruct (trace_bind_prefix (invoke remote (openwhisk c) (DELETE_ASSETS_URL proc) sliceName)
              (fun invoked => bind (wait remote (activationId invoked) (openwhisk c) 60)
                                (fun _ => ret tt)) fs) as (tr & ->).
  rewrite invoke_run. simpl. by exists tr.
Qed.

(** ** Sizes and modes *)

Lemma store_calls cache e fs :
  Forall (call_in_bounds (MAX_SLICE_UPLOAD_SIZE proc)) (trace (store proc cache e fs)).
Proof.
  unfold store.
  apply trace_bind_Forall; [by repeat constructor|]. intros b fs1.
  apply trace_bind_Forall.
  { destruct b; simpl; [by apply Forall_nil|].
    unfold Fs.mkdirSync_recursive. destruct (existsb _ _); by repeat constructor. }
  intros _ fs2. rewrite bind_entry_getData.
  destruct (getData_error e); [by apply Forall_nil|].
  unfold Fs.writeFileSync.
  repeat match goal with |- context [if ?b then _ else _] => destruct b end;
    try destruct (Fs.lookup_key _ _) as [[|? ?]|];
    simpl; repeat constructor; apply ushr_range.
Qed.

Lemma fetchSlice_calls sliceName fs :
  Forall (call_in_bounds (MAX_SLICE_UPLOAD_SIZE proc))
         (trace (fetchSlice proc remote sliceName fs)).
Proof.
  unfold fetchSlice.
  apply trace_bind_Forall; [by apply Forall_nil|]. intros c fs1.
  apply trace_bind_Forall; [rewrite invoke_run; by repeat constructor|]. intros inv fs2.
  apply trace_bind_Forall; [rewrite wait_run; by repeat constructor|]. intros act fs3.
  destruct (negb (JS.truthy act)); [by apply Forall_nil|].
  destruct (_ || _); [by apply Forall_nil|].
  apply trace_bind_Forall; [rewrite get_run; by repeat constructor|]. intros response fs4.
  apply trace_bind_Forall; [by repeat constructor|]. intros b fs5.
  apply trace_bind_Forall.
  { destruct b; [by repeat constructor|by apply Forall_nil]. }
  intros _ fs6. apply trace_bind_Forall.
  { unfold Fs.mkdirSync_recursive. destruct (existsb _ _); by repeat constructor. }
  intros _ fs7. apply trace_bind_Forall; [by repeat constructor|]. intros d fs8.
  apply trace_bind_Forall; [rewrite pipe_run; by repeat constructor|]. intros d' fs9.
  apply trace_bind_Forall; [rewrite new_Zip_run; by repeat constructor|]. intros zip fs10.
  apply trace_bind_Forall; [|intros; by apply Forall_nil].
  apply trace_for_of_Forall. intros e fs'. apply store_calls.
Qed.

(** The sink is made, with the limit as its mark, before anything is
    piped. *)
Lemma fetchSlice_sink sliceName fs :
  EPipe ∈ trace (fetchSlice proc remote sliceName fs) ->
  ENewSink (MAX_SLICE_UPLOAD_SIZE proc) ∈ trace (fetchSlice proc remote sliceName fs).
Proof.
  set (P := fun (_ tr : list Event) (_ _ : tree) =>
              EPipe ∈ tr -> ENewSink (MAX_SLICE_UPLOAD_SIZE proc) ∈ tr).
  assert (P_comp : ∀ ctx tr1 tr2 t1 t2 t3,
            P ctx tr1 t1 t2 -> P (ctx ++ tr1) tr2 t2 t3 -> P ctx (tr1 ++ tr2) t1 t3).
  { intros ctx tr1 tr2 t1 t2 t3 H1 H2. unfold P in *. rewrite !elem_of_app.
    intros [Hin|Hin]; auto. }
  assert (P_none : ∀ ctx tr t t',
            Forall (fun ev => ev ≠ EPipe) tr -> P ctx tr t t').
  { intros ctx tr t t' Hall Hin. rewrite Forall_forall in Hall.
    by destruct (Hall _ Hin). }
  change (P [] (trace (fetchSlice proc remote sliceName fs)) fs
            (final (fetchSlice proc remote sliceName fs))).
  unfold fetchSlice.
  apply (traced_bind P P_comp); [apply P_none; by repeat constructor|]. intros c _.
  apply (traced_bind P P_comp); [rewrite invoke_run; apply P_none; by repeat constructor|].
  intros inv _.
  apply (traced_bind P P_comp); [rewrite wait_run; apply P_none; by repeat constructor|].
  intros act _.
  destruct (negb (JS.truthy act)); [apply P_none; by repeat constructor|].
  destruct (_ || _); [apply P_none; by repeat constructor|].
  apply (traced_bind P P_comp); [rewrite get_run; apply P_none; by repeat constructor|].
  intros response _.
  apply (traced_bind P P_comp); [apply P_none; by repeat constructor|]. intros b _.
  apply (traced_bind P P_comp).
  { destruct b; apply P_none; by repeat constructor. }
  intros _ _. apply (traced_bind P P_comp).
  { unfold Fs.mkdirSync_recursive. destruct (existsb _ _); apply P_none; by repeat constructor. }
  intros _ _. unfold P.
  rewrite (trace_bind (new_WritableStream _) _ _ _ eq_refl).
  rewrite new_WritableStream_run. cbn [trace]. intros _.
  apply elem_of_app. left. by left.
Qed.

(** C9. The size limit is the parsed value of the environment variable
    when that is a number other than zero (for a decimal numeral, the
    double nearest to the number it denotes, which below 2^53 is that
    number), and 64 MiB when the variable is unset, does not parse, or
    parses to zero (so also for "0").  The limit is the high-water mark
    of every sink [fetchSlice] makes; a run that pipes the response has
    made such a sink, and in every run that returns the sink with the
    limit is made and the response is piped next. *)
Theorem MAX_SLICE_UPLOAD_SIZE_from_environment :
  (∀ v n, env_MAX_SLICE_UPLOAD_SIZE proc = Some v ->
          JS.parseInt_string v = JS.Int n -> n ≠ 0 ->
          MAX_SLICE_UPLOAD_SIZE proc = JS.Int n) ∧
  (∀ v negative, env_MAX_SLICE_UPLOAD_SIZE proc = Some v ->
          JS.parseInt_string v = JS.Infinity negative ->
          MAX_SLICE_UPLOAD_SIZE proc = JS.Infinity negative) ∧
  (∀ d ds, Forall (fun d => 0 <= d <= 9) (d :: ds) ->
           numeral_value (d :: ds) ≠ 0 ->
           env_MAX_SLICE_UPLOAD_SIZE proc = Some (numeral (d :: ds)) ->
           MAX_SLICE_UPLOAD_SIZE proc = JS.to_double (numeral_value (d :: ds)) ∧
           (numeral_value (d :: ds) < 2 ^ 53 ->
            MAX_SLICE_UPLOAD_SIZE proc = JS.Int (numeral_value (d :: ds)))) ∧
  (env_MAX_SLICE_UPLOAD_SIZE proc = None ->
   MAX_SLICE_UPLOAD_SIZE proc = JS.Int (64 * 1024 * 1024)) ∧
  (∀ v, env_MAX_SLICE_UPLOAD_SIZE proc = Some v ->
        JS.parseInt_string v = JS.NaN ∨ JS.parseInt_string v = JS.Int 0 ->
        MAX_SLICE_UPLOAD_SIZE proc = JS.Int (64 * 1024 * 1024)) ∧
  (env_MAX_SLICE_UPLOAD_SIZE proc = Some "0" ->
   MAX_SLICE_UPLOAD_SIZE proc = JS.Int 67108864) ∧
  (∀ sliceName fs h,
     ENewSink h ∈ trace (fetchSlice proc remote sliceName fs) ->
     h = MAX_SLICE_UPLOAD_SIZE proc) ∧
  (∀ sliceName fs,
     EPipe ∈ trace (fetchSlice proc remote sliceName fs) ->
     ENewSink (MAX_SLICE_UPLOAD_SIZE proc) ∈ trace (fetchSlice proc remote sliceName fs)) ∧
  (∀ sliceName fs p,
     outcome (fetchSlice proc remote sliceName fs) = Resolved p ->
     ∃ before after,
       trace (fetchSlice proc remote sliceName fs) =
         before ++ [ENewSink (MAX_SLICE_UPLOAD_SIZE proc); EPipe] ++ after).
Proof.
  split_and!.
  - unfold MAX_SLICE_UPLOAD_SIZE, JS.num_or, JS.parseInt.
    intros v n -> -> Hn. apply Z.eqb_neq in Hn. by rewrite Hn.
  - unfold MAX_SLICE_UPLOAD_SIZE, JS.num_or, JS.parseInt. by intros v negative -> ->.
  - intros d ds Hds Hn Henv.
    assert (E : MAX_SLICE_UPLOAD_SIZE proc = JS.to_double (numeral_value (d :: ds))).
    { unfold MAX_SLICE_UPLOAD_SIZE, JS.parseInt. rewrite Henv.
      rewrite parseInt_numeral by done. by apply num_or_to_double. }
    split; [done|]. intros Hsmall. rewrite E. apply to_double_small.
    pose proof (numeral_value_nonneg _ Hds). lia.
  - unfold MAX_SLICE_UPLOAD_SIZE, JS.num_or, JS.parseInt. by intros ->.
  - unfold MAX_SLICE_UPLOAD_SIZE, JS.num_or, JS.parseInt. intros v -> [-> | ->]; done.
  - unfold MAX_SLICE_UPLOAD_SIZE, JS.num_or, JS.parseInt. by intros ->.
  - intros sliceName fs h Hin.
    pose proof (fetchSlice_calls sliceName fs) as Hall.
    rewrite Forall_forall in Hall. apply (Hall _ Hin).
  - apply fetchSlice_sink.
  - intros sliceName fs p H.
    destruct (fetchSlice_resolved _ _ _ _ _ H)
      as (id & act & data & es & _ & _ & _ & _ & _ & _ & _ & Htr).
    exists ([EInvoke (GET_DOWNLOAD_URL proc) sliceName; EWait id 60;
             EGet (download_url act)] ++ trace (resetAndCreate proc p fs)),
           ([ENewZip data] ++ trace (extract proc es p (final (resetAndCreate proc p fs)))).
    rewrite Htr. by rewrite <- app_assoc.
Qed.

(** Every write of a run is the write of an entry of the archive read. *)
Lemma fetchSlice_writes sliceName fs :
  Forall (writes_read_entry remote (cache_of proc sliceName)
            (trace (fetchSlice proc remote sliceName fs)))
         (trace (fetchSlice proc remote sliceName fs)).
Proof.
  set (cache := cache_of proc sliceName).
  set (P := fun (ctx tr : list Event) (_ _ : tree) =>
              Forall (writes_read_entry remote cache (ctx ++ tr)) tr).
  assert (P_none : ∀ ctx tr t t',
            Forall (fun ev => ∀ p d m, ev ≠ EWrite p d m) tr -> P ctx tr t t').
  { intros ctx tr t t' Hall. unfold P. eapply Forall_impl; [exact Hall|].
    intros ev Hev p d m E. by destruct (Hev p d m). }
  change (P [] (trace (fetchSlice proc remote sliceName fs)) fs
            (final (fetchSlice proc remote sliceName fs))).
  apply (fetchSlice_traced proc remote sliceName P).
  - intros ctx tr1 tr2 t1 t2 t3 H1 H2. unfold P in *. apply Forall_app. split.
    + eapply Forall_impl; [exact H1|]. intros ev Hev p d m E.
      destruct (Hev p d m E) as (e & Hr & Hw). exists e. split; [|done].
      rewrite app_assoc. by apply read_entry_app_l.
    + by rewrite app_assoc.
  - intros ctx tr t Hq. apply P_none. eapply Forall_impl; [exact Hq|].
    intros ev Hev p d m ->. done.
  - intros ctx e t Hr. unfold P.
    eapply Forall_impl; [apply store_entry_calls|].
    intros ev Hev p d m ->. exists e. split; [by apply read_entry_app_l|].
    destruct Hev as [?|[?|[= -> -> ->]]]; done.
  - intros ctx t. apply P_none. by repeat constructor.
  - intros ctx t. apply P_none. unfold Fs.mkdirSync_recursive.
    destruct (existsb _ _); by repeat constructor.
Qed.

(** C10. The mode is never negative: for every attribute value it lies in
    0..65535, it is the upper half of the 32-bit attribute, also when bit 31
    is set (where the signed shift of the same operand is negative).  It is
    the mode [fetchSlice] writes with: every write of a run is that of an
    entry of the archive read, with the mode [attr >>> 16] of the entry,
    and in a run that returns the modes of the writes are those of the
    non-directory entries, one by one. *)
Theorem mode_is_unsigned_upper_half :
  (∀ e : ZipEntry, 0 <= JS.ushr (attr e) 16 <= 65535) ∧
  (∀ e : ZipEntry, 0 <= attr e < 2 ^ 32 -> JS.ushr (attr e) 16 = attr e / 2 ^ 16) ∧
  (∀ e : ZipEntry, 2 ^ 31 <= attr e < 2 ^ 32 ->
     32768 <= JS.ushr (attr e) 16 ∧ sshr (attr e) 16 < 0
     ∧ JS.ushr (attr e) 16 = sshr (attr e) 16 + 65536) ∧
  (∀ sliceName fs p d m,
     EWrite p d m ∈ trace (fetchSlice proc remote sliceName fs) ->
     0 <= m <= 65535 ∧
     ∃ data es e,
       ENewZip data ∈ trace (fetchSlice proc remote sliceName fs) ∧
       Zip_getEntries remote data = Resolved es ∧
       e ∈ es ∧ isDirectory e = false ∧
       p = Path.join [Path.join [cacheArea proc; sliceName]; entryName e] ∧
       m = JS.ushr (attr e) 16) ∧
  (∀ sliceName fs p,
     outcome (fetchSlice proc remote sliceName fs) = Resolved p ->
     ∃ data es,
       ENewZip data ∈ trace (fetchSlice proc remote sliceName fs) ∧
       Zip_getEntries remote data = Resolved es ∧
       map (fun w => w.2) (writes_of (trace (fetchSlice proc remote sliceName fs))) =
         map (fun e => JS.ushr (attr e) 16)
             (filter (fun e => negb (isDirectory e)) es)).
Proof.
  split_and!.
  - intros e. apply ushr_range.
  - intros e He. by apply ushr_upper_half.
  - intros e He. by apply ushr_sign_bit.
  - intros sliceName fs p d m Hin. split.
    + pose proof (fetchSlice_calls sliceName fs) as Hall.
      rewrite Forall_forall in Hall. apply (Hall _ Hin).
    + pose proof (fetchSlice_writes sliceName fs) as Hall.
      rewrite Forall_forall in Hall.
      destruct (Hall _ Hin p d m eq_refl) as (e & (data & es & Hz & Hes & He & Hd) & [= -> _ ->]).
      exists data, es, e. split_and!; done.
  - intros sliceName fs p H.
    destruct (fetchSlice_resolved _ _ _ _ _ H)
      as (id & act & data & es & _ & _ & Hz & Hp & Hr1 & Hr2 & _ & Htr).
    destruct (resetAndCreate_resolved _ _ _ Hr1) as (Htr1 & _).
    destruct (loop_resolved _ _ _ _ Hr2) as (Hw & _).
    fold (extract proc es p (final (resetAndCreate proc p fs))) in Hw.
    exists data, es. split_and!; [|done|].
    + rewrite Htr, !elem_of_app. right. right. left.
      apply elem_of_cons. right. apply elem_of_cons. right. by left.
    + rewrite Htr, !writes_of_app, Hw, Htr1.
      assert (writes_of ([EExists p] ++ (if exists_in proc fs p then [ERimraf p] else [])
                           ++ [EMkdir p true]) = []) as ->
        by (by destruct (exists_in _ _ _)).
      cbn [writes_of app]. rewrite map_map. reflexivity.
Qed.

End Claims.

(** ** The statements at the sample worlds *)

Lemma answers_sample act download entries action sliceName :
  answers (Sample.world act download entries) action sliceName "activation-1" act.
Proof. exists Sample.creds, (mkInvoked "activation-1"). by repeat split. Defined.

Lemma fetchSlice_stores_file_entries_witness :
  outcome (fetchSlice Sample.posix Sample.first "myslice" ∅)
    = Resolved "/tmp/slices/myslice" ∧
  writes_of (trace (fetchSlice Sample.posix Sample.first "myslice" ∅)) =
    [("/tmp/slices/myslice/index.js", [Byte.x01], 33188);
     ("/tmp/slices/myslice/lib/util.js", [Byte.x02], 33261)].
Proof.
  assert (H : outcome (fetchSlice Sample.posix Sample.first "myslice" ∅)
              = Resolved "/tmp/slices/myslice") by (vm_compute; reflexivity).
  split; [exact H|].
  destruct (fetchSlice_stores_file_entries _ _ _ _ _ H)
    as (data & es & before & calls & Hz & _ & _ & _ & Hw & _).
  injection Hz as <-. rewrite Hw. vm_compute. reflexivity.
Defined.

Lemma fetchSlice_requires_usable_activation_witness :
  JS.truthy Sample.bad_activation = true ∧
  usable Sample.bad_activation = false ∧
  outcome (fetchSlice Sample.posix Sample.failure "myslice" ∅) =
    Rejected (mkError "Failed to fetch assets url for 'myslice'").
Proof.
  split; [reflexivity|]. split; [reflexivity|].
  destruct (fetchSlice_requires_usable_activation Sample.posix Sample.failure
              "myslice" ∅ "activation-1" Sample.bad_activation
              (answers_sample _ _ _ _ _) eq_refl) as (H & _).
  rewrite (H eq_refl). reflexivity.
Defined.

Lemma refetch_replaces_cache_entry_witness :
  outcome (fetchSlice Sample.posix Sample.first "myslice" ∅)
    = Resolved "/tmp/slices/myslice" ∧
  outcome (fetchSlice Sample.posix Sample.second "myslice"
             (final (fetchSlice Sample.posix Sample.first "myslice" ∅)))
    = Resolved "/tmp/slices/myslice" ∧
  ∀ k n,
    final (fetchSlice Sample.posix Sample.second "myslice"
             (final (fetchSlice Sample.posix Sample.first "myslice" ∅))) !! k = Some n ->
    ["tmp"; "slices"; "myslice"] `prefix_of` k ->
    k ≠ ["tmp"; "slices"; "myslice"] ->
    k = ["tmp"; "slices"; "myslice"; "main.js"].
Proof.
  assert (H1 : outcome (fetchSlice Sample.posix Sample.first "myslice" ∅)
               = Resolved "/tmp/slices/myslice") by (vm_compute; reflexivity).
  assert (H2 : outcome (fetchSlice Sample.posix Sample.second "myslice"
                          (final (fetchSlice Sample.posix Sample.first "myslice" ∅)))
               = Resolved "/tmp/slices/myslice") by (vm_compute; reflexivity).
  split; [exact H1|]. split; [exact H2|].
  destruct (refetch_replaces_cache_entry _ _ _ _ _ _ _ H1 H2)
    as (_ & data & es & pre & post & _ & Hz & _ & _ & Hk).
  injection Hz as <-.
  intros k n Hn Hpre Hne.
  change (Fs.key (cwd Sample.posix) (Path.join [cacheArea Sample.posix; "myslice"]))
    with ["tmp"; "slices"; "myslice"] in Hk.
  destruct (Hk k n Hn Hpre Hne) as (e & Hin & _ & Hor).
  apply list_elem_of_singleton in Hin. subst e.
  destruct Hor as [Hp| ->]; [|by vm_compute].
  exfalso. apply Hne. apply prefix_antisym; [|done].
  revert Hp. by vm_compute.
Defined.

Lemma fetchSlice_times_out_witness :
  JS.truthy JS.Undefined = false ∧
  outcome (fetchSlice Sample.posix Sample.timeout "myslice" ∅) =
    Rejected (mkError "Timed out fetching assets url for 'myslice'").
Proof.
  split; [reflexivity|].
  exact (fetchSlice_times_out Sample.posix Sample.timeout "myslice" ∅
           "activation-1" JS.Undefined (answers_sample _ _ _ _ _) eq_refl).
Defined.

Lemma fetchSlice_transport_error_witness :
  axios_get Sample.not_found (download_url Sample.good_activation) =
    Rejected (mkError "Request failed with status code 404") ∧
  fetchSlice Sample.posix Sample.not_found "myslice" ∅ =
    mkRun (Rejected (mkError "Request failed with status code 404")) ∅
      [EInvoke "/nimbella/builder/getDownloadUrl" "myslice";
       EWait "activation-1" 60; EGet Sample.url].
Proof.
  split; [reflexivity|].
  destruct (fetchSlice_transport_error Sample.posix Sample.not_found "myslice" ∅
              "activation-1" Sample.good_activation
              (answers_sample _ _ _ _ _) eq_refl eq_refl) as (H & _).
  exact (H _ eq_refl).
Defined.

(** C5, as stated, fails: a 404 of the download makes [fetchSlice] fail
    with the message of the HTTP client, which does not name the slice. *)
Lemma fetchSlice_transport_error_unnamed :
  axios_get Sample.not_found (download_url Sample.good_activation) =
    Rejected (mkError "Request failed with status code 404") ∧
  ¬ ∃ e, outcome (fetchSlice Sample.posix Sample.not_found "myslice" ∅) = Rejected e
         ∧ mentions "myslice" (message e) = true.
Proof.
  split; [reflexivity|]. intros (e & He & Hm).
  vm_compute in He. injection He as <-. vm_compute in Hm. discriminate.
Qed.

Lemma fetchSlice_failure_leaves_cache_witness :
  (JS.truthy JS.Undefined = false ∨ usable JS.Undefined = false) ∧
  final (fetchSlice Sample.posix Sample.timeout "myslice" ∅) = ∅ ∧
  writes_of (trace (fetchSlice Sample.posix Sample.timeout "myslice" ∅)) = [].
Proof.
  split; [by left|].
  destruct (fetchSlice_failure_leaves_cache Sample.posix Sample.timeout "myslice" ∅
              "activation-1" JS.Undefined (answers_sample _ _ _ _ _)
              (or_introl eq_refl)) as (_ & Hf & _ & Hw & _).
  by split.
Defined.

Lemma deleteSlice_invokes_with_slice_name_witness :
  platform Sample.posix ≠ "win32" ∧
  Forall (fun s => plain s = true) ["builds"; "foo"] ∧
  ∃ tr, trace (deleteSlice Sample.posix Sample.first
                 (mkDeployStructure "/tmp/slices/builds/foo") ∅) =
          EInvoke "/nimbella/builder/deleteBuildAssets" "builds/foo" :: tr.
Proof.
  assert (Hp : platform Sample.posix ≠ "win32") by discriminate.
  assert (Hs : Forall (fun s => plain s = true) ["builds"; "foo"])
    by (repeat constructor).
  split; [exact Hp|]. split; [exact Hs|].
  exact (proj2 (deleteSlice_invokes_with_slice_name Sample.posix Sample.first
                  ["builds"; "foo"] ∅ Sample.creds Hp Hs eq_refl)).
Defined.

(** C7, as stated, fails: the cache entry of "./foo" is "/tmp/slices/foo",
    and the name derived from it, with which the delete action is invoked,
    is "foo". *)
Lemma deleteSlice_name_not_inverse :
  let project := mkDeployStructure (Path.join [cacheArea Sample.posix; "./foo"]) in
  trace (deleteSlice Sample.posix Sample.first project ∅) =
    [EInvoke "/nimbella/builder/deleteBuildAssets" "foo"; EWait "activation-1" 60] ∧
  ¬ ∃ tr, trace (deleteSlice Sample.posix Sample.first project ∅) =
            EInvoke (DELETE_ASSETS_URL Sample.posix) "./foo" :: tr.
Proof.
  split; [by vm_compute|]. intros (tr & H). vm_compute in H. discriminate.
Qed.


Lemma MAX_SLICE_UPLOAD_SIZE_from_environment_witness :
  MAX_SLICE_UPLOAD_SIZE (mkProcess "linux" "" (Some "1048576") "/" 18 "nimbella")
    = JS.Int 1048576 ∧
  MAX_SLICE_UPLOAD_SIZE
    (mkProcess "linux" "" (Some (String "194" (String "160" "12"))) "/" 18 "nimbella")
    = JS.Int 12 ∧
  MAX_SLICE_UPLOAD_SIZE
    (mkProcess "linux" "" (Some "9007199254740993") "/" 18 "nimbella")
    = JS.Int 9007199254740992 ∧
  MAX_SLICE_UPLOAD_SIZE (mkProcess "linux" "" (Some "0") "/" 18 "nimbella")
    = JS.Int 67108864 ∧
  outcome (fetchSlice Sample.posix Sample.first "myslice" ∅)
    = Resolved "/tmp/slices/myslice" ∧
  ENewSink (JS.Int 67108864) ∈ trace (fetchSlice Sample.posix Sample.first "myslice" ∅).
Proof.
  assert (H0 : outcome (fetchSlice Sample.posix Sample.first "myslice" ∅)
               = Resolved "/tmp/slices/myslice") by (vm_compute; reflexivity).
  split_and!.
  - destruct (MAX_SLICE_UPLOAD_SIZE_from_environment
                (mkProcess "linux" "" (Some "1048576") "/" 18 "nimbella") Sample.first)
      as (H & _).
    apply (H "1048576"); [reflexivity|reflexivity|discriminate].
  - destruct (MAX_SLICE_UPLOAD_SIZE_from_environment
                (mkProcess "linux" "" (Some (String "194" (String "160" "12"))) "/" 18
                   "nimbella") Sample.first)
      as (H & _).
    apply (H (String "194" (String "160" "12"))); [reflexivity|reflexivity|discriminate].
  - destruct (MAX_SLICE_UPLOAD_SIZE_from_environment
                (mkProcess "linux" "" (Some "9007199254740993") "/" 18 "nimbella")
                Sample.first)
      as (_ & _ & H & _).
    assert (Hds : Forall (fun d => 0 <= d <= 9)
                    [9; 0; 0; 7; 1; 9; 9; 2; 5; 4; 7; 4; 0; 9; 9; 3])
      by (repeat constructor; lia).
    assert (Hnz : numeral_value [9; 0; 0; 7; 1; 9; 9; 2; 5; 4; 7; 4; 0; 9; 9; 3] ≠ 0)
      by discriminate.
    exact (proj1 (H 9 [0; 0; 7; 1; 9; 9; 2; 5; 4; 7; 4; 0; 9; 9; 3] Hds Hnz eq_refl)).
  - destruct (MAX_SLICE_UPLOAD_SIZE_from_environment
                (mkProcess "linux" "" (Some "0") "/" 18 "nimbella") Sample.first)
      as (_ & _ & _ & _ & _ & H & _).
    exact (H eq_refl).
  - exact H0.
  - destruct (MAX_SLICE_UPLOAD_SIZE_from_environment Sample.posix Sample.first)
      as (_ & _ & _ & _ & _ & _ & _ & _ & H).
    destruct (H "myslice" ∅ _ H0) as (before & after & ->).
    apply elem_of_app. right. by left.
Defined.

Lemma mode_is_unsigned_upper_half_witness :
  2 ^ 31 <= 2175008768 < 2 ^ 32 ∧
  sshr 2175008768 16 < 0 ∧
  outcome (fetchSlice Sample.posix Sample.first "myslice" ∅)
    = Resolved "/tmp/slices/myslice" ∧
  map (fun w => w.2) (writes_of (trace (fetchSlice Sample.posix Sample.first "myslice" ∅)))
    = [33188; 33261].
Proof.
  assert (H : 2 ^ 31 <= 2175008768 < 2 ^ 32) by (split; [discriminate|reflexivity]).
  assert (H0 : outcome (fetchSlice Sample.posix Sample.first "myslice" ∅)
               = Resolved "/tmp/slices/myslice") by (vm_compute; reflexivity).
  destruct (mode_is_unsigned_upper_half Sample.posix Sample.first)
    as (_ & _ & Hs & _ & Hm).
  destruct (Hs (mkZipEntry "index.js" false 2175008768 [Byte.x01] None) H) as (_ & H2 & _).
  destruct (Hm "myslice" ∅ _ H0) as (data & es & _ & Hz & Hmodes).
  injection Hz as <-.
  split; [exact H|]. split; [exact H2|]. split; [exact H0|].
  rewrite Hmodes. reflexivity.
Defined.

(** * Further properties *)

(** ** Relations between the file system before and after *)

Lemma final_bind_rel {A B : Type} (R : tree -> tree -> Prop) (m : M A) (k : A -> M B) fs :
  Transitive R ->
  R fs (final (m fs)) ->
  (∀ a, outcome (m fs) = Resolved a ->
        R (final (m fs)) (final (k a (final (m fs))))) ->
  R fs (final (bind m k fs)).
Proof.
  intros HT Hm Hk. unfold bind. destruct (outcome (m fs)) eqn:E; simpl; [|done..].
  etrans; [exact Hm|]. by apply Hk.
Qed.

Lemma final_bind_rel_any {A B : Type} (R : tree -> tree -> Prop) (m : M A) (k : A -> M B) fs :
  Transitive R ->
  R fs (final (m fs)) ->
  (∀ a fs', outcome (m fs) = Resolved a -> R fs' (final (k a fs'))) ->
  R fs (final (bind m k fs)).
Proof. intros HT Hm Hk. apply final_bind_rel; [done..|]. intros a Ha. by apply Hk. Qed.

Lemma final_for_of_rel {A : Type} (R : tree -> tree -> Prop) (xs : list A) body fs :
  Reflexive R -> Transitive R ->
  (∀ x fs', x ∈ xs -> R fs' (final (body x fs'))) ->
  R fs (final (for_of xs body fs)).
Proof.
  intros HR HT Hb. revert fs. induction xs as [|x xs IH]; intros fs; [done|].
  rewrite for_of_cons. apply final_bind_rel; [done| |].
  - apply Hb. by left.
  - intros _ _. apply IH. intros y fs' Hy. apply Hb. by right.
Qed.

(** ** Counting calls *)

Lemma count_calls_app which tr1 tr2 :
  count_calls which (tr1 ++ tr2) = (count_calls which tr1 + count_calls which tr2)%nat.
Proof. induction tr1 as [|ev tr1 IH]; simpl; [done|]. rewrite IH. lia. Qed.

Lemma count_bind_le {A B : Type} which (m : M A) (k : A -> M B) fs (a b : nat) :
  (count_calls which (trace (m fs)) <= a)%nat ->
  (∀ x fs', (count_calls which (trace (k x fs')) <= b)%nat) ->
  (count_calls which (trace (bind m k fs)) <= a + b)%nat.
Proof.
  intros Hm Hk. unfold bind. destruct (outcome (m fs)); simpl; [|lia..].
  rewrite count_calls_app. specialize (Hk a0 (final (m fs))). lia.
Qed.

Lemma count_for_of_zero {A : Type} which (xs : list A) body fs :
  (∀ x fs', count_calls which (trace (body x fs')) = 0%nat) ->
  count_calls which (trace (for_of xs body fs)) = 0%nat.
Proof.
  intros Hb. revert fs. induction xs as [|x xs IH]; intros fs; [done|].
  rewrite for_of_cons.
  pose proof (count_bind_le which (body x) (fun _ => for_of xs body) fs 0 0) as H.
  assert (count_calls which (trace (bind (body x) (fun _ => for_of xs body) fs)) <= 0)%nat; [|lia].
  apply H; [by rewrite Hb|]. intros _ fs'. by rewrite IH.
Qed.

(** ** Rejections of the remote side *)

Section Rejections.
Variable proc : Process.
Variable remote : Remote.

(** X1. A rejection by the credential lookup, by the invocation or by the
    wait is the rejection of [fetchSlice], with the same error, and is the
    end of the run: no later call is made and the file system is as it
    was. *)
Theorem fetchSlice_passes_on_rejection sliceName fs e :
  (getCredentialsFromEnvironment remote = Rejected e ->
   fetchSlice proc remote sliceName fs = mkRun (Rejected e) fs []) ∧
  (∀ c, getCredentialsFromEnvironment remote = Resolved c ->
        actions_invoke remote (openwhisk c) (GET_DOWNLOAD_URL proc) sliceName = Rejected e ->
        fetchSlice proc remote sliceName fs =
          mkRun (Rejected e) fs [EInvoke (GET_DOWNLOAD_URL proc) sliceName]) ∧
  (∀ c inv, getCredentialsFromEnvironment remote = Resolved c ->
        actions_invoke remote (openwhisk c) (GET_DOWNLOAD_URL proc) sliceName = Resolved inv ->
        waitForActivation remote (activationId inv) (openwhisk c) 60 = Rejected e ->
        fetchSlice proc remote sliceName fs =
          mkRun (Rejected e) fs
            [EInvoke (GET_DOWNLOAD_URL proc) sliceName; EWait (activationId inv) 60]).
Proof.
  split_and!.
  - intros Hc. unfold fetchSlice. by rewrite (bind_rejected _ _ _ e).
  - intros c Hc Hi. unfold fetchSlice. fold (GET_DOWNLOAD_URL proc).
    rewrite (bind_resolved _ _ _ c) by done. cbn [outcome final trace await].
    rewrite (bind_rejected _ _ _ e) by (by rewrite invoke_run).
    by rewrite invoke_run.
  - intros c inv Hc Hi Hw. unfold fetchSlice. fold (GET_DOWNLOAD_URL proc).
    rewrite (bind_resolved _ _ _ c) by done. cbn [outcome final trace await].
    rewrite (bind_resolved _ _ _ inv) by (by rewrite invoke_run).
    rewrite invoke_run. cbn [outcome final trace].
    rewrite (bind_rejected _ _ _ e) by (by rewrite wait_run).
    by rewrite wait_run.
Qed.

(** X2. [deleteSlice] swallows nothing but the timeout: a rejection by the
    credential lookup, by the invocation or by the wait is its own
    rejection, with the same error. *)
Theorem deleteSlice_passes_on_rejection project fs e :
  let sliceName := Path.relative (cwd proc) (cacheArea proc) (filePath project) in
  (getCredentialsFromEnvironment remote = Rejected e ->
   deleteSlice proc remote project fs = mkRun (Rejected e) fs []) ∧
  (∀ c, getCredentialsFromEnvironment remote = Resolved c ->
        actions_invoke remote (openwhisk c) (DELETE_ASSETS_URL proc) sliceName = Rejected e ->
        deleteSlice proc remote project fs =
          mkRun (Rejected e) fs [EInvoke (DELETE_ASSETS_URL proc) sliceName]) ∧
  (∀ c inv, getCredentialsFromEnvironment remote = Resolved c ->
        actions_invoke remote (openwhisk c) (DELETE_ASSETS_URL proc) sliceName = Resolved inv ->
        waitForActivation remote (activationId inv) (openwhisk c) 60 = Rejected e ->
        deleteSlice proc remote project fs =
          mkRun (Rejected e) fs
            [EInvoke (DELETE_ASSETS_URL proc) sliceName; EWait (activationId inv) 60]).
Proof.
  intros sliceName. split_and!.
  - intros Hc. unfold deleteSlice. by rewrite (bind_rejected _ _ _ e).
  - intros c Hc Hi. unfold deleteSlice. fold (DELETE_ASSETS_URL proc). fold sliceName.
    rewrite (bind_resolved _ _ _ c) by done. cbn [outcome final trace await].
    rewrite (bind_rejected _ _ _ e) by (by rewrite invoke_run).
    by rewrite invoke_run.
  - intros c inv Hc Hi Hw. unfold deleteSlice. fold (DELETE_ASSETS_URL proc). fold sliceName.
    rewrite (bind_resolved _ _ _ c) by done. cbn [outcome final trace await].
    rewrite (bind_resolved _ _ _ inv) by (by rewrite invoke_run).
    rewrite invoke_run. cbn [outcome final trace].
    rewrite (bind_rejected _ _ _ e) by (by rewrite wait_run).
    by rewrite wait_run.
Qed.

(** ** No retries *)

Ltac count_leaf :=
  rewrite ?invoke_run, ?wait_run, ?get_run, ?new_Zip_run, ?pipe_run, ?entry_getData_run;
  cbn [trace];
  unfold Fs.existsSync, Fs.rimraf_sync, Fs.mkdirSync_recursive, Fs.writeFileSync,
    new_WritableStream, await, ret, throw, emit;
  repeat match goal with
         | |- context [if ?b then _ else _] => destruct b
         | |- context [match Fs.lookup_key ?t ?k with _ => _ end] =>
             destruct (Fs.lookup_key t k) as [[|? ?]|]
         end;
  cbn; lia.

Ltac count_steps :=
  lazymatch goal with
  | |- (count_calls _ (trace (bind _ _ _)) <= 0)%nat =>
      apply (count_bind_le _ _ _ _ 0 0); [count_steps | intros; count_steps]
  | |- (count_calls _ (trace (bind _ _ _)) <= 1)%nat =>
      first [ apply (count_bind_le _ _ _ _ 0 1); [count_steps | intros; count_steps]
            | apply (count_bind_le _ _ _ _ 1 0); [count_steps | intros; count_steps] ]
  | |- (count_calls _ (trace ((if ?b then _ else _) _)) <= _)%nat =>
      destruct b; count_steps
  | |- (count_calls _ (trace (for_of _ _ _)) <= _)%nat =>
      rewrite count_for_of_zero; [lia | intros; unfold store;
        assert (∀ n : nat, (n <= 0)%nat -> n = 0%nat) as Hz by lia; apply Hz; count_steps]
  | _ => count_leaf
  end.

(** X3. Nothing is tried twice: whatever the outcome, a call of
    [fetchSlice] invokes the action at most once, waits at most once,
    requests the download at most once, deletes at most one path and reads
    at most one archive; a call of [deleteSlice] invokes and waits at most
    once. *)
Theorem no_retries sliceName project fs :
  let r := fetchSlice proc remote sliceName fs in
  let d := deleteSlice proc remote project fs in
  (count_calls is_invoke (trace r) <= 1)%nat ∧
  (count_calls is_wait (trace r) <= 1)%nat ∧
  (count_calls is_get (trace r) <= 1)%nat ∧
  (count_calls is_rimraf (trace r) <= 1)%nat ∧
  (count_calls is_new_zip (trace r) <= 1)%nat ∧
  (count_calls is_invoke (trace d) <= 1)%nat ∧
  (count_calls is_wait (trace d) <= 1)%nat.
Proof.
  intros r d. subst r d. unfold fetchSlice, deleteSlice.
  split_and!; count_steps.
Qed.

End Rejections.

(** ** Well-formed trees *)

Section TreeFacts.
Variable proc : Process.

Abbreviation key := (Fs.key (cwd proc)).

Lemma keeps_well_formed_refl : Reflexive keeps_well_formed.
Proof. intros t H. exact H. Qed.

Lemma keeps_well_formed_trans : Transitive keeps_well_formed.
Proof. intros t1 t2 t3 H1 H2 H. by apply H2, H1. Qed.

Lemma lookup_rimraf (K k : list string) (t : tree) :
  filter (fun kv : list string * node => ¬ (K `prefix_of` kv.1)) t !! k =
    if decide (K `prefix_of` k) then None else t !! k.
Proof.
  destruct (decide (K `prefix_of` k)) as [Hp|Hp].
  - apply map_lookup_filter_None. right. intros n _ Hn. by apply Hn.
  - destruct (t !! k) as [n|] eqn:E.
    + apply map_lookup_filter_Some. by split.
    + apply map_lookup_filter_None. by left.
Qed.

Lemma well_formed_rimraf (K : list string) (t : tree) :
  well_formed t ->
  well_formed (filter (fun kv : list string * node => ¬ (K `prefix_of` kv.1)) t).
Proof.
  intros Hwf k n Hk k' Hp Hne Hnil. rewrite lookup_rimraf in *.
  destruct (decide (K `prefix_of` k)) as [|Hnp]; [done|].
  destruct (decide (K `prefix_of` k')) as [Hp'|_].
  - destruct Hnp. by etrans.
  - by apply (Hwf k n).
Qed.

Lemma prefix_prefixes (K k k' : list string) :
  k ∈ Fs.prefixes K -> k' `prefix_of` k -> k' ≠ [] -> k' ∈ Fs.prefixes K.
Proof.
  rewrite !elem_of_prefixes. intros [_ Hk] Hp Hnil. split; [done|]. by etrans.
Qed.

Lemma well_formed_mkdirp (K : list string) (t : tree) :
  well_formed t -> well_formed (Fs.mkdirp (Fs.prefixes K) t).
Proof.
  intros Hwf k n Hk k' Hp Hne Hnil. rewrite lookup_mkdirp in *.
  destruct (decide (k' ∈ Fs.prefixes K)) as [|Hn']; [done|].
  destruct (decide (k ∈ Fs.prefixes K)) as [Hin|_].
  - destruct Hn'. by apply (prefix_prefixes K k).
  - by apply (Hwf k n).
Qed.

Lemma proper_prefix_removelast (k k' : list string) :
  k' `prefix_of` k -> k' ≠ k -> k' `prefix_of` removelast k.
Proof.
  intros [rest ->] Hne. destruct rest as [|x rest].
  - by rewrite app_nil_r in Hne.
  - rewrite removelast_app by done. by apply prefix_app_r.
Qed.

Lemma well_formed_write (k : list string) (d : Buffer) (m : Z) (t : tree) :
  well_formed t ->
  Fs.is_dir t (removelast k) = true ->
  Fs.is_dir t k = false ->
  well_formed (<[k := File d m]> t).
Proof.
  intros Hwf Hd Hk k1 n H1 k1' Hp Hne Hnil.
  assert (Hknil : k ≠ []) by (by intros ->).
  rewrite lookup_insert in H1. destruct (decide (k = k1)) as [<-|Hk1].
  - rewrite lookup_insert_ne by done.
    pose proof (proper_prefix_removelast _ _ Hp Hne) as Hp'.
    unfold Fs.is_dir in Hd.
    destruct (decide (k1' = removelast k)) as [->|Hne'].
    + destruct (removelast k) as [|x rl] eqn:E; [done|]. simpl in Hd.
      by destruct (t !! (x :: rl)) as [[|]|].
    + destruct (removelast k) as [|x rl] eqn:E.
      { apply prefix_nil_inv in Hp'. done. }
      simpl in Hd. destruct (t !! (x :: rl)) as [[|]|] eqn:El; try done.
      by apply (Hwf (x :: rl) Dir).
  - pose proof (Hwf k1 n H1 k1' Hp Hne Hnil) as Hdir.
    rewrite lookup_insert. destruct (decide (k = k1')) as [<-|]; [|done].
    unfold Fs.is_dir in Hk. destruct k as [|x k]; [done|]. simpl in Hk.
    by rewrite Hdir in Hk.
Qed.

Lemma rimraf_keeps_well_formed p t :
  keeps_well_formed t (final (Fs.rimraf_sync (cwd proc) p t)).
Proof. intros H. by apply well_formed_rimraf. Qed.

Lemma mkdir_keeps_well_formed p t :
  keeps_well_formed t (final (Fs.mkdirSync_recursive (cwd proc) p t)).
Proof.
  intros H. unfold Fs.mkdirSync_recursive. destruct (existsb _ _); [done|].
  by apply well_formed_mkdirp.
Qed.

Lemma write_keeps_well_formed p d m t :
  keeps_well_formed t (final (Fs.writeFileSync (cwd proc) (umask proc) p d m t)).
Proof.
  intros H. unfold Fs.writeFileSync.
  destruct (Path.has_trailing_slash p); [done|].
  destruct (Fs.is_dir t (removelast (key p))) eqn:Hd; [|done]. simpl.
  destruct (Fs.lookup_key t (key p)) as [[|d' m']|] eqn:Hl; [done| |].
  - apply well_formed_write; [done..|]. unfold Fs.is_dir. by rewrite Hl.
  - apply well_formed_write; [done..|]. unfold Fs.is_dir. by rewrite Hl.
Qed.

Lemma store_keeps_well_formed cache e t :
  keeps_well_formed t (final (store proc cache e t)).
Proof.
  unfold store.
  apply final_bind_rel_any;
    [apply keeps_well_formed_trans|apply keeps_well_formed_refl|]. intros b t1 _.
  apply final_bind_rel_any; [apply keeps_well_formed_trans| |].
  { destruct (negb b); [apply mkdir_keeps_well_formed|apply keeps_well_formed_refl]. }
  intros _ t2 _. rewrite bind_entry_getData.
  destruct (getData_error e); [apply keeps_well_formed_refl|].
  apply write_keeps_well_formed.
Qed.

End TreeFacts.

Section WellFormed.
Variable proc : Process.
Variable remote : Remote.

(** X4. [fetchSlice] keeps the file system a tree: when the ancestors of
    every node are directories before the call, they are so after it, in
    every outcome. *)
Theorem fetchSlice_keeps_well_formed sliceName fs :
  well_formed fs -> well_formed (final (fetchSlice proc remote sliceName fs)).
Proof.
  change (keeps_well_formed fs (final (fetchSlice proc remote sliceName fs))).
  pose proof keeps_well_formed_trans as HT.
  pose proof keeps_well_formed_refl as HR.
  unfold fetchSlice.
  apply final_bind_rel_any; [done|apply HR|]. intros c fs1 _.
  apply final_bind_rel_any; [done|rewrite invoke_run; apply HR|]. intros inv fs2 _.
  apply final_bind_rel_any; [done|rewrite wait_run; apply HR|]. intros act fs3 _.
  destruct (negb (JS.truthy act)); [apply HR|].
  destruct (_ || _); [apply HR|].
  apply final_bind_rel_any; [done|rewrite get_run; apply HR|]. intros response fs4 _.
  apply final_bind_rel_any; [done|apply HR|]. intros b fs5 _.
  apply final_bind_rel_any; [done| |].
  { destruct b; [apply rimraf_keeps_well_formed|apply HR]. }
  intros _ fs6 _.
  apply final_bind_rel_any; [done|apply mkdir_keeps_well_formed|]. intros _ fs7 _.
  apply final_bind_rel_any; [done|apply HR|]. intros d fs8 _.
  apply final_bind_rel_any; [done|rewrite pipe_run; apply HR|]. intros d' fs9 _.
  apply final_bind_rel_any; [done|rewrite new_Zip_run; apply HR|]. intros zip fs10 _.
  apply final_bind_rel_any; [done| |intros; apply HR].
  apply final_for_of_rel; [done..|].
  intros e fs' _. apply store_keeps_well_formed.
Qed.

End WellFormed.

(** ** What a fetch leaves alone *)

Section Frame.
Variable proc : Process.
Variable remote : Remote.

Abbreviation key := (Fs.key (cwd proc)).

Lemma same_outside_refl S : Reflexive (same_outside S).
Proof. by intros t k _. Qed.

Lemma same_outside_trans S : Transitive (same_outside S).
Proof. intros t1 t2 t3 H1 H2 k Hk. rewrite H2, H1; done. Qed.

Lemma survives_outside_refl S : Reflexive (survives_outside S).
Proof. by intros t k _. Qed.

Lemma survives_outside_trans S : Transitive (survives_outside S).
Proof.
  intros t1 t2 t3 H1 H2 k Hk. destruct (H1 k Hk) as [Hd1 Hf1].
  destruct (H2 k Hk) as [Hd2 Hf2]. split; auto.
Qed.

Lemma rimraf_same_outside (S : list string -> Prop) p t :
  (∀ k, key p `prefix_of` k -> S k) ->
  same_outside S t (final (Fs.rimraf_sync (cwd proc) p t)).
Proof.
  intros HS k Hk. unfold Fs.rimraf_sync. simpl. rewrite lookup_rimraf.
  destruct (decide _) as [Hp|]; [|done]. destruct Hk. by apply HS.
Qed.

Lemma mkdir_same_outside (S : list string -> Prop) p t :
  (∀ k, k `prefix_of` key p -> S k) ->
  same_outside S t (final (Fs.mkdirSync_recursive (cwd proc) p t)).
Proof.
  intros HS k Hk. unfold Fs.mkdirSync_recursive. destruct (existsb _ _); [done|].
  simpl. rewrite lookup_mkdirp. destruct (decide _) as [Hin|]; [|done].
  apply elem_of_prefixes in Hin as [_ Hin]. destruct Hk. by apply HS.
Qed.

Lemma write_same_outside (S : list string -> Prop) p d m t :
  S (key p) ->
  same_outside S t (final (Fs.writeFileSync (cwd proc) (umask proc) p d m t)).
Proof.
  intros HS k Hk. unfold Fs.writeFileSync.
  destruct (Path.has_trailing_slash p); [done|].
  destruct (negb _); [done|].
  destruct (Fs.lookup_key t (key p)) as [[|d' m']|]; [done| |];
    simpl; rewrite lookup_insert_ne; try done; by intros <-.
Qed.

Lemma store_same_outside (S : list string -> Prop) cache e t :
  (∀ k, k `prefix_of` key (Path.dirname (target cache e)) -> S k) ->
  S (key (target cache e)) ->
  same_outside S t (final (store proc cache e t)).
Proof.
  intros HS1 HS2. unfold store. fold (target cache e).
  apply final_bind_rel_any; [apply same_outside_trans|apply same_outside_refl|].
  intros b t1 _.
  apply final_bind_rel_any; [apply same_outside_trans| |].
  { destruct (negb b); [by apply mkdir_same_outside|apply same_outside_refl]. }
  intros _ t2 _. rewrite bind_entry_getData.
  destruct (getData_error e); [apply same_outside_refl|].
  by apply write_same_outside.
Qed.

(** Whatever set [S] holds the cache entry with what is below it, the
    ancestors of the cache entry, and the targets of the entries of the
    archive read in the run, with the ancestors of their parents: the
    fetch changes nothing outside [S]. *)
Lemma fetchSlice_same_outside (S : list string -> Prop) sliceName fs :
  let cache := cache_of proc sliceName in
  (∀ k, key cache `prefix_of` k -> S k) ->
  (∀ k, k `prefix_of` key cache -> S k) ->
  (∀ e, read_entry remote (trace (fetchSlice proc remote sliceName fs)) e ->
     (∀ k, k `prefix_of` key (Path.dirname (target cache e)) -> S k)
     ∧ S (key (target cache e))) ->
  same_outside S fs (final (fetchSlice proc remote sliceName fs)).
Proof.
  intros cache Hbelow Habove.
  set (P := fun (ctx tr : list Event) (t t' : tree) =>
              (∀ e, read_entry remote (ctx ++ tr) e ->
                 (∀ k, k `prefix_of` key (Path.dirname (target cache e)) -> S k)
                 ∧ S (key (target cache e))) ->
              same_outside S t t').
  change (P [] (trace (fetchSlice proc remote sliceName fs)) fs
            (final (fetchSlice proc remote sliceName fs))).
  apply (fetchSlice_traced proc remote sliceName P).
  - intros ctx tr1 tr2 t1 t2 t3 H1 H2 Hentries.
    apply (same_outside_trans S _ t2).
    + apply H1. intros e He. apply Hentries. rewrite app_assoc.
      by apply read_entry_app_l.
    + apply H2. intros e He. apply Hentries. by rewrite <- app_assoc in He.
  - intros ctx tr t _ _. apply same_outside_refl.
  - intros ctx e t He Hentries.
    destruct (Hentries e (read_entry_app_l _ _ _ _ He)) as [H1 H2].
    by apply store_same_outside.
  - intros ctx t _. by apply rimraf_same_outside.
  - intros ctx t _. by apply mkdir_same_outside.
Qed.

(** X5. A fetch changes nothing outside its region: at every path that is
    neither in the cache entry, nor an ancestor of it, nor the target of
    an entry of the archive the run has read or an ancestor of such a
    target's parent, the file system is after the call as it was before,
    in every outcome. *)
Theorem fetchSlice_changes_only_its_region sliceName fs k :
  let r := fetchSlice proc remote sliceName fs in
  ¬ region proc remote sliceName (trace r) k ->
  final r !! k = fs !! k.
Proof.
  intros r. subst r. revert k.
  change (same_outside (region proc remote sliceName
                          (trace (fetchSlice proc remote sliceName fs)))
            fs (final (fetchSlice proc remote sliceName fs))).
  apply fetchSlice_same_outside.
  - intros k Hp. by left.
  - intros k Hp. right. by left.
  - intros e He. split.
    + intros k Hp. right. right. exists e. split; [done|]. by left.
    + right. right. exists e. split; [done|]. by right.
Qed.

Lemma rimraf_survives_outside (S : list string -> Prop) p t :
  (∀ k, key p `prefix_of` k -> S k) ->
  survives_outside S t (final (Fs.rimraf_sync (cwd proc) p t)).
Proof.
  intros HS k Hk. unfold Fs.rimraf_sync, Fs.is_dir, Fs.is_file. simpl.
  destruct k as [|x k]; [done|]. simpl. rewrite lookup_rimraf.
  destruct (decide _) as [Hp|]; [|done]. destruct Hk. by apply HS.
Qed.

Lemma mkdir_survives_outside (S : list string -> Prop) p t :
  survives_outside S t (final (Fs.mkdirSync_recursive (cwd proc) p t)).
Proof.
  intros k _. unfold Fs.mkdirSync_recursive.
  destruct (existsb _ _) eqn:Hf; [done|]. simpl.
  unfold Fs.is_dir, Fs.is_file. rewrite lookup_key_mkdirp.
  destruct (decide _) as [Hin|]; [|done]. split; [done|].
  intros Hfile. pose proof (existsb_is_file_false _ _ _ Hf Hin) as Hnf.
  unfold Fs.is_file in Hnf. by rewrite Hnf in Hfile.
Qed.

Lemma write_survives_outside (S : list string -> Prop) p d m t :
  survives_outside S t (final (Fs.writeFileSync (cwd proc) (umask proc) p d m t)).
Proof.
  intros k _. unfold Fs.writeFileSync.
  destruct (Path.has_trailing_slash p); [done|].
  destruct (negb _); [done|].
  destruct (Fs.lookup_key t (key p)) as [[|d' m']|] eqn:Hl; [done| |]; simpl.
  all: assert (Hnil : key p ≠ []) by (intros E; by rewrite E in Hl).
  all: unfold Fs.is_dir, Fs.is_file; rewrite lookup_key_insert by done.
  all: destruct (decide _) as [<-|]; [|done]; by rewrite Hl.
Qed.

(** X6. A fetch removes nothing outside the cache entry: at every path
    that is not the cache entry or below it, a directory is still a
    directory and a file is still a file after the call, in every
    outcome. *)
Theorem fetchSlice_removes_nothing_outside_cache sliceName fs k :
  ¬ key (Path.join [cacheArea proc; sliceName]) `prefix_of` k ->
  (Fs.is_dir fs k = true ->
   Fs.is_dir (final (fetchSlice proc remote sliceName fs)) k = true) ∧
  (Fs.is_file fs k = true ->
   Fs.is_file (final (fetchSlice proc remote sliceName fs)) k = true).
Proof.
  intros Hk. revert k Hk.
  set (S := fun k => key (Path.join [cacheArea proc; sliceName]) `prefix_of` k).
  change (survives_outside S fs (final (fetchSlice proc remote sliceName fs))).
  pose proof (survives_outside_trans S) as HT.
  pose proof (survives_outside_refl S) as HR.
  unfold fetchSlice.
  apply final_bind_rel_any; [done|apply HR|]. intros c fs1 _.
  apply final_bind_rel_any; [done|rewrite invoke_run; apply HR|]. intros inv fs2 _.
  apply final_bind_rel_any; [done|rewrite wait_run; apply HR|]. intros act fs3 _.
  destruct (negb (JS.truthy act)); [apply HR|].
  destruct (_ || _); [apply HR|].
  apply final_bind_rel_any; [done|rewrite get_run; apply HR|]. intros response fs4 _.
  apply final_bind_rel_any; [done|apply HR|]. intros b fs5 _.
  apply final_bind_rel_any; [done| |].
  { destruct b; [|apply HR]. by apply rimraf_survives_outside. }
  intros _ fs6 _.
  apply final_bind_rel_any; [done|apply mkdir_survives_outside|]. intros _ fs7 _.
  apply final_bind_rel_any; [done|apply HR|]. intros d fs8 _.
  apply final_bind_rel_any; [done|rewrite pipe_run; apply HR|]. intros d' fs9 _.
  apply final_bind_rel_any; [done|rewrite new_Zip_run; apply HR|]. intros zip fs10 _.
  apply final_bind_rel_any; [done| |intros; apply HR].
  apply final_for_of_rel; [done..|].
  intros e fs' _. unfold store.
  apply final_bind_rel_any; [done|apply HR|]. intros b' t1 _.
  apply final_bind_rel_any; [done| |].
  { destruct (negb b'); [apply mkdir_survives_outside|apply HR]. }
  intros _ t2 _. rewrite bind_entry_getData.
  destruct (getData_error e); [apply HR|].
  apply write_survives_outside.
Qed.

End Frame.

(** ** An archive that cannot be read *)

Section BadArchive.
Variable proc : Process.
Variable remote : Remote.

Abbreviation key := (Fs.key (cwd proc)).

(** In a tree, the reset of an existing path does not fail. *)
Lemma resetAndCreate_succeeds p t :
  well_formed t -> exists_in proc t p = true ->
  outcome (resetAndCreate proc p t) = Resolved tt.
Proof.
  intros Hwf Hex. unfold resetAndCreate, exists_in in *.
  rewrite (bind_resolved _ _ _ true) by (unfold Fs.existsSync; simpl; by rewrite Hex).
  cbn [outcome final trace]. unfold Fs.existsSync at 1. cbn [final].
  rewrite (bind_resolved _ _ _ tt) by done. cbn [outcome final trace].
  unfold Fs.rimraf_sync at 1. cbn [final].
  unfold Fs.mkdirSync_recursive.
  destruct (existsb _ _) eqn:Hf; [|done]. exfalso.
  apply existsb_exists in Hf as (k & Hin & Hfile).
  apply list_elem_of_In, elem_of_prefixes in Hin as [Hnil Hp].
  unfold Fs.is_file in Hfile. destruct k as [|x k]; [done|]. simpl in Hfile.
  rewrite lookup_rimraf in Hfile. destruct (decide _) as [|Hnp]; [done|].
  assert (Hne : x :: k ≠ key p) by (intros E; apply Hnp; by rewrite E).
  assert (HK : ∃ n, t !! key p = Some n).
  { unfold Fs.exists_path in Hex. apply andb_prop in Hex as [Hex _].
    apply bool_decide_eq_true in Hex as [n Hn].
    destruct (key p) as [|y K] eqn:E.
    - apply prefix_nil_inv in Hp. done.
    - simpl in Hn. eauto. }
  destruct HK as [n Hn].
  rewrite (Hwf _ _ Hn (x :: k) Hp Hne) in Hfile; done.
Qed.

(** The run from the fresh cache entry on, by what the response stream,
    the sink and the zip reader do. *)
Lemma unpack_unreadable chunks cache t e :
  sink_finishes remote (MAX_SLICE_UPLOAD_SIZE proc) chunks = true ->
  Zip_getEntries remote (concat chunks) = Rejected e ->
  unpack proc remote (StreamEnds chunks) cache t =
    mkRun (Rejected e) t
      [ENewSink (MAX_SLICE_UPLOAD_SIZE proc); EPipe; ENewZip (concat chunks)].
Proof.
  intros Hs Hz. unfold unpack.
  rewrite (bind_resolved _ _ _ (mkWritableStream (MAX_SLICE_UPLOAD_SIZE proc) [])) by done.
  rewrite new_WritableStream_run. cbn [outcome final trace].
  rewrite (bind_resolved _ _ _
             (mkWritableStream (MAX_SLICE_UPLOAD_SIZE proc) (concat chunks)))
    by (rewrite pipe_run; cbn [outcome highWaterMark toBuffer]; by rewrite Hs).
  rewrite pipe_run. cbn [outcome final trace toBuffer].
  rewrite (bind_rejected _ _ _ e) by (by rewrite new_Zip_run).
  rewrite new_Zip_run. reflexivity.
Qed.

Lemma unpack_broken_stream rcv e cache t :
  unpack proc remote (StreamErrors rcv e) cache t =
    mkRun Pending t [ENewSink (MAX_SLICE_UPLOAD_SIZE proc); EPipe].
Proof.
  unfold unpack.
  rewrite (bind_resolved _ _ _ (mkWritableStream (MAX_SLICE_UPLOAD_SIZE proc) [])) by done.
  rewrite new_WritableStream_run. cbn [outcome final trace].
  rewrite bind_pending by (by rewrite pipe_run).
  rewrite pipe_run. reflexivity.
Qed.

Lemma unpack_stalls chunks cache t :
  sink_finishes remote (MAX_SLICE_UPLOAD_SIZE proc) chunks = false ->
  unpack proc remote (StreamEnds chunks) cache t =
    mkRun Pending t [ENewSink (MAX_SLICE_UPLOAD_SIZE proc); EPipe].
Proof.
  intros Hs. unfold unpack.
  rewrite (bind_resolved _ _ _ (mkWritableStream (MAX_SLICE_UPLOAD_SIZE proc) [])) by done.
  rewrite new_WritableStream_run. cbn [outcome final trace].
  rewrite bind_pending
    by (rewrite pipe_run; cbn [outcome highWaterMark]; by rewrite Hs).
  rewrite pipe_run. reflexivity.
Qed.

(** A download whose unpacking stops short, when the reset succeeds. *)
Lemma download_and_unpack_stops url response cache fs (o : Outcome string) tr :
  axios_get remote url = Resolved response ->
  outcome (resetAndCreate proc cache fs) = Resolved tt ->
  (∀ t, unpack proc remote response cache t = mkRun o t tr) ->
  download_and_unpack proc remote url cache fs =
    mkRun o (final (resetAndCreate proc cache fs))
      ([EGet url] ++ trace (resetAndCreate proc cache fs) ++ tr).
Proof.
  intros Hg Hr Hu. unfold download_and_unpack.
  rewrite (bind_resolved _ _ _ response) by (by rewrite get_run).
  rewrite get_run. cbn [outcome final trace].
  rewrite (bind_resolved _ _ _ tt Hr). rewrite Hu. reflexivity.
Qed.

(** X7. When the sink has taken the whole response and the zip reader
    rejects the buffer at [new Zip], the cache entry has been reset
    already: in a tree where the cache entry existed, [fetchSlice] fails
    with the error of the zip reader, writes no file, and leaves the cache
    entry an empty directory. *)
Theorem fetchSlice_unreadable_archive_empties_cache sliceName fs id act chunks e :
  answers remote (GET_DOWNLOAD_URL proc) sliceName id act ->
  JS.truthy act = true -> usable act = true ->
  axios_get remote (download_url act) = Resolved (StreamEnds chunks) ->
  sink_finishes remote (MAX_SLICE_UPLOAD_SIZE proc) chunks = true ->
  Zip_getEntries remote (concat chunks) = Rejected e ->
  well_formed fs ->
  Fs.exists_path (cwd proc) fs (Path.join [cacheArea proc; sliceName]) = true ->
  let r := fetchSlice proc remote sliceName fs in
  let cache := Path.join [cacheArea proc; sliceName] in
  outcome r = Rejected e ∧
  writes_of (trace r) = [] ∧
  Fs.is_dir (final r) (key cache) = true ∧
  ∀ k, key cache `prefix_of` k -> k ≠ key cache -> final r !! k = None.
Proof.
  intros Ha Ht Hu Hg Hs Hz Hwf Hex r cache. subst r.
  fold (cache_of proc sliceName) in cache, Hex. fold cache in Hex.
  pose proof (resetAndCreate_succeeds cache fs Hwf Hex) as Hr.
  destruct (resetAndCreate_resolved _ _ _ Hr) as (Htr & Hd & Hclean).
  specialize (Hclean Hex).
  rewrite (fetchSlice_usable _ _ _ _ _ _ Ha Ht Hu). fold cache.
  rewrite (download_and_unpack_stops _ _ _ _ _ _ Hg Hr
             (fun t => unpack_unreadable chunks cache t e Hs Hz)).
  cbn [outcome final trace]. split_and!; [done| |done|done].
  rewrite !writes_of_app, Htr. by destruct (exists_in _ _ _).
Qed.

End BadArchive.

(** ** The files of the cache entry *)

Section Content.
Variable proc : Process.
Variable remote : Remote.

Abbreviation key := (Fs.key (cwd proc)).

Lemma is_file_lookup (t : tree) (k : list string) :
  Fs.is_file t k = true -> k ≠ [] ∧ ∃ d m, t !! k = Some (File d m).
Proof.
  unfold Fs.is_file. destruct k as [|x k]; simpl; [done|].
  destruct (t !! (x :: k)) as [[|d m]|]; try done. eauto.
Qed.

Lemma lookup_is_file (t : tree) (k : list string) d m :
  k ≠ [] -> t !! k = Some (File d m) -> Fs.is_file t k = true.
Proof.
  unfold Fs.is_file. destruct k as [|x k]; simpl; [done|]. by intros _ ->.
Qed.

(** One iteration changes the files of no other path, and makes a file of
    the entry at a target that was not a file. *)
Lemma store_files cache e t :
  outcome (store proc cache e t) = Resolved tt ->
  let t' := final (store proc cache e t) in
  (∀ k0 d m, k0 ≠ key (target cache e) ->
     (t' !! k0 = Some (File d m) ↔ t !! k0 = Some (File d m))) ∧
  (Fs.is_file t (key (target cache e)) = false ->
   t' !! key (target cache e) =
     Some (File (getData e) (Fs.created_mode (umask proc) (JS.ushr (attr e) 16)))).
Proof.
  intros H t'. subst t'.
  destruct (store_resolved _ _ _ _ H) as (t1 & mk & m & _ & Ht1 & Hd & Hl & -> & _).
  assert (Hfiles : ∀ k0 d0 m0, t1 !! k0 = Some (File d0 m0) ↔ t !! k0 = Some (File d0 m0)).
  { intros k0 d0 m0. destruct Ht1 as [[-> _]|(-> & _ & Hf)]; [done|].
    rewrite lookup_mkdirp. destruct (decide _) as [Hin|]; [|done].
    split; [done|]. intros Hk0.
    pose proof (existsb_is_file_false _ _ _ Hf Hin) as Hnf.
    apply elem_of_prefixes in Hin as [Hnil _].
    rewrite (lookup_is_file _ _ _ _ Hnil Hk0) in Hnf. done. }
  split.
  - intros k0 d0 m0 Hne. rewrite lookup_insert_ne by done. apply Hfiles.
  - intros Hnf. destruct Hl as [[_ ->]|[d Hl]]; [by rewrite lookup_insert_eq|].
    exfalso. destruct (key (target cache e)) as [|x k] eqn:E; [done|].
    simpl in Hl. apply Hfiles in Hl.
    assert (Hn : x :: k ≠ []) by done.
    rewrite (lookup_is_file _ _ _ _ Hn Hl) in Hnf. done.
Qed.

Lemma loop_files_kept cache es t k d m :
  outcome (for_of es (store proc cache) t) = Resolved tt ->
  k ∉ map (fun e => key (target cache e)) es ->
  (final (for_of es (store proc cache) t) !! k = Some (File d m)
   ↔ t !! k = Some (File d m)).
Proof.
  revert t. induction es as [|e es IH]; intros t H Hk; [done|].
  rewrite for_of_cons in *.
  destruct (bind_outcome_inv _ _ _ _ H) as ([] & He & Hrest).
  rewrite (final_bind _ _ _ _ He).
  apply not_elem_of_cons in Hk as [Hne Hk].
  rewrite (IH _ Hrest Hk).
  destruct (store_files _ _ _ He) as (Hother & _). by apply Hother.
Qed.

Lemma loop_files_only cache es t k d m :
  outcome (for_of es (store proc cache) t) = Resolved tt ->
  final (for_of es (store proc cache) t) !! k = Some (File d m) ->
  t !! k = Some (File d m) ∨ ∃ e, e ∈ es ∧ k = key (target cache e).
Proof.
  intros H Hf.
  destruct (decide (k ∈ map (fun e => key (target cache e)) es)) as [Hin|Hnin].
  - right. apply list_elem_of_fmap in Hin as (e & -> & Hin). eauto.
  - left. by apply (loop_files_kept _ _ _ _ _ _ H Hnin).
Qed.

Lemma loop_content cache es t e :
  outcome (for_of es (store proc cache) t) = Resolved tt ->
  e ∈ es ->
  NoDup (map (fun e => key (target cache e)) es) ->
  Fs.is_file t (key (target cache e)) = false ->
  final (for_of es (store proc cache) t) !! key (target cache e) =
    Some (File (getData e) (Fs.created_mode (umask proc) (JS.ushr (attr e) 16))).
Proof.
  revert t. induction es as [|e0 es IH]; intros t H Hin Hnd Hnf.
  { by apply elem_of_nil in Hin. }
  rewrite for_of_cons in *.
  destruct (bind_outcome_inv _ _ _ _ H) as ([] & He & Hrest).
  rewrite (final_bind _ _ _ _ He).
  apply NoDup_cons in Hnd as [Hfresh Hnd].
  destruct (store_files _ _ _ He) as (Hother & Hhere).
  destruct (decide (key (target cache e) = key (target cache e0))) as [Heq|Hne].
  - rewrite Heq in *. apply (loop_files_kept _ _ _ _ _ _ Hrest Hfresh).
    rewrite <- Heq in Hfresh.
    assert (e = e0) as ->; [|by apply Hhere].
    apply elem_of_cons in Hin as [?|Hin]; [done|].
    destruct Hfresh. rewrite Heq. apply list_elem_of_fmap. exists e. by rewrite Heq.
  - apply elem_of_cons in Hin as [->|Hin]; [done|].
    apply IH; [done..|].
    destruct (Fs.is_file (final (store proc cache e0 t)) (key (target cache e))) eqn:E; [|done].
    apply is_file_lookup in E as (Hnil & d & m & E). apply Hother in E; [|done].
    rewrite (lookup_is_file _ _ _ _ Hnil E) in Hnf. done.
Qed.

(** The reset makes no files. *)
Lemma resetAndCreate_no_new_file p t k :
  Fs.is_file t k = false ->
  Fs.is_file (final (resetAndCreate proc p t)) k = false.
Proof.
  intros Hnf. unfold resetAndCreate, bind, Fs.existsSync, Fs.rimraf_sync,
    Fs.mkdirSync_recursive, ret.
  simpl. destruct (Fs.exists_path _ _ _); simpl; destruct (existsb _ _); simpl.
  all: unfold Fs.is_file in *; rewrite ?lookup_key_mkdirp;
    repeat destruct (decide _); try done.
  all: destruct k as [|x k]; [done|]; simpl in *; rewrite lookup_rimraf;
    by destruct (decide _).
Qed.

(** In a tree nothing is below the cache entry once it is reset. *)
Lemma resetAndCreate_clean p t :
  outcome (resetAndCreate proc p t) = Resolved tt ->
  well_formed t ∨ exists_in proc t p = true ->
  ∀ k, key p `prefix_of` k -> k ≠ key p ->
       final (resetAndCreate proc p t) !! k = None.
Proof.
  intros Hr Hor k Hp Hne.
  destruct (exists_in proc t p) eqn:Hex.
  { destruct (resetAndCreate_resolved _ _ _ Hr) as (_ & _ & Hclean).
    apply Hclean; [by rewrite Hex|done..]. }
  destruct Hor as [Hwf|?]; [|done].
  revert Hr. unfold resetAndCreate, bind, Fs.existsSync, Fs.rimraf_sync,
    Fs.mkdirSync_recursive, ret. unfold exists_in in Hex.
  simpl. rewrite Hex. simpl. destruct (existsb _ _) eqn:Hf; simpl; [done|].
  intros _. rewrite lookup_mkdirp. destruct (decide _) as [Hin|Hnin].
  { apply elem_of_prefixes in Hin as [_ Hin]. destruct Hne. by apply prefix_antisym. }
  destruct (t !! k) as [n|] eqn:Hk; [|done]. exfalso.
  assert (Hnil : key p ≠ []).
  { intros E. unfold Fs.exists_path in Hex. rewrite E in Hex. simpl in Hex.
    rewrite ?orb_true_r in Hex. by simpl in Hex. }
  pose proof (Hwf _ _ Hk (key p) Hp ltac:(done) Hnil) as Hdir.
  assert (Fs.is_dir t (key p) = true) as Hd.
  { unfold Fs.is_dir. destruct (key p) as [|x K]; [done|]. simpl. by rewrite Hdir. }
  apply (is_dir_exists_path proc) in Hd. congruence.
Qed.

Lemma resetAndCreate_root p t :
  key p = [] -> final (resetAndCreate proc p t) !! [] = None.
Proof.
  intros E. unfold resetAndCreate, bind, Fs.existsSync, Fs.rimraf_sync,
    Fs.mkdirSync_recursive, ret, Fs.exists_path.
  simpl. rewrite E. simpl. change (Fs.is_dir t []) with true.
  rewrite orb_true_r. simpl. rewrite lookup_rimraf. by rewrite decide_True.
Qed.

(** X8. The files a fetch leaves are the archive's: when the targets of the
    non-directory entries are pairwise distinct paths, a fetch that returns
    leaves at the target of each such entry a file with the entry's data,
    whose mode is what the process's umask leaves of the permission bits
    of [attr >>> 16], provided the target was not a file before or lies
    in a cache entry that existed (and so was deleted). *)
Theorem fetchSlice_files_as_archived sliceName fs p :
  outcome (fetchSlice proc remote sliceName fs) = Resolved p ->
  let r := fetchSlice proc remote sliceName fs in
  ∃ data es,
    ENewZip data ∈ trace r ∧ Zip_getEntries remote data = Resolved es ∧
    let files := filter (fun e => negb (isDirectory e)) es in
    (NoDup (map (fun e => key (Path.join [p; entryName e])) files) ->
     ∀ e, e ∈ files ->
       Fs.is_file fs (key (Path.join [p; entryName e])) = false
       ∨ (key p `prefix_of` key (Path.join [p; entryName e])
          ∧ Fs.exists_path (cwd proc) fs p = true) ->
       final r !! key (Path.join [p; entryName e]) =
         Some (File (getData e)
                    (Fs.created_mode (umask proc) (JS.ushr (attr e) 16)))).
Proof.
  intros H r. subst r.
  destruct (fetchSlice_resolved _ _ _ _ _ H)
    as (id & act & data & es & Ha & Hg & Hz & Hp & Hr1 & Hr2 & Hfin & Htr).
  exists data, es. split.
  { rewrite Htr, !elem_of_app. right. right. left.
    apply elem_of_cons. right. apply elem_of_cons. right. by left. }
  split; [done|]. intros files Hnd e Hin Hor. subst files.
  rewrite Hfin. apply (loop_content p _ _ e Hr2 Hin Hnd).
  destruct Hor as [Hnf|[Hpre Hex]].
  - by apply resetAndCreate_no_new_file.
  - destruct (resetAndCreate_resolved _ _ _ Hr1) as (_ & Hd & Hclean).
    destruct (decide (key (Path.join [p; entryName e]) = key p)) as [E|Hne].
    + unfold target. rewrite E. unfold Fs.is_dir, Fs.is_file in *.
      by destruct (Fs.lookup_key _ _) as [[|]|].
    + pose proof (Hclean Hex _ Hpre Hne) as Hnone.
      unfold Fs.is_file, Fs.lookup_key, target.
      destruct (key (Path.join [p; entryName e])) as [|x k]; [done|].
      by rewrite Hnone.
Qed.

(** X9. And no others: in a tree, or where the cache entry existed, every
    file that a fetch that returns leaves in or below the cache entry is
    at the target of a non-directory entry of the archive. *)
Theorem fetchSlice_no_other_files sliceName fs p :
  outcome (fetchSlice proc remote sliceName fs) = Resolved p ->
  well_formed fs ∨ Fs.exists_path (cwd proc) fs p = true ->
  let r := fetchSlice proc remote sliceName fs in
  ∃ data es,
    ENewZip data ∈ trace r ∧ Zip_getEntries remote data = Resolved es ∧
    ∀ k d m, final r !! k = Some (File d m) -> key p `prefix_of` k ->
      ∃ e, e ∈ es ∧ isDirectory e = false ∧ k = key (Path.join [p; entryName e]).
Proof.
  intros H Hor r. subst r.
  destruct (fetchSlice_resolved _ _ _ _ _ H)
    as (id & act & data & es & Ha & Hg & Hz & Hp & Hr1 & Hr2 & Hfin & Htr).
  exists data, es. split.
  { rewrite Htr, !elem_of_app. right. right. left.
    apply elem_of_cons. right. apply elem_of_cons. right. by left. }
  split; [done|]. intros k d m Hk Hpre. rewrite Hfin in Hk.
  destruct (loop_files_only _ _ _ _ _ _ Hr2 Hk) as [Hold|(e & Hin & ->)].
  - exfalso. destruct (decide (k = key p)) as [->|Hne].
    + destruct (resetAndCreate_resolved _ _ _ Hr1) as (_ & Hd & _).
      unfold Fs.is_dir, Fs.lookup_key in Hd. destruct (key p) as [|x K] eqn:E.
      * by rewrite (resetAndCreate_root _ _ E) in Hold.
      * by rewrite Hold in Hd.
    + by rewrite (resetAndCreate_clean p fs Hr1 Hor k Hpre Hne) in Hold.
  - apply list_elem_of_filter in Hin as [Hd Hin]. exists e.
    split; [done|]. split; [by destruct (isDirectory e)|done].
Qed.

End Content.

(** ** Paths of names in normal form *)

Section NormalForm.

Lemma list_ascii_app (a b : string) :
  list_ascii_of_string (a +:+ b) = list_ascii_of_string a ++ list_ascii_of_string b.
Proof.
  induction a as [|c a IH]; [done|].
  change (String c a +:+ b) with (String c (a +:+ b)). simpl. by rewrite IH.
Qed.

Lemma dirname_scan_segment (l rest : list ascii) (b : bool) :
  Forall (fun c => Ascii.eqb c "/" = false) l -> l ≠ [] ->
  Path.dirname_scan (l ++ rest) b = Path.dirname_scan rest false.
Proof.
  intros H Hne. revert b. induction H as [|c l Hc H IH]; intros b; [done|].
  simpl. rewrite Hc. destruct l as [|c' l]; [done|]. by apply IH.
Qed.

Lemma no_slash_chars (s : string) :
  no_slash s = true ->
  Forall (fun c => Ascii.eqb c "/" = false) (list_ascii_of_string s).
Proof.
  induction s as [|c s IH]; simpl; [by constructor|].
  intros [Hc Hs]%andb_prop. apply negb_true_iff in Hc. constructor; auto.
Qed.

Lemma dirname_root (tail : string) :
  Path.dirname (String "/" tail) =
    match Path.dirname_scan (rev (list_ascii_of_string tail)) true with
    | None => "/"
    | Some r =>
        if bool_decide (r = []) then "//"
        else String "/" (string_of_list_ascii (rev r))
    end.
Proof. reflexivity. Qed.

Lemma dirname_scan_slash (r : list ascii) :
  Path.dirname_scan ("/"%char :: r) false = Some r.
Proof. reflexivity. Qed.

(** [dirname] drops the last segment of an absolute path in normal form. *)
Lemma dirname_abs_plain (init : list string) (s : string) :
  init ≠ [] -> Forall (fun x => plain x = true) init -> plain s = true ->
  Path.dirname ("/" +:+ Path.unsplit (init ++ [s])) = "/" +:+ Path.unsplit init.
Proof.
  intros Hne Hinit Hs.
  change ("/" +:+ Path.unsplit (init ++ [s])) with (String "/" (Path.unsplit (init ++ [s]))).
  rewrite dirname_root, unsplit_app by done.
  change (Path.unsplit [s]) with s.
  rewrite !list_ascii_app, !rev_app_distr.
  change (list_ascii_of_string "/") with ["/"%char]. cbn [rev app].
  rewrite <- app_assoc.
  rewrite dirname_scan_segment.
  - cbn [app]. rewrite dirname_scan_slash.
    rewrite rev_involutive, string_of_list_ascii_of_string.
    rewrite bool_decide_eq_false_2; [done|].
    intros E. apply (f_equal (@rev ascii)) in E. rewrite rev_involutive in E.
    apply (f_equal string_of_list_ascii) in E.
    rewrite string_of_list_ascii_of_string in E. simpl in E.
    by apply unsplit_nonempty in E.
  - apply Forall_rev. by apply no_slash_chars, plain_no_slash.
  - intros E. apply (f_equal (@rev ascii)) in E. rewrite rev_involutive in E. simpl in E.
    apply plain_nonempty in Hs. by destruct s.
Qed.

Lemma cache_of_normal proc (nsegs : list string) :
  platform proc ≠ "win32" ->
  nsegs ≠ [] -> Forall (fun x => plain x = true) nsegs ->
  cache_of proc (Path.unsplit nsegs) = "/" +:+ Path.unsplit (["tmp"; "slices"] ++ nsegs).
Proof.
  intros Hplat Hne Hn. unfold cache_of. rewrite (cacheArea_posix _ Hplat).
  change "/tmp/slices" with ("/" +:+ Path.unsplit ["tmp"; "slices"]).
  apply join_two_plain; [by repeat constructor|done..].
Qed.

Lemma cache_of_normal_text proc (nsegs : list string) :
  platform proc ≠ "win32" ->
  nsegs ≠ [] -> Forall (fun x => plain x = true) nsegs ->
  cache_of proc (Path.unsplit nsegs) = "/tmp/slices/" +:+ Path.unsplit nsegs.
Proof.
  intros Hplat Hne Hn. rewrite cache_of_normal by done.
  by rewrite unsplit_app.
Qed.

Lemma join_normal_text (pre esegs : list string) :
  pre ≠ [] -> Forall (fun x => plain x = true) pre ->
  esegs ≠ [] -> Forall (fun x => plain x = true) esegs ->
  Path.join ["/" +:+ Path.unsplit pre; Path.unsplit esegs] =
    ("/" +:+ Path.unsplit pre) +:+ "/" +:+ Path.unsplit esegs.
Proof.
  intros. rewrite join_two_plain, unsplit_app by done.
  by rewrite string_app_assoc.
Qed.

Lemma key_dirname_normal cwd (pre esegs : list string) :
  pre ≠ [] -> Forall (fun x => plain x = true) pre ->
  esegs ≠ [] -> Forall (fun x => plain x = true) esegs ->
  Fs.key cwd (Path.dirname ("/" +:+ Path.unsplit (pre ++ esegs))) =
    pre ++ removelast esegs.
Proof.
  intros Hpne Hp Hene He.
  destruct (exists_last Hene) as (einit & s & ->).
  apply Forall_app in He as [Hei Hs]. rewrite Forall_singleton in Hs.
  rewrite removelast_last, app_assoc.
  rewrite dirname_abs_plain; [|by destruct pre|by apply Forall_app|done].
  apply resolve_abs_plain; [by apply Forall_app|by destruct pre].
Qed.

Lemma key_parent_dots (pre : list string) (s x : string) cwd :
  Forall (fun y => plain y = true) pre -> plain s = true -> plain x = true ->
  Path.join ["/" +:+ Path.unsplit (pre ++ [s]); "../" +:+ x] =
    "/" +:+ Path.unsplit (pre ++ [x])
  ∧ Fs.key cwd ("/" +:+ Path.unsplit (pre ++ [x])) = pre ++ [x].
Proof.
  intros Hp Hs Hx.
  assert (Hpx : Forall (fun y => plain y = true) (pre ++ [x])).
  { apply Forall_app. split; [done|]. by apply Forall_singleton. }
  assert (Hps : Forall (fun y => plain y = true) (pre ++ [s])).
  { apply Forall_app. split; [done|]. by apply Forall_singleton. }
  split; [|apply resolve_abs_plain; [done|by destruct pre]].
  unfold Path.join.
  rewrite filter_cons_True by done. rewrite filter_cons_True by done.
  rewrite filter_nil. rewrite unsplit_cons. change (Path.unsplit ["../" +:+ x]) with ("../" +:+ x).
  set (A := "/" +:+ Path.unsplit (pre ++ [s])).
  unfold Path.normalize.
  assert (Htr : Path.has_trailing_slash (A +:+ "/" +:+ "../" +:+ x) = false).
  { change (A +:+ "/" +:+ "../" +:+ x) with (A +:+ ("/../" +:+ x)).
    rewrite <- string_app_assoc. unfold Path.has_trailing_slash.
    rewrite last_char_app by (by apply plain_nonempty).
    destruct (last_char_no_slash x) as (c & -> & ->);
      [by apply plain_no_slash|by apply plain_nonempty|done]. }
  rewrite Htr.
  change (Path.isAbsolute (A +:+ "/" +:+ "../" +:+ x)) with true.
  change (String.eqb (A +:+ "/" +:+ "../" +:+ x) "") with false. cbv iota.
  change (negb true) with false.
  assert (Hn : Path.normalizeString (A +:+ "/" +:+ "../" +:+ x) false = pre ++ [x]).
  { unfold Path.normalizeString.
    change ("../" +:+ x) with (".." +:+ "/" +:+ x).
    rewrite !split_app_slash. subst A.
    change ("/" +:+ Path.unsplit (pre ++ [s])) with ("" +:+ "/" +:+ Path.unsplit (pre ++ [s])).
    rewrite split_app_slash, split_unsplit; [|by destruct pre|done].
    rewrite (split_no_slash x) by (by apply plain_no_slash).
    change (Path.split "..") with [".."]. change (Path.split "") with [""].
    rewrite !fold_left_app. cbn [fold_left].
    change (Path.norm_step false [] "") with (@nil string).
    rewrite fold_norm_plain by done. rewrite app_nil_r.
    rewrite (norm_step_plain _ _ s) by done.
    assert (Path.norm_step false (s :: rev pre) ".." = rev pre) as ->.
    { unfold Path.norm_step. cbn [String.eqb orb]. simpl.
      unfold plain in Hs. apply andb_prop in Hs as [_ Hs]. apply negb_true_iff in Hs.
      by rewrite Hs. }
    rewrite norm_step_plain by done. simpl. by rewrite rev_involutive. }
  rewrite Hn.
  destruct (String.eqb (Path.unsplit (pre ++ [x])) "") eqn:E; [|done].
  apply String.eqb_eq in E. apply unsplit_nonempty in E; [done|by destruct pre|done].
Qed.

End NormalForm.

(** ** Where the names lead *)

Section Names.
Variable proc : Process.
Variable remote : Remote.

Abbreviation key := (Fs.key (cwd proc)).

Lemma elem_of_writes_of_app w tr1 tr2 :
  w ∈ writes_of tr2 -> w ∈ writes_of (tr1 ++ tr2).
Proof. intros H. rewrite writes_of_app, elem_of_app. by right. Qed.

(** The files a returning fetch has stored, by entry. *)
Lemma fetchSlice_resolved_entries sliceName fs p :
  outcome (fetchSlice proc remote sliceName fs) = Resolved p ->
  let r := fetchSlice proc remote sliceName fs in
  p = cache_of proc sliceName ∧
  Fs.is_dir (final r) (key p) = true ∧
  (exists_in proc fs p = true -> ERimraf p ∈ trace r) ∧
  ∃ data es,
    ENewZip data ∈ trace r ∧ Zip_getEntries remote data = Resolved es ∧
    ∀ e, e ∈ es -> isDirectory e = false ->
      write_of p e ∈ writes_of (trace r) ∧
      Fs.is_file (final r) (key (target p e)) = true.
Proof.
  intros H r. subst r.
  destruct (fetchSlice_resolved _ _ _ _ _ H)
    as (id & act & data & es & _ & _ & Hz & Hp & Hr1 & Hr2 & Hfin & Htr).
  destruct (resetAndCreate_resolved _ _ _ Hr1) as (Htr1 & Hd & _).
  destruct (loop_resolved _ _ _ _ Hr2) as (Hw & _ & _ & Hdirs & Hfiles & _).
  rewrite Hfin, Htr. split_and!; [done|by apply Hdirs| |].
  - intros Hex. rewrite Htr1, Hex. rewrite !elem_of_app. right. left. right. left.
    by apply list_elem_of_singleton.
  - exists data, es. split_and!; [|done|].
    + rewrite !elem_of_app. right. right. left.
      apply elem_of_cons. right. apply elem_of_cons. right. by left.
    + intros e Hin Hnd.
      assert (Hin' : e ∈ filter (fun e => negb (isDirectory e)) es).
      { apply list_elem_of_filter. split; [by rewrite Hnd|done]. }
      split; [|by apply Hfiles].
      do 3 apply elem_of_writes_of_app.
      unfold extract. rewrite Hw. by apply list_elem_of_fmap_2.
Qed.

(** X10. On a POSIX host, the cache entry of a name in normal form is the
    cache root followed by the name, and an entry whose name is in normal
    form is stored at the cache entry followed by the entry's name: inside
    the cache entry. *)
Theorem fetchSlice_normal_form_paths sliceName fs p :
  platform proc ≠ "win32" -> normal_form sliceName ->
  outcome (fetchSlice proc remote sliceName fs) = Resolved p ->
  let r := fetchSlice proc remote sliceName fs in
  p = "/tmp/slices/" +:+ sliceName ∧
  ∃ data es,
    ENewZip data ∈ trace r ∧ Zip_getEntries remote data = Resolved es ∧
    ∀ e, e ∈ es -> isDirectory e = false -> normal_form (entryName e) ->
      let path := p +:+ "/" +:+ entryName e in
      (path, getData e, JS.ushr (attr e) 16) ∈ writes_of (trace r) ∧
      Fs.is_file (final r) (key path) = true ∧
      key p `prefix_of` key path ∧ key path ≠ key p.
Proof.
  intros Hplat (nsegs & Hne & Hn & ->) H r. subst r.
  destruct (fetchSlice_resolved_entries _ _ _ H) as (Hp & _ & _ & data & es & Hzip & Hz & Hes).
  rewrite cache_of_normal in Hp by done.
  assert (Hpre : Forall (fun x => plain x = true) (["tmp"; "slices"] ++ nsegs)).
  { apply Forall_app. split; [by repeat constructor|done]. }
  split; [by rewrite Hp, unsplit_app|].
  exists data, es. split_and!; [done..|].
  intros e Hin Hnd (esegs & Hene & He & Hname) path. subst path.
  destruct (Hes e Hin Hnd) as [Hw Hf].
  assert (Htgt : target p e = p +:+ "/" +:+ entryName e).
  { unfold target. rewrite Hp, Hname. by apply join_normal_text. }
  unfold write_of in Hw. rewrite Htgt in Hw, Hf.
  assert (Hpath : key (p +:+ "/" +:+ entryName e) = (["tmp"; "slices"] ++ nsegs) ++ esegs).
  { rewrite <- Htgt. unfold target. rewrite Hp, Hname, join_two_plain by done.
    unfold Fs.key. apply resolve_abs_plain; [by apply Forall_app|done]. }
  assert (Hkp : key p = ["tmp"; "slices"] ++ nsegs).
  { rewrite Hp. unfold Fs.key. by apply resolve_abs_plain. }
  rewrite Hkp. rewrite Hpath in Hf |- *.
  split_and!; [done..| |].
  - by apply prefix_app_r.
  - intros E. rewrite <- (app_nil_r (["tmp"; "slices"] ++ nsegs)) in E at 2.
    by apply app_inv_head in E.
Qed.

(** X11. An entry name is not confined to the cache entry: on a POSIX
    host, an entry named "../x" of a slice named by one segment is stored
    in the cache root beside the cache entry, at the place of the cache
    entry of a slice named "x". *)
Theorem fetchSlice_entry_name_not_confined s x fs p :
  platform proc ≠ "win32" -> plain s = true -> plain x = true ->
  outcome (fetchSlice proc remote s fs) = Resolved p ->
  let r := fetchSlice proc remote s fs in
  ∃ data es,
    ENewZip data ∈ trace r ∧ Zip_getEntries remote data = Resolved es ∧
    ∀ e, e ∈ es -> isDirectory e = false -> entryName e = "../" +:+ x ->
      ("/tmp/slices/" +:+ x, getData e, JS.ushr (attr e) 16) ∈ writes_of (trace r) ∧
      Fs.is_file (final r) ["tmp"; "slices"; x] = true ∧
      key (cache_of proc x) = ["tmp"; "slices"; x] ∧
      (x ≠ s -> ¬ key p `prefix_of` ["tmp"; "slices"; x]).
Proof.
  intros Hplat Hs Hx H r. subst r.
  destruct (fetchSlice_resolved_entries _ _ _ H) as (Hp & _ & _ & data & es & Hzip & Hz & Hes).
  assert (Hcache : ∀ y, plain y = true ->
            cache_of proc y = "/" +:+ Path.unsplit (["tmp"; "slices"] ++ [y])).
  { intros y Hy. rewrite <- (cache_of_normal proc [y]); [done..|].
    by apply Forall_singleton. }
  assert (Hkey : ∀ y, plain y = true -> key (cache_of proc y) = ["tmp"; "slices"; y]).
  { intros y Hy. rewrite Hcache by done. unfold Fs.key.
    apply resolve_abs_plain; [|done]. by repeat constructor. }
  exists data, es. split_and!; [done..|].
  intros e Hin Hnd Hname.
  destruct (Hes e Hin Hnd) as [Hw Hf].
  destruct (key_parent_dots ["tmp"; "slices"] s x (cwd proc)) as [Hj Hk];
    [by repeat constructor|done..|].
  assert (Htgt : target p e = "/tmp/slices/" +:+ x).
  { unfold target. rewrite Hp, Hname, Hcache by done. exact Hj. }
  unfold write_of in Hw. rewrite Htgt in Hw, Hf.
  split_and!; [done| |by apply Hkey|].
  - assert (Hk' : key ("/tmp/slices/" +:+ x) = ["tmp"; "slices"; x]) by exact Hk.
    by rewrite <- Hk'.
  - intros Hne Hpre. rewrite Hp, Hkey in Hpre by done.
    apply prefix_length_eq in Hpre; [|done]. by injection Hpre as ->.
Qed.

(** X12. Nor is the cache entry confined to the cache root: on a POSIX
    host, a fetch of the name "../x" has "x" beside the cache root as its
    cache entry (outside the cache root, unless "x" is the cache root
    itself), deletes it when it exists, and returns it. *)
Theorem fetchSlice_slice_name_not_confined x fs p :
  platform proc ≠ "win32" -> plain x = true ->
  outcome (fetchSlice proc remote ("../" +:+ x) fs) = Resolved p ->
  let r := fetchSlice proc remote ("../" +:+ x) fs in
  p = "/tmp/" +:+ x ∧
  key p = ["tmp"; x] ∧
  (x ≠ "slices" -> ¬ key (cacheArea proc) `prefix_of` key p) ∧
  (Fs.exists_path (cwd proc) fs p = true -> ERimraf p ∈ trace r) ∧
  Fs.is_dir (final r) ["tmp"; x] = true.
Proof.
  intros Hplat Hx H r. subst r.
  destruct (fetchSlice_resolved_entries _ _ _ H) as (Hp & Hd & Hrm & _).
  destruct (key_parent_dots ["tmp"] "slices" x (cwd proc)) as [Hj Hk];
    [by repeat constructor|done..|].
  assert (Hp' : p = "/tmp/" +:+ x).
  { rewrite Hp. unfold cache_of. rewrite (cacheArea_posix _ Hplat). exact Hj. }
  assert (Hkp : key p = ["tmp"; x]) by (rewrite Hp'; exact Hk).
  split_and!; [done..| |exact Hrm|by rewrite <- Hkp].
  rewrite Hkp, (cacheArea_posix _ Hplat). intros Hne Hpre.
  assert (Hca : key "/tmp/slices" = ["tmp"; "slices"]) by reflexivity.
  rewrite Hca in Hpre. apply prefix_length_eq in Hpre; [|done].
  congruence.
Qed.

(** X13. Slices do not disturb each other when their cache entries are
    apart: on a POSIX host, when the name fetched is in normal form, as
    are the names of the non-directory entries of the archive the run
    reads, the fetch changes nothing in or below the cache entry of
    another slice, unless one of the two cache entries lies in the
    other. *)
Theorem fetchSlice_leaves_other_slices sliceName other fs k :
  platform proc ≠ "win32" -> normal_form sliceName ->
  (∀ e, read_entry remote (trace (fetchSlice proc remote sliceName fs)) e ->
     normal_form (entryName e)) ->
  ¬ key (cache_of proc sliceName) `prefix_of` key (cache_of proc other) ->
  ¬ key (cache_of proc other) `prefix_of` key (cache_of proc sliceName) ->
  key (cache_of proc other) `prefix_of` k ->
  final (fetchSlice proc remote sliceName fs) !! k = fs !! k.
Proof.
  intros Hplat (nsegs & Hne & Hn & ->) Hentries Hab Hba Hk.
  set (A := key (cache_of proc (Path.unsplit nsegs))) in *.
  set (B := key (cache_of proc other)) in *.
  assert (Hpre : Forall (fun x => plain x = true) (["tmp"; "slices"] ++ nsegs)).
  { apply Forall_app. split; [by repeat constructor|done]. }
  assert (HA : A = ["tmp"; "slices"] ++ nsegs).
  { subst A. rewrite cache_of_normal by done. unfold Fs.key.
    by apply resolve_abs_plain. }
  assert (Hapart : ∀ k1 k2, A `prefix_of` k2 -> k1 `prefix_of` k2 -> ¬ B `prefix_of` k1).
  { intros k1 k2 HAk2 Hk12 HBk1.
    assert (HBk2 : B `prefix_of` k2) by (by etrans).
    destruct (prefix_weak_total _ _ _ HAk2 HBk2); done. }
  revert k Hk.
  assert (Hout : same_outside (fun k => ¬ B `prefix_of` k) fs
                   (final (fetchSlice proc remote (Path.unsplit nsegs) fs))).
  { apply fetchSlice_same_outside.
    - intros k HAk. by apply (Hapart k k).
    - intros k HkA. by apply (Hapart k A).
    - intros e Hread.
      destruct (Hentries _ Hread) as (esegs & Hene & He & Hname).
      unfold target. rewrite Hname, cache_of_normal by done.
      rewrite join_two_plain by done.
      rewrite <- HA. split.
      + intros k. unfold Fs.key. rewrite HA, key_dirname_normal by done.
        rewrite <- HA. intros Hk. apply (Hapart k (A ++ removelast esegs)); [|done].
        by apply prefix_app_r.
      + unfold Fs.key. rewrite resolve_abs_plain; [|by rewrite HA; apply Forall_app|].
        * apply (Hapart _ (A ++ esegs)); [by apply prefix_app_r|done].
        * rewrite HA. done. }
  intros k Hk. apply Hout. intros Hn'. by apply Hn'.
Qed.

End Names.

(** ** The size limit *)

Section Limit.
Variable proc : Process.
Variable remote : Remote.

Abbreviation key := (Fs.key (cwd proc)).

(** X14. A response that the sink does not finish at the limit's mark
    leaves the call unsettled, not failed: in a tree where the cache
    entry existed, [fetchSlice] never settles; its calls end with the
    making of the sink and the pipe, so it reads no archive and writes no
    file, and the cache entry is an empty directory afterwards. *)
Theorem fetchSlice_stalls_at_limit sliceName fs id act chunks :
  answers remote (GET_DOWNLOAD_URL proc) sliceName id act ->
  JS.truthy act = true -> usable act = true ->
  axios_get remote (download_url act) = Resolved (StreamEnds chunks) ->
  sink_finishes remote (MAX_SLICE_UPLOAD_SIZE proc) chunks = false ->
  well_formed fs ->
  Fs.exists_path (cwd proc) fs (Path.join [cacheArea proc; sliceName]) = true ->
  let r := fetchSlice proc remote sliceName fs in
  let cache := Path.join [cacheArea proc; sliceName] in
  outcome r = Pending ∧
  trace r = [EInvoke (GET_DOWNLOAD_URL proc) sliceName; EWait id 60;
             EGet (download_url act); EExists cache; ERimraf cache;
             EMkdir cache true; ENewSink (MAX_SLICE_UPLOAD_SIZE proc); EPipe] ∧
  Fs.is_dir (final r) (key cache) = true ∧
  ∀ k, key cache `prefix_of` k -> k ≠ key cache -> final r !! k = None.
Proof.
  intros Ha Ht Hu Hg Hs Hwf Hex r cache. subst r.
  fold (cache_of proc sliceName) in cache, Hex. fold cache in Hex.
  pose proof (resetAndCreate_succeeds proc cache fs Hwf Hex) as Hr.
  destruct (resetAndCreate_resolved _ _ _ Hr) as (Htr & Hd & Hclean).
  specialize (Hclean Hex). unfold exists_in in Htr. rewrite Hex in Htr.
  rewrite (fetchSlice_usable _ _ _ _ _ _ Ha Ht Hu). fold cache.
  rewrite (download_and_unpack_stops _ _ _ _ _ _ _ _ Hg Hr
             (fun t => unpack_stalls proc remote chunks cache t Hs)).
  cbn [outcome final trace]. split_and!; [done| |done|done].
  by rewrite Htr.
Qed.

End Limit.

(** ** What [parseInt] makes of the variable *)

Section Numerals.
Variable proc : Process.

Lemma numeral_cons d ds s :
  numeral (d :: ds) +:+ s = String (digit_char d) (numeral ds +:+ s).
Proof. reflexivity. Qed.

(** The digits are read up to the first character that is none. *)
Lemma parse_digits_stops ds acc c rest :
  Forall (fun d => 0 <= d <= 9) ds -> decimal_digit c = false ->
  JS.parse_digits 10 (Some acc) (numeral ds +:+ String c rest) =
    Some (fold_left (fun acc d => 10 * acc + d) ds acc).
Proof.
  intros H Hc. revert acc. induction H as [|d ds Hd H IH]; intros acc.
  - change (numeral [] +:+ String c rest) with (String c rest).
    cbn [JS.parse_digits fold_left]. unfold decimal_digit in Hc.
    destruct (JS.digit_value c) as [x|]; [|done]. by rewrite Hc.
  - rewrite numeral_cons. cbn [JS.parse_digits]. rewrite digit_value_char by done.
    assert ((d <? 10) = true) as -> by (apply Z.ltb_lt; lia).
    apply IH.
Qed.

Lemma parseInt_numeral_suffix d ds c rest :
  1 <= d <= 9 -> Forall (fun d => 0 <= d <= 9) ds -> decimal_digit c = false ->
  JS.parseInt_string (numeral (d :: ds) +:+ String c rest) =
    JS.to_double (numeral_value (d :: ds)).
Proof.
  intros Hd H Hc. rewrite numeral_cons, parseInt_string_digit by done.
  rewrite parse_digits_first by lia. rewrite parse_digits_stops by done.
  unfold numeral_value. cbn [fold_left]. by rewrite Z.mul_1_l, Z.mul_0_r, Z.add_0_l.
Qed.

Lemma parseInt_numeral_minus d ds :
  1 <= d <= 9 -> Forall (fun d => 0 <= d <= 9) ds ->
  JS.parseInt_string ("-" +:+ numeral (d :: ds)) =
    JS.to_double (- numeral_value (d :: ds)).
Proof.
  intros Hd H.
  assert (Hval : match JS.parse_digits 10 None (String (digit_char d) (numeral ds)) with
                 | Some m => JS.to_double (-1 * m)
                 | None => JS.NaN
                 end = JS.to_double (- numeral_value (d :: ds))).
  { rewrite parse_digits_first, parse_digits_numeral by (done || lia).
    unfold numeral_value. cbn [fold_left]. rewrite Z.mul_0_r, Z.add_0_l.
    f_equal; lia. }
  change ("-" +:+ numeral (d :: ds))
    with (String "-" (String (digit_char d) (numeral ds))).
  unfold JS.parseInt_string.
  rewrite trim_start_ascii; [|reflexivity|vm_compute; lia].
  destruct (nonzero_digit_cases d Hd) as [->|[->|[->|[->|[->|[->|[->|[->| ->]]]]]]]];
    exact Hval.
Qed.

(** X15. Of the text of MAX_SLICE_UPLOAD_SIZE only the leading numeral
    counts, and its sign: what follows the digits is dropped, so a unit
    is not understood ("64MB" is 64), and a negative number is taken as
    the limit as it is.  The limit is the double nearest to the number
    read, which below 2^53 is that number. *)
Theorem MAX_SLICE_UPLOAD_SIZE_leading_numeral d ds :
  1 <= d <= 9 -> Forall (fun d => 0 <= d <= 9) ds ->
  let n := numeral_value (d :: ds) in
  (∀ c rest, decimal_digit c = false ->
     env_MAX_SLICE_UPLOAD_SIZE proc = Some (numeral (d :: ds) +:+ String c rest) ->
     MAX_SLICE_UPLOAD_SIZE proc = JS.to_double n ∧
     (n < 2 ^ 53 -> MAX_SLICE_UPLOAD_SIZE proc = JS.Int n)) ∧
  (env_MAX_SLICE_UPLOAD_SIZE proc = Some ("-" +:+ numeral (d :: ds)) ->
   MAX_SLICE_UPLOAD_SIZE proc = JS.to_double (- n) ∧
   (n < 2 ^ 53 -> MAX_SLICE_UPLOAD_SIZE proc = JS.Int (- n) ∧ - n < 0)).
Proof.
  intros Hd H n.
  assert (Hn : 1 <= n).
  { subst n. unfold numeral_value. cbn [fold_left].
    etrans; [|apply numeral_value_from]; [lia|done|lia]. }
  unfold MAX_SLICE_UPLOAD_SIZE, JS.parseInt. split.
  - intros c rest Hc ->. rewrite parseInt_numeral_suffix by done. fold n.
    rewrite num_or_to_double by lia. split; [done|].
    intros Hsmall. apply to_double_small. lia.
  - intros ->. rewrite parseInt_numeral_minus by done. fold n.
    rewrite num_or_to_double by lia. split; [done|].
    intros Hsmall. split; [|lia]. apply to_double_small. lia.
Qed.

End Numerals.

(** ** Fetching, then deleting *)

Section RoundTrip.
Variable proc : Process.
Variable remote : Remote.

(** X16. What [fetchSlice] returns is what [deleteSlice] takes: on a POSIX
    host, for a name in normal form, [deleteSlice] of the project at the
    path a fetch returned invokes the delete action with the name that
    was fetched, and leaves the fetched files where they are. *)
Theorem deleteSlice_after_fetchSlice sliceName fs p :
  platform proc ≠ "win32" -> normal_form sliceName ->
  outcome (fetchSlice proc remote sliceName fs) = Resolved p ->
  let fs' := final (fetchSlice proc remote sliceName fs) in
  let d := deleteSlice proc remote (mkDeployStructure p) fs' in
  Path.relative (cwd proc) (cacheArea proc) p = sliceName ∧
  (∃ tr, trace d = EInvoke (DELETE_ASSETS_URL proc) sliceName :: tr) ∧
  final d = fs'.
Proof.
  intros Hplat (nsegs & Hne & Hn & ->) H fs' d. subst d.
  destruct (fetchSlice_resolved _ _ _ _ _ H)
    as (id & act & data & es & (c & inv & Hc & _) & _ & _ & Hp & _).
  assert (Hrel : Path.relative (cwd proc) (cacheArea proc) p = Path.unsplit nsegs).
  { rewrite Hp, cache_of_normal by done. rewrite (cacheArea_posix _ Hplat).
    change "/tmp/slices" with ("/" +:+ Path.unsplit ["tmp"; "slices"]).
    apply relative_below; [by repeat constructor|done..]. }
  split_and!; [done| |apply deleteSlice_final].
  unfold deleteSlice. fold (DELETE_ASSETS_URL proc). cbn [filePath]. rewrite Hrel.
  rewrite (bind_resolved _ _ _ c) by done. cbn [outcome final trace await].
  destruct (trace_bind_prefix
              (invoke remote (openwhisk c) (DELETE_ASSETS_URL proc) (Path.unsplit nsegs))
              (fun invoked => bind (wait remote (activationId invoked) (openwhisk c) 60)
                                (fun _ => ret tt)) fs') as (tr & ->).
  rewrite invoke_run. by exists tr.
Qed.

End RoundTrip.

(** ** What is left of the old cache entry *)

Section OldContent.
Variable proc : Process.
Variable remote : Remote.

Abbreviation key := (Fs.key (cwd proc)).

Lemma adds_only_refl S : Reflexive (adds_only S).
Proof. intros t k n Hk. left. eauto. Qed.

Lemma adds_only_trans S : Transitive (adds_only S).
Proof.
  intros t1 t2 t3 H12 H23 k n Hk.
  destruct (H23 _ _ Hk) as [[n' Hn']|HS]; [|by right]. by apply (H12 _ _ Hn').
Qed.

Lemma store_adds_only (S : list string -> Prop) cache e t :
  (∀ k, k `prefix_of` key (Path.dirname (target cache e)) -> S k) ->
  S (key (target cache e)) ->
  adds_only S t (final (store proc cache e t)).
Proof.
  intros HS1 HS2. unfold store. fold (target cache e).
  apply final_bind_rel_any; [apply adds_only_trans|apply adds_only_refl|].
  intros b t1 _.
  apply final_bind_rel_any; [apply adds_only_trans| |].
  { destruct (negb b); [|apply adds_only_refl].
    unfold Fs.mkdirSync_recursive. destruct (existsb _ _); [apply adds_only_refl|].
    intros k n. cbn [final]. rewrite lookup_mkdirp.
    destruct (decide _) as [Hin|]; [|by left; eauto].
    apply elem_of_prefixes in Hin as [_ Hin]. right. by apply HS1. }
  intros _ t2 _. rewrite bind_entry_getData.
  destruct (getData_error e); [apply adds_only_refl|].
  unfold Fs.writeFileSync.
  destruct (Path.has_trailing_slash _); [apply adds_only_refl|].
  destruct (negb _); [apply adds_only_refl|].
  destruct (Fs.lookup_key t2 _) as [[|d' m']|]; [apply adds_only_refl| |];
    intros k n; cbn [final]; rewrite lookup_insert;
    (destruct (decide _) as [<-|]; [by right|by left; eauto]).
Qed.

Lemma adds_only_mono (S S' : list string -> Prop) t t' :
  (∀ k, S k -> S' k) -> adds_only S t t' -> adds_only S' t t'.
Proof. intros HS H k n Hk. destruct (H k n Hk); auto. Qed.

Lemma stems_from_app_l cache tr tr' k :
  stems_from proc remote cache tr k -> stems_from proc remote cache (tr ++ tr') k.
Proof. intros (e & He & Hor). exists e. split; [by apply read_entry_app_l|done]. Qed.

Lemma stems_from_app_r cache tr tr' k :
  stems_from proc remote cache tr' k -> stems_from proc remote cache (tr ++ tr') k.
Proof. intros (e & He & Hor). exists e. split; [by apply read_entry_app_r|done]. Qed.

(** From the fresh cache entry on, whatever the outcome, only what stems
    from the archive read is added. *)
Lemma unpack_adds_only sliceName response t :
  let cache := cache_of proc sliceName in
  let r := unpack proc remote response cache t in
  adds_only (stems_from proc remote cache (trace r)) t (final r).
Proof.
  intros cache r. subst r.
  set (P := fun (ctx tr : list Event) (t t' : tree) =>
              adds_only (stems_from proc remote cache (ctx ++ tr)) t t').
  change (P [] (trace (unpack proc remote response cache t)) t
            (final (unpack proc remote response cache t))).
  apply (unpack_traced proc remote sliceName P).
  - intros ctx tr1 tr2 t1 t2 t3 H1 H2. unfold P in *.
    apply (adds_only_trans _ _ t2).
    + eapply adds_only_mono; [|exact H1]. intros k Hk.
      rewrite app_assoc. by apply stems_from_app_l.
    + by rewrite app_assoc.
  - intros ctx tr t' _. apply adds_only_refl.
  - intros ctx e t' He. apply store_adds_only.
    + intros k Hp. exists e. split; [by apply read_entry_app_l|by left].
    + exists e. split; [by apply read_entry_app_l|by right].
Qed.

(** In a tree nothing is below the cache entry after the reset, also
    when the reset fails. *)
Lemma resetAndCreate_clean_any p t k :
  well_formed t -> key p `prefix_of` k -> k ≠ key p ->
  final (resetAndCreate proc p t) !! k = None.
Proof.
  intros Hwf Hp Hne.
  assert (Hgone : Fs.exists_path (cwd proc) t p = false -> t !! k = None).
  { intros Hex. destruct (t !! k) as [n|] eqn:Hk; [|done]. exfalso.
    assert (Hnil : key p ≠ []).
    { intros E. unfold Fs.exists_path in Hex. rewrite E in Hex. simpl in Hex.
      rewrite ?orb_true_r in Hex. by simpl in Hex. }
    pose proof (Hwf _ _ Hk (key p) Hp ltac:(done) Hnil) as Hdir.
    assert (Fs.is_dir t (key p) = true) as Hd.
    { unfold Fs.is_dir. destruct (key p) as [|x K]; [done|]. simpl. by rewrite Hdir. }
    apply (is_dir_exists_path proc) in Hd. congruence. }
  assert (Hnin : k ∉ Fs.prefixes (key p)).
  { intros Hin. apply elem_of_prefixes in Hin as [_ Hin]. destruct Hne.
    by apply prefix_antisym. }
  unfold resetAndCreate, bind, Fs.existsSync, Fs.rimraf_sync,
    Fs.mkdirSync_recursive, ret.
  simpl. destruct (Fs.exists_path (cwd proc) t p) eqn:Hex; simpl;
    destruct (existsb _ _); simpl.
  - rewrite lookup_rimraf. by rewrite decide_True.
  - rewrite lookup_mkdirp, decide_False by done.
    rewrite lookup_rimraf. by rewrite decide_True.
  - by apply Hgone.
  - rewrite lookup_mkdirp, decide_False by done. by apply Hgone.
Qed.

(** X17. Once the download request is answered, the old content of the
    cache entry is gone, however the call ends: in a tree, whatever is
    below the cache entry after the call stems from an entry of the
    archive the run has read, as its target or on the way to it. *)
Theorem fetchSlice_old_content_gone sliceName fs id act response :
  answers remote (GET_DOWNLOAD_URL proc) sliceName id act ->
  JS.truthy act = true -> usable act = true ->
  axios_get remote (download_url act) = Resolved response ->
  well_formed fs ->
  let r := fetchSlice proc remote sliceName fs in
  let cache := Path.join [cacheArea proc; sliceName] in
  ∀ k n, final r !! k = Some n -> key cache `prefix_of` k -> k ≠ key cache ->
    stems_from proc remote cache (trace r) k.
Proof.
  intros Ha Ht Hu Hg Hwf r cache k n Hk Hp Hne. subst r.
  fold (cache_of proc sliceName) in cache.
  rewrite (fetchSlice_usable _ _ _ _ _ _ Ha Ht Hu) in Hk |- *.
  cbn [final trace] in Hk |- *.
  fold cache in Hk |- *. unfold download_and_unpack in Hk |- *.
  rewrite (bind_resolved _ _ _ response) in Hk |- * by (by rewrite get_run).
  rewrite get_run in Hk |- *. cbn [outcome final trace] in Hk |- *.
  pose proof (resetAndCreate_clean_any cache fs k Hwf Hp Hne) as Hclean.
  destruct (outcome (resetAndCreate proc cache fs)) as [[]|e|] eqn:Hr.
  - rewrite (bind_resolved _ _ _ tt Hr) in Hk |- *. cbn [final trace] in Hk |- *.
    destruct (unpack_adds_only sliceName response _ _ _ Hk) as [[n' Hn']|HS];
      [congruence|].
    apply stems_from_app_r. apply stems_from_app_r. apply stems_from_app_r. exact HS.
  - rewrite (bind_rejected _ _ _ e Hr) in Hk. cbn [final] in Hk. congruence.
  - rewrite (bind_pending _ _ _ Hr) in Hk. cbn [final] in Hk. congruence.
Qed.

(** X18. A response stream that errors leaves a call that never settles
    and a cache entry that is reset already: where the cache entry
    existed, in a tree, it is an empty directory afterwards. *)
Theorem fetchSlice_broken_stream_empties_cache sliceName fs id act rcv e :
  answers remote (GET_DOWNLOAD_URL proc) sliceName id act ->
  JS.truthy act = true -> usable act = true ->
  axios_get remote (download_url act) = Resolved (StreamErrors rcv e) ->
  well_formed fs ->
  Fs.exists_path (cwd proc) fs (Path.join [cacheArea proc; sliceName]) = true ->
  let r := fetchSlice proc remote sliceName fs in
  let cache := Path.join [cacheArea proc; sliceName] in
  outcome r = Pending ∧
  ERimraf cache ∈ trace r ∧
  Fs.is_dir (final r) (key cache) = true ∧
  ∀ k, key cache `prefix_of` k -> k ≠ key cache -> final r !! k = None.
Proof.
  intros Ha Ht Hu Hg Hwf Hex r cache. subst r.
  fold (cache_of proc sliceName) in cache, Hex. fold cache in Hex.
  pose proof (resetAndCreate_succeeds proc cache fs Hwf Hex) as Hr.
  destruct (resetAndCreate_resolved _ _ _ Hr) as (Htr & Hd & Hclean).
  specialize (Hclean Hex). unfold exists_in in Htr. rewrite Hex in Htr.
  rewrite (fetchSlice_usable _ _ _ _ _ _ Ha Ht Hu). fold cache.
  rewrite (download_and_unpack_stops _ _ _ _ _ _ _ _ Hg Hr
             (fun t => unpack_broken_stream proc remote rcv e cache t)).
  cbn [outcome final trace]. split_and!; [done| |done|done].
  rewrite Htr. do 4 (apply elem_of_cons; right). by left.
Qed.

(** X19. A file in the way stops the fetch before anything is changed:
    in a tree where an ancestor of the cache entry is a file, and with
    the download request answered, [fetchSlice] fails on making the
    cache directory, with the file system as it was. *)
Theorem fetchSlice_blocked_by_file sliceName fs id act response k :
  answers remote (GET_DOWNLOAD_URL proc) sliceName id act ->
  JS.truthy act = true -> usable act = true ->
  axios_get remote (download_url act) = Resolved response ->
  well_formed fs ->
  let cache := Path.join [cacheArea proc; sliceName] in
  k `prefix_of` key cache -> k ≠ key cache -> Fs.is_file fs k = true ->
  let r := fetchSlice proc remote sliceName fs in
  (∃ e, outcome r = Rejected e) ∧
  final r = fs ∧
  trace r = [EInvoke (GET_DOWNLOAD_URL proc) sliceName; EWait id 60;
             EGet (download_url act); EExists cache; EMkdir cache true].
Proof.
  intros Ha Ht Hu Hg Hwf cache Hp Hne Hf r. subst r.
  fold (cache_of proc sliceName) in cache.
  destruct (is_file_lookup _ _ Hf) as (Hnil & d & m & Hk).
  assert (Hex : Fs.exists_path (cwd proc) fs cache = false).
  { unfold Fs.exists_path.
    destruct (Fs.lookup_key fs (key cache)) as [n|] eqn:Hl.
    2: { rewrite bool_decide_eq_false_2; [done|]. by intros [? ?]. }
    exfalso. destruct (key cache) as [|x K] eqn:E.
    - apply prefix_nil_inv in Hp. done.
    - simpl in Hl. rewrite (Hwf _ _ Hl k Hp Hne Hnil) in Hk. done. }
  assert (Hblock : existsb (Fs.is_file fs) (Fs.prefixes (key cache)) = true).
  { apply existsb_exists. exists k. split; [|done].
    apply list_elem_of_In, elem_of_prefixes. done. }
  rewrite (fetchSlice_usable _ _ _ _ _ _ Ha Ht Hu). fold cache.
  unfold download_and_unpack.
  rewrite (bind_resolved _ _ _ response) by (by rewrite get_run).
  rewrite get_run. cbn [outcome final trace].
  assert (Hreset : resetAndCreate proc cache fs =
            mkRun (Rejected (mkError ("ENOTDIR: not a directory, mkdir '" +:+ cache +:+ "'")))
                  fs [EExists cache; EMkdir cache true]).
  { unfold resetAndCreate, bind, Fs.existsSync, Fs.rimraf_sync,
      Fs.mkdirSync_recursive, ret.
    simpl. rewrite Hex. simpl. by rewrite Hblock. }
  rewrite (bind_rejected _ _ _ _ (f_equal outcome Hreset)). rewrite Hreset.
  cbn [outcome final trace]. split_and!; [by eauto|done..].
Qed.

End OldContent.

(** ** Entries whose data cannot be read *)

Section Unreadable.
Variable proc : Process.
Variable remote : Remote.

Lemma loop_reads_all cache es t :
  outcome (for_of es (store proc cache) t) = Resolved tt ->
  ∀ e, e ∈ es -> getData_error e = None.
Proof.
  revert t. induction es as [|e0 es IH]; intros t H e Hin.
  { by apply elem_of_nil in Hin. }
  rewrite for_of_cons in H.
  destruct (bind_outcome_inv _ _ _ _ H) as ([] & He & Hrest).
  apply elem_of_cons in Hin as [->|Hin]; [|by apply (IH _ Hrest)].
  by destruct (store_resolved _ _ _ _ He) as (t1 & mk & m & Hg & _).
Qed.

(** X20. A fetch returns only when the data of every entry it stores could
    be read: in a run that returns, [entry.getData()] has failed for no
    non-directory entry of the archive read. *)
Theorem fetchSlice_reads_every_entry sliceName fs p :
  outcome (fetchSlice proc remote sliceName fs) = Resolved p ->
  let r := fetchSlice proc remote sliceName fs in
  ∃ data es,
    ENewZip data ∈ trace r ∧ Zip_getEntries remote data = Resolved es ∧
    ∀ e, e ∈ es -> isDirectory e = false -> getData_error e = None.
Proof.
  intros H r. subst r.
  destruct (fetchSlice_resolved _ _ _ _ _ H)
    as (id & act & data & es & Ha & Hg & Hz & Hp & Hr1 & Hr2 & Hfin & Htr).
  exists data, es. split.
  { rewrite Htr, !elem_of_app. right. right. left.
    apply elem_of_cons. right. apply elem_of_cons. right. by left. }
  split; [done|]. intros e Hin Hnd.
  apply (loop_reads_all _ _ _ Hr2). apply list_elem_of_filter.
  split; [by rewrite Hnd|done].
Qed.

End Unreadable.

(** ** The further statements at the sample worlds *)

Lemma well_formed_empty : well_formed ∅.
Proof. intros k n Hk. by rewrite lookup_empty in Hk. Qed.

Lemma well_formed_cached : well_formed Sample2.cached.
Proof.
  unfold Sample2.cached. apply well_formed_write.
  - apply well_formed_mkdirp, well_formed_empty.
  - by vm_compute.
  - by vm_compute.
Qed.

Lemma well_formed_blocked : well_formed Sample2.blocked.
Proof.
  unfold Sample2.blocked. apply well_formed_write; [apply well_formed_empty|done..].
Qed.

Lemma well_formed_populated : well_formed Sample2.populated.
Proof.
  unfold Sample2.populated. apply well_formed_write; [|by vm_compute..].
  apply well_formed_write; [|by vm_compute..].
  apply well_formed_mkdirp, well_formed_cached.
Qed.

Lemma answers_serving body action sliceName :
  answers (Sample2.serving body) action sliceName "activation-1" Sample.good_activation.
Proof. exists Sample.creds, (mkInvoked "activation-1"). by repeat split. Qed.

Lemma key_myslice :
  Fs.key (cwd Sample.posix) (Path.join [cacheArea Sample.posix; "myslice"]) =
    ["tmp"; "slices"; "myslice"].
Proof. by vm_compute. Qed.

Lemma elem_of_zips_of data tr : ENewZip data ∈ tr -> data ∈ zips_of tr.
Proof.
  induction tr as [|ev tr IH]; [by intros ?%elem_of_nil|].
  intros [<-|Hin]%elem_of_cons; [by left|].
  destruct ev; simpl; auto. right. auto.
Qed.

(** The entries read in a run with one [new Zip] call. *)
Lemma read_entry_zips remote tr e data es :
  zips_of tr = [data] -> Zip_getEntries remote data = Resolved es ->
  read_entry remote tr e -> e ∈ es ∧ isDirectory e = false.
Proof.
  intros Hz Hes (d & es' & Hin & Hes' & He & Hnd).
  apply elem_of_zips_of in Hin. rewrite Hz in Hin.
  apply list_elem_of_singleton in Hin as ->.
  rewrite Hes in Hes'. by injection Hes' as <-.
Qed.

Lemma fetchSlice_passes_on_rejection_witness :
  actions_invoke Sample2.invoke_refused (openwhisk Sample.creds)
    (GET_DOWNLOAD_URL Sample.posix) "myslice" = Rejected Sample2.refused ∧
  fetchSlice Sample.posix Sample2.invoke_refused "myslice" ∅ =
    mkRun (Rejected Sample2.refused) ∅
      [EInvoke "/nimbella/builder/getDownloadUrl" "myslice"].
Proof.
  split; [reflexivity|].
  destruct (fetchSlice_passes_on_rejection Sample.posix Sample2.invoke_refused
              "myslice" ∅ Sample2.refused) as (_ & H & _).
  exact (H Sample.creds eq_refl eq_refl).
Defined.

Lemma deleteSlice_passes_on_rejection_witness :
  waitForActivation Sample2.wait_refused "activation-1" (openwhisk Sample.creds) 60
    = Rejected Sample2.refused ∧
  deleteSlice Sample.posix Sample2.wait_refused
    (mkDeployStructure "/tmp/slices/myslice") ∅ =
    mkRun (Rejected Sample2.refused) ∅
      [EInvoke "/nimbella/builder/deleteBuildAssets" "myslice";
       EWait "activation-1" 60].
Proof.
  split; [reflexivity|].
  pose proof (deleteSlice_passes_on_rejection Sample.posix Sample2.wait_refused
                (mkDeployStructure "/tmp/slices/myslice") ∅ Sample2.refused) as H.
  cbv zeta in H. destruct H as (_ & _ & H).
  exact (H Sample.creds (mkInvoked "activation-1") eq_refl eq_refl eq_refl).
Defined.

Lemma fetchSlice_keeps_well_formed_witness :
  well_formed Sample2.cached ∧
  well_formed (final (fetchSlice Sample.posix Sample.second "myslice" Sample2.cached)).
Proof.
  split; [exact well_formed_cached|].
  exact (fetchSlice_keeps_well_formed Sample.posix Sample.second "myslice"
           Sample2.cached well_formed_cached).
Defined.

Lemma not_region_home :
  ¬ region Sample.posix (Sample2.serving [[Byte.x50]]) "myslice"
      (trace (fetchSlice Sample.posix (Sample2.serving [[Byte.x50]]) "myslice"
                Sample2.populated))
      ["home"].
Proof.
  unfold region, cache_of. rewrite key_myslice.
  intros [Hp|[Hp|(e & Hread & Hor)]].
  - by apply prefix_cons_inv_1 in Hp.
  - by apply prefix_cons_inv_1 in Hp.
  - assert (Hz : zips_of (trace (fetchSlice Sample.posix (Sample2.serving [[Byte.x50]])
                                   "myslice" Sample2.populated)) = [[Byte.x50]])
      by (by vm_compute).
    destruct (read_entry_zips (Sample2.serving [[Byte.x50]]) _ _ _
                Sample.archive1 Hz eq_refl Hread) as [Hin Hnd].
    clear Hread Hz. unfold Sample.archive1 in Hin.
    repeat (apply elem_of_cons in Hin as [->|Hin]); [..|by apply elem_of_nil in Hin].
    all: try discriminate Hnd.
    all: destruct Hor as [Hp|Hk]; [|revert Hk; by vm_compute].
    all: apply prefix_cons_inv_1 in Hp; revert Hp; by vm_compute.
Qed.

Lemma fetchSlice_changes_only_its_region_witness :
  Zip_getEntries (Sample2.serving [[Byte.x50]]) [Byte.x54] =
    Resolved [mkZipEntry "../../../home" false 2175008768 [Byte.x07] None] ∧
  Sample2.populated !! ["home"] = Some (File [Byte.x05] 420) ∧
  final (fetchSlice Sample.posix (Sample2.serving [[Byte.x50]]) "myslice"
           Sample2.populated) !! ["home"] = Some (File [Byte.x05] 420).
Proof.
  split; [reflexivity|]. split; [by vm_compute|].
  pose proof (fetchSlice_changes_only_its_region Sample.posix
                (Sample2.serving [[Byte.x50]]) "myslice" Sample2.populated ["home"]) as H.
  cbv zeta in H. rewrite (H not_region_home). by vm_compute.
Defined.

Lemma not_below_myslice :
  ¬ Fs.key (cwd Sample.posix) (Path.join [cacheArea Sample.posix; "myslice"])
      `prefix_of` ["tmp"; "slices"].
Proof.
  rewrite key_myslice. intros Hp. apply prefix_length in Hp. simpl in Hp. lia.
Qed.

Lemma fetchSlice_removes_nothing_outside_cache_witness :
  Fs.is_dir Sample2.cached ["tmp"; "slices"] = true ∧
  Fs.is_dir (final (fetchSlice Sample.posix Sample.second "myslice" Sample2.cached))
    ["tmp"; "slices"] = true.
Proof.
  assert (H : Fs.is_dir Sample2.cached ["tmp"; "slices"] = true) by (by vm_compute).
  split; [exact H|].
  exact (proj1 (fetchSlice_removes_nothing_outside_cache Sample.posix Sample.second
                  "myslice" Sample2.cached ["tmp"; "slices"] not_below_myslice) H).
Defined.

Lemma exists_cached :
  Fs.exists_path (cwd Sample.posix) Sample2.cached
    (Path.join [cacheArea Sample.posix; "myslice"]) = true.
Proof. by vm_compute. Qed.

Lemma old_below_myslice :
  Fs.key (cwd Sample.posix) (Path.join [cacheArea Sample.posix; "myslice"])
    `prefix_of` ["tmp"; "slices"; "myslice"; "old.js"]
  ∧ ["tmp"; "slices"; "myslice"; "old.js"] ≠
    Fs.key (cwd Sample.posix) (Path.join [cacheArea Sample.posix; "myslice"]).
Proof. rewrite key_myslice. split; [by exists ["old.js"]|done]. Qed.

Lemma fetchSlice_unreadable_archive_empties_cache_witness :
  well_formed Sample2.cached ∧
  Sample2.cached !! ["tmp"; "slices"; "myslice"; "old.js"] = Some (File [Byte.x00] 420) ∧
  outcome (fetchSlice Sample.posix Sample2.bad_archive "myslice" Sample2.cached) =
    Rejected (mkError "Invalid or unsupported zip format") ∧
  final (fetchSlice Sample.posix Sample2.bad_archive "myslice" Sample2.cached)
    !! ["tmp"; "slices"; "myslice"; "old.js"] = None.
Proof.
  split; [exact well_formed_cached|]. split; [by vm_compute|].
  destruct (fetchSlice_unreadable_archive_empties_cache Sample.posix Sample2.bad_archive
              "myslice" Sample2.cached "activation-1" Sample.good_activation
              [[Byte.x50]; [Byte.x4b]] (mkError "Invalid or unsupported zip format")
              (answers_serving _ _ _) eq_refl eq_refl eq_refl eq_refl eq_refl
              well_formed_cached exists_cached) as (Ho & _ & _ & Hclean).
  split; [exact Ho|].
  exact (Hclean _ (proj1 old_below_myslice) (proj2 old_below_myslice)).
Defined.

Lemma fetched_first :
  outcome (fetchSlice Sample.posix Sample.first "myslice" ∅) = Resolved "/tmp/slices/myslice".
Proof. by vm_compute. Qed.

Lemma fetchSlice_files_as_archived_witness :
  outcome (fetchSlice Sample.posix Sample.first "myslice" ∅)
    = Resolved "/tmp/slices/myslice" ∧
  final (fetchSlice Sample.posix Sample.first "myslice" ∅)
    !! ["tmp"; "slices"; "myslice"; "lib"; "util.js"] = Some (File [Byte.x02] 493).
Proof.
  split; [exact fetched_first|].
  destruct (fetchSlice_files_as_archived _ _ _ _ _ fetched_first)
    as (data & es & _ & Hz & Hfiles).
  injection Hz as <-. cbv zeta in Hfiles.
  assert (Hnd : NoDup (map (fun e => Fs.key (cwd Sample.posix)
                              (Path.join ["/tmp/slices/myslice"; entryName e]))
                         (filter (fun e => negb (isDirectory e)) Sample.archive1))).
  { apply (bool_decide_unpack _). by vm_compute. }
  assert (Hin : mkZipEntry "lib/util.js" false 2179792896 [Byte.x02] None
                ∈ filter (fun e => negb (isDirectory e)) Sample.archive1).
  { apply list_elem_of_filter. split; [done|]. right. right. by left. }
  exact (Hfiles Hnd _ Hin (or_introl eq_refl)).
Defined.

Lemma fetchSlice_no_other_files_witness :
  outcome (fetchSlice Sample.posix Sample.first "myslice" ∅)
    = Resolved "/tmp/slices/myslice" ∧
  well_formed ∅ ∧
  ∀ k d m,
    final (fetchSlice Sample.posix Sample.first "myslice" ∅) !! k = Some (File d m) ->
    ["tmp"; "slices"; "myslice"] `prefix_of` k ->
    k = ["tmp"; "slices"; "myslice"; "index.js"]
    ∨ k = ["tmp"; "slices"; "myslice"; "lib"; "util.js"].
Proof.
  split; [exact fetched_first|]. split; [exact well_formed_empty|].
  destruct (fetchSlice_no_other_files _ _ _ _ _ fetched_first (or_introl well_formed_empty))
    as (data & es & _ & Hz & Hk).
  injection Hz as <-. intros k d m Hf Hp.
  destruct (Hk k d m Hf Hp) as (e & Hin & Hnd & ->). clear Hf Hp Hk.
  unfold Sample.archive1 in Hin.
  repeat (apply elem_of_cons in Hin as [->|Hin]); [..|by apply elem_of_nil in Hin].
  - left. by vm_compute.
  - discriminate Hnd.
  - right. by vm_compute.
Defined.

Lemma normal_myslice : normal_form "myslice".
Proof. exists ["myslice"]. split_and!; [done|by repeat constructor|done]. Qed.

Lemma posix_host : platform Sample.posix ≠ "win32".
Proof. discriminate. Qed.

Lemma fetchSlice_normal_form_paths_witness :
  platform Sample.posix ≠ "win32" ∧ normal_form "myslice" ∧ normal_form "lib/util.js" ∧
  ("/tmp/slices/myslice/lib/util.js", [Byte.x02], 33261)
    ∈ writes_of (trace (fetchSlice Sample.posix Sample.first "myslice" ∅)).
Proof.
  assert (Hn : normal_form "lib/util.js").
  { exists ["lib"; "util.js"]. split_and!; [done|by repeat constructor|done]. }
  split; [exact posix_host|]. split; [exact normal_myslice|]. split; [exact Hn|].
  destruct (fetchSlice_normal_form_paths Sample.posix Sample.first "myslice" ∅ _
              posix_host normal_myslice fetched_first)
    as (_ & data & es & _ & Hz & Hes).
  injection Hz as <-.
  assert (Hin : mkZipEntry "lib/util.js" false 2179792896 [Byte.x02] None
                ∈ Sample.archive1).
  { right. right. by left. }
  exact (proj1 (Hes _ Hin eq_refl Hn)).
Defined.

Lemma fetched_slipping :
  outcome (fetchSlice Sample.posix Sample2.slipping "myslice" ∅)
    = Resolved "/tmp/slices/myslice".
Proof. by vm_compute. Qed.

Lemma fetchSlice_entry_name_not_confined_witness :
  plain "myslice" = true ∧ plain "other" = true ∧
  outcome (fetchSlice Sample.posix Sample2.slipping "myslice" ∅)
    = Resolved "/tmp/slices/myslice" ∧
  Fs.is_file (final (fetchSlice Sample.posix Sample2.slipping "myslice" ∅))
    ["tmp"; "slices"; "other"] = true.
Proof.
  split; [reflexivity|]. split; [reflexivity|]. split; [exact fetched_slipping|].
  destruct (fetchSlice_entry_name_not_confined Sample.posix Sample2.slipping
              "myslice" "other" ∅ _ posix_host eq_refl eq_refl fetched_slipping)
    as (data & es & Hzip & Hz & Hes).
  apply elem_of_zips_of in Hzip.
  assert (Hzs : zips_of (trace (fetchSlice Sample.posix Sample2.slipping "myslice" ∅))
                = [[Byte.x52]]) by (by vm_compute).
  rewrite Hzs in Hzip. apply list_elem_of_singleton in Hzip. subst data.
  injection Hz as <-.
  assert (Hin : mkZipEntry "../other" false 2175008768 [Byte.x04] None
                ∈ [mkZipEntry "../other" false 2175008768 [Byte.x04] None]) by (by left).
  destruct (Hes _ Hin eq_refl eq_refl) as (_ & Hf & _).
  exact Hf.
Defined.

Lemma fetched_beside :
  outcome (fetchSlice Sample.posix Sample.first "../other" ∅) = Resolved "/tmp/other".
Proof. by vm_compute. Qed.

Lemma fetchSlice_slice_name_not_confined_witness :
  plain "other" = true ∧
  outcome (fetchSlice Sample.posix Sample.first "../other" ∅) = Resolved "/tmp/other" ∧
  Fs.is_dir (final (fetchSlice Sample.posix Sample.first "../other" ∅))
    ["tmp"; "other"] = true.
Proof.
  split; [reflexivity|]. split; [exact fetched_beside|].
  destruct (fetchSlice_slice_name_not_confined Sample.posix Sample.first "other" ∅ _
              posix_host eq_refl fetched_beside) as (_ & _ & _ & _ & Hd).
  exact Hd.
Defined.

Lemma key_other :
  Fs.key (cwd Sample.posix) (cache_of Sample.posix "other") = ["tmp"; "slices"; "other"].
Proof. by vm_compute. Qed.

Lemma read_normal e :
  read_entry (Sample2.serving [[Byte.x50]])
    (trace (fetchSlice Sample.posix (Sample2.serving [[Byte.x50]]) "myslice"
              Sample2.populated)) e ->
  normal_form (entryName e).
Proof.
  intros Hread.
  assert (Hz : zips_of (trace (fetchSlice Sample.posix (Sample2.serving [[Byte.x50]])
                                 "myslice" Sample2.populated)) = [[Byte.x50]])
    by (by vm_compute).
  destruct (read_entry_zips (Sample2.serving [[Byte.x50]]) _ _ _
                Sample.archive1 Hz eq_refl Hread) as [Hin Hnd].
  clear Hread Hz. unfold Sample.archive1 in Hin.
  repeat (apply elem_of_cons in Hin as [->|Hin]); [..|by apply elem_of_nil in Hin].
  - exists ["index.js"]. split_and!; [done|by repeat constructor|done].
  - discriminate Hnd.
  - exists ["lib"; "util.js"]. split_and!; [done|by repeat constructor|done].
Qed.

Lemma fetchSlice_leaves_other_slices_witness :
  normal_form "myslice" ∧
  Zip_getEntries (Sample2.serving [[Byte.x50]]) [Byte.x52] =
    Resolved [mkZipEntry "../other" false 2175008768 [Byte.x04] None] ∧
  Sample2.populated !! ["tmp"; "slices"; "other"; "main.js"] =
    Some (File [Byte.x03] 420) ∧
  final (fetchSlice Sample.posix (Sample2.serving [[Byte.x50]]) "myslice"
           Sample2.populated) !! ["tmp"; "slices"; "other"; "main.js"] =
    Some (File [Byte.x03] 420).
Proof.
  split; [exact normal_myslice|]. split; [reflexivity|]. split; [by vm_compute|].
  rewrite (fetchSlice_leaves_other_slices Sample.posix (Sample2.serving [[Byte.x50]])
             "myslice" "other" Sample2.populated ["tmp"; "slices"; "other"; "main.js"]
             posix_host normal_myslice read_normal).
  - by vm_compute.
  - unfold cache_of at 1. rewrite key_myslice, key_other. intros Hp.
    apply prefix_length_eq in Hp; [done|done].
  - unfold cache_of at 2. rewrite key_myslice, key_other. intros Hp.
    apply prefix_length_eq in Hp; [done|done].
  - rewrite key_other. by exists ["main.js"].
Defined.

Lemma fetchSlice_stalls_at_limit_witness :
  MAX_SLICE_UPLOAD_SIZE Sample2.tight = JS.Int 1 ∧
  well_formed Sample2.cached ∧
  Sample2.cached !! ["tmp"; "slices"; "myslice"; "old.js"] = Some (File [Byte.x00] 420) ∧
  outcome (fetchSlice Sample2.tight (Sample2.serving [[Byte.x50]]) "myslice"
             Sample2.cached) = Pending ∧
  final (fetchSlice Sample2.tight (Sample2.serving [[Byte.x50]]) "myslice" Sample2.cached)
    !! ["tmp"; "slices"; "myslice"; "old.js"] = None.
Proof.
  split; [reflexivity|]. split; [exact well_formed_cached|]. split; [by vm_compute|].
  destruct (fetchSlice_stalls_at_limit Sample2.tight (Sample2.serving [[Byte.x50]])
              "myslice" Sample2.cached "activation-1" Sample.good_activation
              [[Byte.x50]]
              (answers_serving _ _ _) eq_refl eq_refl eq_refl eq_refl
              well_formed_cached exists_cached) as (Ho & _ & _ & Hclean).
  split; [exact Ho|].
  exact (Hclean _ (proj1 old_below_myslice) (proj2 old_below_myslice)).
Defined.

Lemma MAX_SLICE_UPLOAD_SIZE_leading_numeral_witness :
  decimal_digit "M" = false ∧
  MAX_SLICE_UPLOAD_SIZE (mkProcess "linux" "" (Some "64MB") "/" 18 "nimbella")
    = JS.Int 64 ∧
  MAX_SLICE_UPLOAD_SIZE
    (mkProcess "linux" "" (Some "9007199254740993MB") "/" 18 "nimbella")
    = JS.Int 9007199254740992.
Proof.
  split; [reflexivity|].
  assert (Hd6 : 1 <= 6 <= 9) by lia.
  assert (Hd9 : 1 <= 9 <= 9) by lia.
  assert (Hds : Forall (fun d => 0 <= d <= 9) [4]) by (repeat constructor; lia).
  assert (Hds' : Forall (fun d => 0 <= d <= 9) [0; 0; 7; 1; 9; 9; 2; 5; 4; 7; 4; 0; 9; 9; 3])
    by (repeat constructor; lia).
  split.
  - destruct (MAX_SLICE_UPLOAD_SIZE_leading_numeral
                (mkProcess "linux" "" (Some "64MB") "/" 18 "nimbella") 6 [4] Hd6 Hds)
      as (H & _).
    exact (proj2 (H "M"%char "B" eq_refl eq_refl) eq_refl).
  - destruct (MAX_SLICE_UPLOAD_SIZE_leading_numeral
                (mkProcess "linux" "" (Some "9007199254740993MB") "/" 18 "nimbella")
                9 [0; 0; 7; 1; 9; 9; 2; 5; 4; 7; 4; 0; 9; 9; 3] Hd9 Hds')
      as (H & _).
    exact (proj1 (H "M"%char "B" eq_refl eq_refl)).
Defined.

Lemma deleteSlice_after_fetchSlice_witness :
  normal_form "myslice" ∧
  outcome (fetchSlice Sample.posix Sample.first "myslice" ∅)
    = Resolved "/tmp/slices/myslice" ∧
  ∃ tr, trace (deleteSlice Sample.posix Sample.first
                 (mkDeployStructure "/tmp/slices/myslice")
                 (final (fetchSlice Sample.posix Sample.first "myslice" ∅))) =
          EInvoke "/nimbella/builder/deleteBuildAssets" "myslice" :: tr.
Proof.
  split; [exact normal_myslice|]. split; [exact fetched_first|].
  pose proof (deleteSlice_after_fetchSlice Sample.posix Sample.first "myslice" ∅ _
                posix_host normal_myslice fetched_first) as H.
  cbv zeta in H. destruct H as (_ & H & _). exact H.
Defined.

Lemma fetchSlice_old_content_gone_witness :
  well_formed Sample2.cached ∧
  Zip_getEntries (Sample2.serving [[Byte.x51]]) [Byte.x55] =
    Resolved [mkZipEntry "old.js" false 2175008768 [Byte.x08] None] ∧
  Sample2.cached !! ["tmp"; "slices"; "myslice"; "old.js"] = Some (File [Byte.x00] 420) ∧
  final (fetchSlice Sample.posix (Sample2.serving [[Byte.x51]]) "myslice" Sample2.cached)
    !! ["tmp"; "slices"; "myslice"; "old.js"] = None.
Proof.
  split; [exact well_formed_cached|]. split; [reflexivity|]. split; [by vm_compute|].
  destruct (final (fetchSlice Sample.posix (Sample2.serving [[Byte.x51]]) "myslice"
                     Sample2.cached)
              !! ["tmp"; "slices"; "myslice"; "old.js"]) as [n|] eqn:Hk; [|reflexivity].
  exfalso.
  destruct (fetchSlice_old_content_gone Sample.posix (Sample2.serving [[Byte.x51]])
              "myslice" Sample2.cached "activation-1" Sample.good_activation
              (StreamEnds [[Byte.x51]])
              (answers_serving _ _ _) eq_refl eq_refl eq_refl well_formed_cached
              _ _ Hk (proj1 old_below_myslice) (proj2 old_below_myslice))
    as (e & Hread & Hor).
  assert (Hz : zips_of (trace (fetchSlice Sample.posix (Sample2.serving [[Byte.x51]])
                                 "myslice" Sample2.cached)) = [[Byte.x51]])
    by (by vm_compute).
  destruct (read_entry_zips (Sample2.serving [[Byte.x51]]) _ _ _
              Sample.archive2 Hz eq_refl Hread) as [Hin _].
  clear Hread Hz Hk.
  apply list_elem_of_singleton in Hin. subst e.
  destruct Hor as [Hp|Hk'].
  - apply prefix_length in Hp. revert Hp. vm_compute. lia.
  - revert Hk'. by vm_compute.
Defined.

Lemma fetchSlice_broken_stream_empties_cache_witness :
  well_formed Sample2.cached ∧
  outcome (fetchSlice Sample.posix Sample.broken_stream "myslice" Sample2.cached) = Pending ∧
  final (fetchSlice Sample.posix Sample.broken_stream "myslice" Sample2.cached)
    !! ["tmp"; "slices"; "myslice"; "old.js"] = None.
Proof.
  split; [exact well_formed_cached|].
  destruct (fetchSlice_broken_stream_empties_cache Sample.posix Sample.broken_stream
              "myslice" Sample2.cached "activation-1" Sample.good_activation
              [[Byte.x50]] (mkError "aborted")
              (answers_sample _ _ _ _ _) eq_refl eq_refl eq_refl
              well_formed_cached exists_cached) as (Ho & _ & _ & Hclean).
  split; [exact Ho|].
  exact (Hclean _ (proj1 old_below_myslice) (proj2 old_below_myslice)).
Defined.

Lemma fetchSlice_blocked_by_file_witness :
  well_formed Sample2.blocked ∧
  Fs.is_file Sample2.blocked ["tmp"] = true ∧
  (∃ e, outcome (fetchSlice Sample.posix Sample.first "myslice" Sample2.blocked)
        = Rejected e) ∧
  final (fetchSlice Sample.posix Sample.first "myslice" Sample2.blocked) = Sample2.blocked.
Proof.
  split; [exact well_formed_blocked|]. split; [reflexivity|].
  assert (Hp : ["tmp"] `prefix_of`
                 Fs.key (cwd Sample.posix) (Path.join [cacheArea Sample.posix; "myslice"])).
  { rewrite key_myslice. by exists ["slices"; "myslice"]. }
  assert (Hne : ["tmp"] ≠
                 Fs.key (cwd Sample.posix) (Path.join [cacheArea Sample.posix; "myslice"])).
  { by rewrite key_myslice. }
  destruct (fetchSlice_blocked_by_file Sample.posix Sample.first "myslice"
              Sample2.blocked "activation-1" Sample.good_activation
              (StreamEnds [[Byte.x50]]) ["tmp"]
              (answers_sample _ _ _ _ _) eq_refl eq_refl eq_refl
              well_formed_blocked Hp Hne eq_refl) as (He & Hf & _).
  split; [exact He|exact Hf].
Defined.

Lemma fetched_serving :
  outcome (fetchSlice Sample.posix (Sample2.serving [[Byte.x50]]) "myslice" ∅)
    = Resolved "/tmp/slices/myslice".
Proof. by vm_compute. Qed.

Lemma fetchSlice_reads_every_entry_witness :
  outcome (fetchSlice Sample.posix (Sample2.serving [[Byte.x50]]) "myslice" ∅)
    = Resolved "/tmp/slices/myslice" ∧
  Forall (fun e => getData_error e = None)
         (filter (fun e => negb (isDirectory e)) Sample.archive1).
Proof.
  split; [exact fetched_serving|].
  destruct (fetchSlice_reads_every_entry _ _ _ _ _ fetched_serving)
    as (data & es & Hzip & Hz & Hes).
  apply elem_of_zips_of in Hzip.
  assert (Hzs : zips_of (trace (fetchSlice Sample.posix (Sample2.serving [[Byte.x50]])
                                  "myslice" ∅)) = [[Byte.x50]]) by (by vm_compute).
  rewrite Hzs in Hzip. apply list_elem_of_singleton in Hzip. subst data.
  injection Hz as <-.
  apply Forall_forall. intros e Hin. apply list_elem_of_filter in Hin as [Hnd Hin].
  apply (Hes e Hin). by destruct (isDirectory e).
Defined.

(** At the archive whose second entry cannot be read: the first file is
    stored and stays, the third is never reached. *)
Example fetchSlice_damaged_entry :
  let r := fetchSlice Sample.posix (Sample2.serving [[Byte.x53]]) "myslice" ∅ in
  outcome r = Rejected (mkError "CRC32 checksum failed") ∧
  final r !! ["tmp"; "slices"; "myslice"; "index.js"] = Some (File [Byte.x01] 420) ∧
  final r !! ["tmp"; "slices"; "myslice"; "broken.js"] = None ∧
  final r !! ["tmp"; "slices"; "myslice"; "last.js"] = None.
Proof. by vm_compute. Qed.
